(** * Probe.py: distributed probe collections, aggregation on a root
      process and interpolation between non-matching meshes

    A shallow embedding of [src/Probe.py].  The Python classes wrap a compiled
    extension module whose source is not part of [src/]; its methods are
    taken as the fields of the records [probe] and [compiled] below, and every
    property that depends on what they return says so in a hypothesis.

    Conventions.
    - A Python object of class [Probes] or [StatisticsProbes] lives in a
      store ([heap]) and is passed around by reference ([loc]).
    - One MPI process is a [world]: its store and its end of the
      communicator ([endpoint]).  The code of one process is a computation
      in the monad [M]; a group of processes is run by [Group.run].
    - A float is carried by its 64-bit pattern; the code only copies floats.
    - A numpy array is its shape and its elements in row-major order. *)

From Stdlib Require Import ZArith Lia.
From stdpp Require Import base tactics option list gmap strings pretty.

Local Open Scope Z_scope.
Local Open Scope nat_scope.

(** ** Exceptions and outcomes *)

Inductive exn :=
| AssertionError | AttributeError | IndexError | KeyError
| TypeError | ValueError | RuntimeError | StopIteration.

(** What running a piece of code can lead to: a value, an exception, a
    communication call that never completes, or a loop that used up the
    iteration budget given to the model. *)
Inductive outcome (A : Type) :=
| Ok (a : A)
| Raise (e : exn)
| Blocked
| OutOfFuel.
Arguments Ok {A} a.
Arguments Raise {A} e.
Arguments Blocked {A}.
Arguments OutOfFuel {A}.

(** ** numpy arrays *)

Definition float64 := Z.

Record ndarray := NDArray { shape : list nat; data : list float64 }.

Definition prod_list (l : list nat) : nat := foldr Nat.mul 1 l.

(** [numpy.zeros(shape)] *)
Definition zeros (sh : list nat) : ndarray :=
  NDArray sh (replicate (prod_list sh) 0%Z).

(** [numpy.squeeze(a)]: the axes of length one are dropped, the elements stay. *)
Definition squeeze (a : ndarray) : ndarray :=
  NDArray (filter (λ d, d ≠ 1) (shape a)) (data a).

(** An assignment to a part of an array is the list of the flat positions it
    writes, each with its value, applied from left to right. *)
Definition store_cells (ws : list (nat * float64)) (d : list float64) : list float64 :=
  foldl (λ d w, <[w.1 := w.2]> d) d ws.

(** [z[ids, k] = vals] for the two-dimensional [z] of the code.  An index out
    of range is an [IndexError], a value array of another length than [ids] a
    [ValueError]. *)
Definition setitem_ids_col (z : ndarray) (ids : list nat) (k : nat)
    (vals : list float64) : exn + list (nat * float64) :=
  match shape z with
  | [n; c] =>
      if negb (forallb (λ i, i <? n) ids) || negb (k <? c) then inl IndexError
      else if negb (length vals =? length ids) then inl ValueError
      else inr (zip (map (λ i, i * c + k) ids) vals)
  | _ => inl IndexError
  end.

(** [z[:, k] = vals] *)
Definition setitem_all_col (z : ndarray) (k : nat) (vals : list float64)
    : exn + list (nat * float64) :=
  setitem_ids_col z (seq 0 (hd 0 (shape z))) k vals.

(** [z[j, k, :] = vec] for the three-dimensional [z] of the code. *)
Definition setitem_cell (z : ndarray) (j k : nat) (vec : list float64)
    : exn + list (nat * float64) :=
  match shape z with
  | [n; c; e] =>
      if negb (j <? n) || negb (k <? c) then inl IndexError
      else if negb (length vec =? e) then inl ValueError
      else inr (zip (seq ((j * c + k) * e) e) vec)
  | _ => inl IndexError
  end.

(** [z[ids, :] = z0[:, :]]: row [l] of [z0] goes to row [ids[l]] of [z].  Both
    arrays have at least two axes, [z0] has one row per id and rows of the
    shape of those of [z]. *)
Definition setitem_ids_rows (z : ndarray) (ids : list nat) (z0 : ndarray)
    : exn + list (nat * float64) :=
  match shape z, shape z0 with
  | n :: c :: rest, n0 :: c0 :: rest0 =>
      if negb (forallb (λ i, i <? n) ids) then inl IndexError
      else if negb (bool_decide (n0 :: c0 :: rest0 = length ids :: c :: rest))
      then inl ValueError
      else let rs := prod_list (c :: rest) in
           inr (zip (flat_map (λ i, seq (i * rs) rs) ids) (data z0))
  | _, _ => inl IndexError
  end.

(** [data[j, c]] on a two-dimensional array. *)
Definition getitem2 (a : ndarray) (j c : nat) : exn + float64 :=
  match shape a with
  | [n; m] =>
      if (j <? n) && (c <? m) then
        match data a !! (j * m + c) with Some v => inr v | None => inl IndexError end
      else inl IndexError
  | _ => inl IndexError
  end.

(** [data.shape[0]] *)
Definition shape0 (a : ndarray) : exn + nat :=
  match shape a with
  | n :: _ => inr n
  | [] => inl IndexError
  end.

(** ** The compiled extension module

    The methods of the compiled classes that the Python code calls.  A method
    that takes an index may raise; [inl e] is the exception. *)

Record probe := Probe {
  get_probe_at_snapshot : Z → exn + list float64;
  get_probe_sub : nat → exn + list float64
}.

Record compiled := Compiled {
  value_size : nat;
  local_size : nat;
  number_of_evaluations : nat;
  get_total_number_probes : nat;
  get_probe_ids : list nat;
  get_probes_component_and_snapshot : nat → Z → exn + list float64;
  get_probe_id : Z → exn + nat;
  get_probe : Z → exn + probe
}.

(** ** Objects, processes and the monad of one process *)

Definition loc := nat.

(** An instance of [Probes] or [StatisticsProbes]: the compiled object it
    extends and the attribute [i] that [__iter__] creates. *)
Record pyobj := PyObj { cpp : compiled; attr_i : option Z }.

Definition set_i (x : option Z) (o : pyobj) : pyobj := PyObj (cpp o) x.

Inductive payload :=
| PIds (ids : list nat)
| PArr (a : ndarray).

Record message := Message { msg_source : nat; msg_tag : nat; msg_body : payload }.

Inductive event :=
| EvGather (n : nat) (root : nat)
| EvSend (dest : nat) (tag : nat) (body : payload)
| EvRecv (source : nat) (tag : nat)
| EvDump (path : string) (a : ndarray).

(** One process's end of [COMM_WORLD].
    - [gathered]: the values that all processes contribute to the gather of
      this call, when all of them join it;
    - [inbox]: the point-to-point messages addressed to this process;
    - [trace]: the communication and file operations done so far, oldest first;
    - [stores]: the assignments made so far to the array [z] of the running
      call, oldest first.  The code never reads it; it is the history that the
      coverage properties speak about. *)
Record endpoint := Endpoint {
  rank : nat;
  gathered : option (list nat);
  inbox : list message;
  trace : list event;
  stores : list (nat * float64)
}.

Record world := World { heap : gmap loc pyobj; ep : endpoint }.

(** Computations that only use the communicator, and computations of a
    process.  An exception leaves the state as it was when it was raised. *)
Definition C (A : Type) : Type := endpoint → outcome A * endpoint.
Definition M (A : Type) : Type := world → outcome A * world.

Definition outcome_bind {S A B} (m : S → outcome A * S)
    (f : A → S → outcome B * S) : S → outcome B * S :=
  λ s, match m s with
       | (Ok a, s') => f a s'
       | (Raise e, s') => (Raise e, s')
       | (Blocked, s') => (Blocked, s')
       | (OutOfFuel, s') => (OutOfFuel, s')
       end.

#[global] Instance C_ret : MRet C := λ A a e, (Ok a, e).
#[global] Instance C_bind : MBind C := λ A B f m, outcome_bind m f.
#[global] Instance M_ret : MRet M := λ A a w, (Ok a, w).
#[global] Instance M_bind : MBind M := λ A B f m, outcome_bind m f.

Definition lift {A} (c : C A) : M A :=
  λ w, let '(o, e) := c (ep w) in (o, World (heap w) e).

Definition raise {A} (e : exn) : M A := λ w, (Raise e, w).
Definition raiseC {A} (e : exn) : C A := λ s, (Raise e, s).

(** The result of a call into the compiled module. *)
Definition call {A} (r : exn + A) : M A :=
  match r with inl e => raise e | inr a => mret a end.
Definition callC {A} (r : exn + A) : C A :=
  match r with inl e => raiseC e | inr a => mret a end.

(** [try: m except: h] with a bare [except]: every exception is handled;
    a computation that does not come back is not. *)
Definition try_except {A} (m : M A) (h : M A) : M A :=
  λ w, match m w with
       | (Raise _, w') => h w'
       | r => r
       end.

(** The compiled part of the object [self] refers to. *)
Definition cpp_of (self : loc) : M compiled :=
  λ w, match heap w !! self with
       | Some o => (Ok (cpp o), w)
       | None => (Raise AttributeError, w)
       end.

(** [self.i] *)
Definition getattr_i (self : loc) : M Z :=
  λ w, match heap w !! self with
       | Some o => match attr_i o with
                   | Some i => (Ok i, w)
                   | None => (Raise AttributeError, w)
                   end
       | None => (Raise AttributeError, w)
       end.

(** [self.i = v] *)
Definition setattr_i (self : loc) (v : Z) : M unit :=
  λ w, match heap w !! self with
       | Some o => (Ok tt, World (<[self := set_i (Some v) o]> (heap w)) (ep w))
       | None => (Raise AttributeError, w)
       end.

(** *** The communicator *)

Definition Get_rank : C nat := λ e, (Ok (rank e), e).

Definition log (ev : event) : C unit :=
  λ e, (Ok tt, Endpoint (rank e) (gathered e) (inbox e) (trace e ++ [ev]) (stores e)).

(** [comm.gather(n, root=root)]: the list of all contributions on [root],
    [None] elsewhere; it completes only if all processes join. *)
Definition gather_result (root : nat) : C (option (list nat)) :=
  λ e, match gathered e with
       | None => (Blocked, e)
       | Some l => (Ok (if bool_decide (rank e = root) then Some l else None), e)
       end.

Definition gather (n : nat) (root : nat) : C (option (list nat)) :=
  log (EvGather n root);; gather_result root.

(** [comm.send(body, dest=dest, tag=tag)] *)
Definition send (body : payload) (dest tag : nat) : C unit :=
  log (EvSend dest tag body).

Fixpoint take_message (source tag : nat) (l : list message)
    : option (payload * list message) :=
  match l with
  | [] => None
  | m :: l' =>
      if bool_decide (msg_source m = source) && bool_decide (msg_tag m = tag)
      then Some (msg_body m, l')
      else match take_message source tag l' with
           | Some (b, r) => Some (b, m :: r)
           | None => None
           end
  end.

(** [comm.recv(source=source, tag=tag)]: the oldest pending message of that
    sender with that tag; the call waits for ever when there is none. *)
Definition deliver (source tag : nat) : C payload :=
  λ e, match take_message source tag (inbox e) with
       | Some (b, rest) =>
           (Ok b, Endpoint (rank e) (gathered e) rest (trace e) (stores e))
       | None => (Blocked, e)
       end.

Definition recv (source tag : nat) : C payload :=
  log (EvRecv source tag);; deliver source tag.

(** Carrying out an assignment to [z]. *)
Definition assign (z : ndarray) (r : exn + list (nat * float64)) : C ndarray :=
  match r with
  | inl e => raiseC e
  | inr ws =>
      λ e, (Ok (NDArray (shape z) (store_cells ws (data z))),
            Endpoint (rank e) (gathered e) (inbox e) (trace e) (stores e ++ ws))
  end.

(** [for x in l: acc = body(x, acc)] *)
Fixpoint for_each {S X} `{MRet S, MBind S} {A : Type} (l : list X) (acc : A)
    (body : X → A → S A) : S A :=
  match l with
  | [] => mret acc
  | x :: l' => acc' ← body x acc; for_each l' acc' body
  end.

(** [enumerate(l)], counting from [j]. *)
Fixpoint enumerate_from {X} (j : nat) (l : list X) : list (nat * X) :=
  match l with
  | [] => []
  | x :: l' => (j, x) :: enumerate_from (S j) l'
  end.

Definition enumerate {X} (l : list X) : list (nat * X) := enumerate_from 0 l.

(** [for i, x in enumerate(it): acc = body(i, x, acc)] over an object that is
    its own iterator: [next] is called until it raises [StopIteration]; any
    other exception leaves the loop.  The loop of the source has no bound of
    its own; [fuel] bounds the number of calls of [next]. *)
Fixpoint for_enumerate {X A} (fuel : nat) (next : M X) (i : nat) (acc : A)
    (body : nat → X → A → M A) : M A :=
  match fuel with
  | 0 => λ w, (OutOfFuel, w)
  | S fuel' =>
      λ w, match next w with
           | (Ok x, w') =>
               (acc' ← body i x acc; for_enumerate fuel' next (S i) acc' body) w'
           | (Raise StopIteration, w') => (Ok acc, w')
           | (Raise e, w') => (Raise e, w')
           | (Blocked, w') => (Blocked, w')
           | (OutOfFuel, w') => (OutOfFuel, w')
           end
  end.

(** Python's truth value of the argument [filename]. *)
Definition truthy (filename : option string) : bool :=
  match filename with
  | Some (String _ _) => true
  | _ => false
  end.

Definition filename_text (filename : option string) : string :=
  default EmptyString filename.

(** ** The blocks that [Probes.array] and [StatisticsProbes.array] share

    Lines 76-81 and 157-162 of the source are the same text, and so are lines
    92-102 and 165-175. *)

(** Lines 76-81 and 157-162: one column of [z] per component. *)
Definition retrieve_component_snapshot (c : compiled) (is_root : bool)
    (comp : nat) (N : Z) (z : ndarray) : C ndarray :=
  for_each (seq 0 comp) z (λ k z,
    if is_root then
      let ids := get_probe_ids c in
      vals ← callC (get_probes_component_and_snapshot c k N);
      assign z (setitem_ids_col z ids k vals)
    else
      vals ← callC (get_probes_component_and_snapshot c k N);
      assign z (setitem_all_col z k vals)).

(** Lines 94-98 and 167-171: the root takes the id list and the array of every
    other process, by rank. *)
Definition receive_all (recvfrom : list nat) (z : ndarray) : C ndarray :=
  for_each (enumerate recvfrom) z (λ jk z,
    r ← Get_rank;
    if bool_decide (r ≠ jk.1) then
      ids ← recv jk.1 101;
      z0 ← recv jk.1 102;
      match ids, z0 with
      | PIds ids, PArr z0 => assign z (setitem_ids_rows z ids z0)
      | _, _ => raiseC TypeError
      end
    else mret z).

(** Lines 92-102 and 165-175. *)
Definition collect_on_root (c : compiled) (is_root : bool) (root : nat)
    (z : ndarray) : C ndarray :=
  recvfrom ← gather (local_size c) root;
  if is_root then
    match recvfrom with
    | Some l => receive_all l z
    | None => raiseC TypeError
    end
  else
    let ids := get_probe_ids c in
    send (PIds ids) root 101;;
    send (PArr z) root 102;;
    mret z.

(** ** class Probes *)

Module Probes.

Definition __len__ (self : loc) : M nat :=
  c ← cpp_of self; mret (local_size c).

Definition __iter__ (self : loc) : M loc :=
  setattr_i self 0%Z;; mret self.

Definition __getitem__ (self : loc) (i : Z) : M (nat * probe) :=
  c ← cpp_of self;
  id ← call (get_probe_id c i);
  p ← call (get_probe c i);
  mret (id, p).

Definition next (self : loc) : M (nat * probe) :=
  p ← try_except (i ← getattr_i self; __getitem__ self i) (raise StopIteration);
  i ← getattr_i self;
  setattr_i self (i + 1)%Z;;
  mret p.

(** Lines 83-89.  This loop is in the branch where [N is None], so the test
    [if not N is None] of line 85 takes its [else] part. *)
Definition retrieve_all_snapshots (fuel : nat) (self : loc) (c : compiled)
    (is_root : bool) (z : ndarray) : M ndarray :=
  it ← __iter__ self;
  for_enumerate fuel (next it) 0 z (λ i ip z,
    let j := if is_root then ip.1 else i in
    for_each (seq 0 (value_size c)) z (λ k z,
      vec ← call (get_probe_sub ip.2 k);
      lift (assign z (setitem_cell z j k vec)))).

(** Lines 66-89: the array [z] of the values of this process. *)
Definition local_values (fuel : nat) (self : loc) (c : compiled)
    (is_root : bool) (N : option Z) (component : option Z) : M ndarray :=
  let size := if is_root then get_total_number_probes c else local_size c in
  let comp := match component with None => value_size c | Some _ => 1 end in
  let z := match N with
           | Some _ => zeros [size; comp]
           | None => zeros [size; comp; number_of_evaluations c]
           end in
  if 0 <? local_size c then
    match N with
    | Some n => lift (retrieve_component_snapshot c is_root comp n z)
    | None => retrieve_all_snapshots fuel self c is_root z
    end
  else mret z.

(** Lines 65-102: [is_root] and the array [z] when the communication is over. *)
Definition aggregate (fuel : nat) (self : loc) (N : option Z)
    (component : option Z) (root : nat) : M (bool * ndarray) :=
  r ← lift Get_rank;
  let is_root := bool_decide (r = root) in
  c ← cpp_of self;
  z ← local_values fuel self c is_root N component;
  z ← lift (collect_on_root c is_root root z);
  mret (is_root, z).

(** [Probes.array(N, filename, component, root)] *)
Definition array (fuel : nat) (self : loc) (N : option Z)
    (filename : option string) (component : option Z) (root : nat)
    : M (option ndarray) :=
  rz ← aggregate fuel self N component root;
  let is_root : bool := rz.1 in
  let z : ndarray := rz.2 in
  if is_root then
    (if truthy filename then
       match N with
       | Some n =>
           lift (log (EvDump (filename_text filename +:+ "_snapshot_"
                                +:+ pretty n +:+ ".probes") z))
       | None => lift (log (EvDump (filename_text filename +:+ "_all.probes") z))
       end
     else mret tt : M unit);;
    mret (Some (squeeze z))
  else mret None.

End Probes.

(** ** class StatisticsProbe *)

Module StatisticsProbe.

(** [StatisticsProbe.__getitem__(i)]; [self] is the compiled probe. *)
Definition __getitem__ (self : probe) (i : Z) : exn + list float64 :=
  if (i <? 2)%Z then get_probe_at_snapshot self i else inl AssertionError.

End StatisticsProbe.

(** ** class StatisticsProbes *)

Module StatisticsProbes.

Definition __len__ (self : loc) : M nat :=
  c ← cpp_of self; mret (local_size c).

Definition __iter__ (self : loc) : M loc :=
  setattr_i self 0%Z;; mret self.

Definition __getitem__ (self : loc) (i : Z) : M (nat * probe) :=
  c ← cpp_of self;
  id ← call (get_probe_id c i);
  p ← call (get_probe c i);
  mret (id, p).

Definition next (self : loc) : M (nat * probe) :=
  p ← try_except (i ← getattr_i self; __getitem__ self i) (raise StopIteration);
  i ← getattr_i self;
  setattr_i self (i + 1)%Z;;
  mret p.

(** Lines 151-162: the array [z] of the values of this process. *)
Definition local_values (c : compiled) (is_root : bool) (N : Z)
    (component : option Z) : M ndarray :=
  let size := if is_root then get_total_number_probes c else local_size c in
  let comp := match component with None => value_size c | Some _ => 1 end in
  let z := zeros [size; comp] in
  if 0 <? local_size c then
    lift (retrieve_component_snapshot c is_root comp N z)
  else mret z.

(** Lines 149-175: [is_root] and the array [z] when the communication is over. *)
Definition aggregate (self : loc) (N : Z) (component : option Z) (root : nat)
    : M (bool * ndarray) :=
  (if bool_decide (N = 0%Z) || bool_decide (N = 1%Z) then mret tt
   else raise AssertionError);;
  r ← lift Get_rank;
  let is_root := bool_decide (r = root) in
  c ← cpp_of self;
  z ← local_values c is_root N component;
  z ← lift (collect_on_root c is_root root z);
  mret (is_root, z).

(** [StatisticsProbes.array(N, filename, component, root)] *)
Definition array (self : loc) (N : Z) (filename : option string)
    (component : option Z) (root : nat) : M (option ndarray) :=
  rz ← aggregate self N component root;
  let is_root : bool := rz.1 in
  let z : ndarray := rz.2 in
  if is_root then
    (if truthy filename then
       lift (log (EvDump (filename_text filename +:+ "_statistics.probes") z))
     else mret tt : M unit);;
    mret (Some (squeeze z))
  else mret None.

End StatisticsProbes.

(** ** The aggregation step, for either class *)

Inductive aggregation :=
| ProbesArray (fuel : nat) (N : option Z) (component : option Z)
| StatisticsArray (N : Z) (component : option Z).

Definition aggregate (a : aggregation) (root : nat) (self : loc)
    : M (bool * ndarray) :=
  match a with
  | ProbesArray fuel N component => Probes.aggregate fuel self N component root
  | StatisticsArray N component => StatisticsProbes.aggregate self N component root
  end.

Definition array (a : aggregation) (filename : option string) (root : nat)
    (self : loc) : M (option ndarray) :=
  match a with
  | ProbesArray fuel N component => Probes.array fuel self N filename component root
  | StatisticsArray N component => StatisticsProbes.array self N filename component root
  end.

(** ** A group of processes

    All processes of the communicator call the same method with the same
    arguments, each on its own collection.  The blocking calls order them:
    every process runs up to the gather; the gather completes when all of them
    have joined it; the other processes then send to the root and the root
    receives what they sent. *)

Module Group.

Record process := Process { p_heap : gmap loc pyobj; p_self : loc }.

Definition start (g : option (list nat)) (inb : list message) (r : nat)
    (p : process) : world :=
  World (p_heap p) (Endpoint r g inb [] []).

(** The contribution of a process to the gather, if it joined it. *)
Fixpoint gather_of (t : list event) : option nat :=
  match t with
  | [] => None
  | EvGather n _ :: _ => Some n
  | _ :: t' => gather_of t'
  end.

(** The messages a process with rank [src] sent to [dest], oldest first. *)
Fixpoint sends_to (dest src : nat) (t : list event) : list message :=
  match t with
  | [] => []
  | EvSend d tag b :: t' =>
      if bool_decide (d = dest) then Message src tag b :: sends_to dest src t'
      else sends_to dest src t'
  | _ :: t' => sends_to dest src t'
  end.

Section Run.
Context {R : Type} (method : loc → M R) (root : nat).

Definition round (g : option (list nat)) (inb : nat → list message)
    (ps : list process) : list (outcome R * world) :=
  map (λ rp, method (p_self rp.2) (start g (inb rp.1) rp.1 rp.2)) (enumerate ps).

Definition counts (ps : list process) : option (list nat) :=
  mapM (λ ow : outcome R * world, gather_of (trace (ep ow.2)))
       (round None (λ _, []) ps).

Definition mail (ps : list process) : list message :=
  flat_map (λ row : nat * (outcome R * world),
              if bool_decide (row.1 = root) then []
              else sends_to root row.1 (trace (ep row.2.2)))
           (enumerate (round (counts ps) (λ _, []) ps)).

Definition run (ps : list process) : list (outcome R * world) :=
  round (counts ps)
        (λ r, if bool_decide (r = root) then mail ps else []) ps.
End Run.

End Group.

(** ** Interpolation on a non-matching mesh *)

(** A function space as the code looks at it: the values of the map returned
    by [dofmap().collapse(mesh)] (element 1 of the pair, the dofs of the space
    in the numbering of the enclosing space) and the sub-spaces in the order
    [extract_sub_space] numbers them. *)
#[warnings="-register-all"] Inductive space :=
  Space (collapse_values : list nat) (subs : list space).

Definition collapse_values (V : space) : list nat :=
  match V with Space vals _ => vals end.
Definition sub_spaces (V : space) : list space :=
  match V with Space _ subs => subs end.
Definition num_sub_spaces (V : space) : nat := length (sub_spaces V).

(** [comp[0] += 1] on the array [array([-1], 'I')] of one unsigned 32-bit
    integer: the sum wraps around. *)
Definition uint32_incr (c : Z) : Z := ((c + 1) mod 2 ^ 32)%Z.

(** [array([-1], 'I')[0]] *)
Definition uint32_minus_one : Z := (2 ^ 32 - 1)%Z.

(** Lines 192-203.  The dictionary and the counter are shared by all calls;
    the pair is their state before and after the call. *)
Fixpoint extract_dof_component_map (VV : space) (st : gmap nat Z * Z)
    : gmap nat Z * Z :=
  match VV with
  | Space vals [] =>
      let comp := uint32_incr st.2 in
      (foldl (λ m val, <[val := comp]> m) st.1 vals, comp)
  | Space _ subs =>
      foldl (λ st Vs, extract_dof_component_map Vs st) st subs
  end.

(** Lines 206-208. *)
Definition dof_component_map (V : space) : gmap nat Z :=
  (extract_dof_component_map V (∅, uint32_minus_one)).1.

(** Modelled from the spec: [u.vector().set_local(a)], the setter of the
    local dof vector of the field-space capability, whose class is not part
    of the source.  The local values are replaced by those of a
    one-dimensional array of the local size; any other array is refused. *)
Definition set_local (u : list float64) (a : ndarray) : exn + list float64 :=
  match shape a with
  | [n] => if (n =? length u) && (length (data a) =? n) then inr (data a)
           else inl RuntimeError
  | _ => inl TypeError
  end.

(** [dd[j] = v] *)
Definition setitem1 (dd : list float64) (j : nat) (v : float64)
    : exn + list float64 :=
  if j <? length dd then inr (<[j := v]> dd) else inl IndexError.

(** Lines 225-227. *)
Fixpoint remap_rows (dcm : gmap nat Z) (owner_range0 : nat) (data : ndarray)
    (js : list nat) (dd : list float64) : exn + list float64 :=
  match js with
  | [] => inr dd
  | j :: js' =>
      let dof := j + owner_range0 in
      match dcm !! dof with
      | None => inl KeyError
      | Some c =>
          match getitem2 data j (Z.to_nat c) with
          | inl e => inl e
          | inr v =>
              match setitem1 dd j v with
              | inl e => inl e
              | inr dd' => remap_rows dcm owner_range0 data js' dd'
              end
          end
      end
  end.

(** Lines 222-228: what the process that keeps the data does with it.  The
    state is the work array [dd] and the local values of [u]. *)
Definition keep_data (V : space) (dcm : gmap nat Z) (owner_range0 : nat)
    (data : option ndarray) (st : list float64 * list float64)
    : exn + (list float64 * list float64) :=
  if num_sub_spaces V <? 1 then
    match data with
    | None => inl TypeError
    | Some a =>
        match set_local st.2 (squeeze a) with
        | inl e => inl e
        | inr u => inr (st.1, u)
        end
    end
  else
    match data with
    | None => inl AttributeError
    | Some a =>
        match shape0 a with
        | inl e => inl e
        | inr n =>
            match remap_rows dcm owner_range0 a (seq 0 n) st.1 with
            | inl e => inl e
            | inr dd =>
                match set_local st.2 (NDArray [length dd] dd) with
                | inl e => inl e
                | inr u => inr (dd, u)
                end
            end
        end
    end.

Section Interpolate.
(** Lines 215-220 for the round of rank [i]: the broadcast of the points,
    the construction and the evaluation of the probes and the call
    [probes.array(N=0, root=i)], whose result is returned. *)
Context (probe_round : nat → M (option ndarray)).
Context (V : space) (owner_range0 : nat).

(** Lines 214-228, one iteration of the loop. *)
Definition interpolate_round (dcm : gmap nat Z) (i : nat)
    (st : list float64 * list float64) : M (list float64 * list float64) :=
  data ← probe_round i;
  r ← lift Get_rank;
  if bool_decide (i = r) then call (keep_data V dcm owner_range0 data st)
  else mret st.

(** [interpolate_nonmatching_mesh_python(u0, V)], the local values of the
    result; [local_size] is that of [u.vector()]. *)
Definition interpolate_nonmatching_mesh_python (local_size num_processes : nat)
    : M (list float64) :=
  let dcm := dof_component_map V in
  let dd := replicate local_size 0%Z in
  let u := replicate local_size 0%Z in
  st ← for_each (seq 0 num_processes) (dd, u) (interpolate_round dcm);
  mret st.2.
End Interpolate.

(** ** Collecting the C++ declarations: [strip_essential_code]

    The module reads each header and keeps the text from the first
    occurrence of the opening of namespace dolfin up to the first
    occurrence of [#endif].  Texts are lists of characters.  [str.find]
    answers -1 when the text does not occur, and a slice takes a negative
    bound from the end of the text, as Python does. *)

Definition text := list Ascii.ascii.

Fixpoint startswith (s sub : text) : bool :=
  match sub, s with
  | [], _ => true
  | _ :: _, [] => false
  | a :: sub', b :: s' => if Ascii.eqb a b then startswith s' sub' else false
  end.

Fixpoint find_from (i : nat) (s sub : text) : Z :=
  if startswith s sub then Z.of_nat i
  else match s with
       | [] => (-1)%Z
       | _ :: s' => find_from (S i) s' sub
       end.

(** [s.find(sub)] *)
Definition find (s sub : text) : Z := find_from 0 s sub.

(** The position a slice bound stands for in a text of [len] characters. *)
Definition slice_bound (len : nat) (i : Z) : nat :=
  if (i <? 0)%Z then Z.to_nat (Z.max 0 (i + Z.of_nat len))
  else Nat.min (Z.to_nat i) len.

(** [s[a:b]] *)
Definition slice (s : text) (a b : Z) : text :=
  let lo := slice_bound (length s) a in
  let hi := slice_bound (length s) b in
  take (hi - lo) (drop lo s).

Definition newline : Ascii.ascii := Eval cbv in Ascii.ascii_of_nat 10.

Definition namespace_dolfin : text :=
  String.list_ascii_of_string "namespace dolfin" ++ [newline]
  ++ String.list_ascii_of_string "{" ++ [newline].

Definition endif : text := String.list_ascii_of_string "#endif".

(** [f[f.find("namespace dolfin\n{\n"):f.find("#endif")]] *)
Definition essential_code (f : text) : text :=
  slice f (find f namespace_dolfin) (find f endif).

(** [open(name, 'r')] fails on a name that the file system does not hold. *)
Inductive io_error := IOError (name : string).

Definition read (files : gmap string text) (name : string) : io_error + text :=
  match files !! name with
  | Some f => inr f
  | None => inl (IOError name)
  end.

Fixpoint strip_loop (files : gmap string text) (filenames : list string)
    (code : text) : io_error + text :=
  match filenames with
  | [] => inr code
  | name :: rest =>
      match read files name with
      | inl e => inl e
      | inr f => strip_loop files rest (code ++ essential_code f)
      end
  end.

Definition strip_essential_code (files : gmap string text)
    (filenames : list string) : io_error + text :=
  strip_loop files filenames [].


(** ** Concrete collections for the examples *)

Module Sample.

Definition a_probe (sub : list (list float64)) : probe :=
  Probe (λ N, inl RuntimeError)
        (λ k, match sub !! k with Some v => inr v | None => inl RuntimeError end).

(** A collection given by the ids of its probes and, for each probe, its
    history by component ([hist !! l !! k] is the history of component [k] of
    the probe with local index [l]). *)
Definition collection (total vs ne : nat) (ids : list nat)
    (hist : list (list (list float64))) : compiled :=
  Compiled vs (length ids) ne total ids
    (λ k N, if (0 <=? N)%Z && (Z.to_nat N <? ne) then
              inr (map (λ h, default 0%Z (h !! k ≫= (.!! Z.to_nat N))) hist)
            else inl RuntimeError)
    (λ i, if (0 <=? i)%Z then
            match ids !! Z.to_nat i with Some x => inr x | None => inl RuntimeError end
          else inl RuntimeError)
    (λ i, if (0 <=? i)%Z then
            match hist !! Z.to_nat i with
            | Some h => inr (a_probe h)
            | None => inl RuntimeError
            end
          else inl RuntimeError).

Definition proc (c : compiled) : Group.process :=
  Group.Process {[ 7 := PyObj c None ]} 7.

(** Four probes with two components and two evaluations on three processes:
    ids 1 and 3 on rank 0, none on rank 1, ids 2 and 0 on rank 2. *)
Definition p0 := proc (collection 4 2 2 [1; 3]
  [[[10; 11]; [12; 13]]; [[30; 31]; [32; 33]]]%Z).
Definition p1 := proc (collection 4 2 2 [] []).
Definition p2 := proc (collection 4 2 2 [2; 0]
  [[[20; 21]; [22; 23]]; [[40; 41]; [42; 43]]]%Z).

Definition group := [p0; p1; p2].

Definition collections : list compiled := [
  collection 4 2 2 [1; 3] [[[10; 11]; [12; 13]]; [[30; 31]; [32; 33]]]%Z;
  collection 4 2 2 [] [];
  collection 4 2 2 [2; 0] [[[20; 21]; [22; 23]]; [[40; 41]; [42; 43]]]%Z ].

(** A collection of two probes whose compiled module fails on the probe of
    index 0 with an error of its own. *)
Definition faulty : compiled :=
  Compiled 1 2 0 2 [0; 1] (λ _ _, inl RuntimeError)
    (λ i, inr (Z.to_nat i)) (λ _, inl ValueError).

(** A space of a scalar field and a vector field with two components, with
    eight dofs, and the world and the data of a process of rank 1 that owns
    the dofs 2, 3 and 4 of it. *)
Definition mixed : space :=
  Space [] [Space [0; 3; 6] []; Space [] [Space [1; 4; 7] []; Space [2; 5] []]].

Definition rank1 : world := World ∅ (Endpoint 1 None [] [] []).

Definition returned : ndarray :=
  NDArray [3; 3] [100; 101; 102; 110; 111; 112; 120; 121; 122]%Z.

End Sample.

(** * Vocabulary of the properties *)

(** ** Iteration *)

(** [self[self.i]], the expression that [next] evaluates under [try]. *)
Definition element_at_cursor (self : loc) : M (nat * probe) :=
  i ← getattr_i self; Probes.__getitem__ self i.

(** What [self[self.i]] evaluates to; the state is left as it is. *)
Definition element_value (self : loc) (w : world) : outcome (nat * probe) :=
  match heap w !! self with
  | Some o =>
      match attr_i o with
      | Some i =>
          match get_probe_id (cpp o) i with
          | inl e => Raise e
          | inr id =>
              match get_probe (cpp o) i with
              | inl e => Raise e
              | inr p => Ok (id, p)
              end
          end
      | None => Raise AttributeError
      end
  | None => Raise AttributeError
  end.

(** ** The map from dofs to components *)

(** The spaces without sub-spaces that the traversal reaches, each by the
    values of its collapsed map, in the order of declaration. *)
Fixpoint leaves (V : space) : list (list nat) :=
  match V with
  | Space vals [] => [vals]
  | Space _ subs => flat_map leaves subs
  end.

(** What the traversal does at one leaf. *)
Definition leaf_step (st : gmap nat Z * Z) (vals : list nat) : gmap nat Z * Z :=
  (foldl (λ m val, <[val := uint32_incr st.2]> m) st.1 vals, uint32_incr st.2).

(** ** Aggregation *)

Definition snapshot_of (a : aggregation) : option Z :=
  match a with
  | ProbesArray _ N _ => N
  | StatisticsArray N _ => Some N
  end.

Definition component_of (a : aggregation) : option Z :=
  match a with
  | ProbesArray _ _ component => component
  | StatisticsArray _ component => component
  end.

(** The number of value columns of [z]. *)
Definition comp_of (a : aggregation) (c : compiled) : nat :=
  match component_of a with None => value_size c | Some _ => 1 end.

(** The shape and the number of elements of one row of [z]. *)
Definition row_shape (a : aggregation) (c : compiled) : list nat :=
  match snapshot_of a with
  | Some _ => [comp_of a c]
  | None => [comp_of a c; number_of_evaluations c]
  end.

Definition row_size (a : aggregation) (c : compiled) : nat :=
  prod_list (row_shape a c).

(** The rows of [z] that a process fills with its own values, by local index,
    and the number of rows of its [z]. *)
Definition rows_of (is_root : bool) (c : compiled) : list nat :=
  if is_root then get_probe_ids c else seq 0 (local_size c).

Definition size_of (is_root : bool) (c : compiled) : nat :=
  if is_root then get_total_number_probes c else local_size c.

(** The values of a component at a snapshot and the history of a component
    of a probe, as the compiled module returns them. *)
Definition column (c : compiled) (k : nat) (n : Z) : list float64 :=
  match get_probes_component_and_snapshot c k n with inr v => v | inl _ => [] end.

Definition sub_history (p : probe) (k : nat) : list float64 :=
  match get_probe_sub p k with inr v => v | inl _ => [] end.

Definition history (c : compiled) (i k : nat) : list float64 :=
  match get_probe c (Z.of_nat i) with
  | inr p => sub_history p k
  | inl _ => []
  end.

(** The assignments a process makes to [z] from its own values. *)
Definition local_stores (a : aggregation) (is_root : bool) (c : compiled)
    : list (nat * float64) :=
  match snapshot_of a with
  | Some n =>
      flat_map (λ k, zip (map (λ i, i * comp_of a c + k) (rows_of is_root c))
                         (column c k n))
               (seq 0 (comp_of a c))
  | None =>
      flat_map (λ ij : nat * nat,
                  flat_map (λ k, zip (seq ((ij.2 * comp_of a c + k)
                                           * number_of_evaluations c)
                                          (number_of_evaluations c))
                                     (history c ij.1 k))
                           (seq 0 (value_size c)))
               (enumerate (rows_of is_root c))
  end.

(** Lines 66-89 or 151-162, by the class. *)
Definition local_values (a : aggregation) (self : loc) (c : compiled)
    (is_root : bool) : M ndarray :=
  match a with
  | ProbesArray fuel N component =>
      Probes.local_values fuel self c is_root N component
  | StatisticsArray N component =>
      StatisticsProbes.local_values c is_root N component
  end.

(** The array [z] of a process before the communication. *)
Definition local_buffer (a : aggregation) (is_root : bool) (c : compiled)
    : ndarray :=
  let sh := size_of is_root c :: row_shape a c in
  NDArray sh (store_cells (local_stores a is_root c) (data (zeros sh))).

(** An endpoint after more assignments to [z], and after more events. *)
Definition with_stores (e : endpoint) (ws : list (nat * float64)) : endpoint :=
  Endpoint (rank e) (gathered e) (inbox e) (trace e) (stores e ++ ws).

Definition with_trace (e : endpoint) (evs : list event) : endpoint :=
  Endpoint (rank e) (gathered e) (inbox e) (trace e ++ evs) (stores e).

Definition with_inbox (e : endpoint) (inb : list message) : endpoint :=
  Endpoint (rank e) (gathered e) inb (trace e) (stores e).

(** The store of a process after lines 66-89: the iteration over all
    snapshots leaves the cursor of [self], an object [o], behind the last
    probe. *)
Definition local_heap (a : aggregation) (self : loc) (o : pyobj)
    (h : gmap loc pyobj) : gmap loc pyobj :=
  match snapshot_of a with
  | Some _ => h
  | None =>
      if 0 <? local_size (cpp o)
      then <[self := PyObj (cpp o) (Some (Z.of_nat (local_size (cpp o))))]> h
      else h
  end.

Definition outcome_map {A B} (f : A → B) (o : outcome A) : outcome B :=
  match o with
  | Ok a => Ok (f a)
  | Raise e => Raise e
  | Blocked => Blocked
  | OutOfFuel => OutOfFuel
  end.

(** The flat positions of the row [i] of an array with rows of [rs] elements. *)
Definition row_cells (rs : nat) (i : nat) : list nat := seq (i * rs) rs.

(** What the processes of rank [j0], [j0+1], ... contribute to the process
    of rank [r], given the id list and the array of each: the messages in its
    inbox, the events of their reception and the assignments to the rows of
    its [z]. *)
Definition mail_from (r j0 : nat) (cs : list (list nat * ndarray))
    : list message :=
  flat_map (λ jc : nat * (list nat * ndarray),
              if bool_decide (jc.1 = r) then []
              else [Message jc.1 101 (PIds jc.2.1); Message jc.1 102 (PArr jc.2.2)])
           (enumerate_from j0 cs).

Definition recv_events (r j0 n : nat) : list event :=
  flat_map (λ j, if bool_decide (j = r) then [] else [EvRecv j 101; EvRecv j 102])
           (seq j0 n).

Definition scatter_stores (rs r j0 : nat) (cs : list (list nat * ndarray))
    : list (nat * float64) :=
  flat_map (λ jc : nat * (list nat * ndarray),
              if bool_decide (jc.1 = r) then []
              else zip (flat_map (row_cells rs) jc.2.1) (data jc.2.2))
           (enumerate_from j0 cs).

(** The elements of the row [i]. *)
Definition row (rs : nat) (i : nat) (d : list float64) : list float64 :=
  take rs (drop (i * rs) d).

(** What a process other than the root sends: its id list and its array. *)
Definition contribution (a : aggregation) (c : compiled) : list nat * ndarray :=
  (get_probe_ids c, local_buffer a false c).

(** The assignments that the root, whose collection is [c], makes to its [z]
    when the collections of the group are [cs], and the [z] it ends with. *)
Definition root_stores (a : aggregation) (root : nat) (cs : list compiled)
    (c : compiled) : list (nat * float64) :=
  local_stores a true c
  ++ scatter_stores (row_size a c) root 0 (map (contribution a) cs).

Definition root_buffer (a : aggregation) (root : nat) (cs : list compiled)
    (c : compiled) : ndarray :=
  let sh := get_total_number_probes c :: row_shape a c in
  NDArray sh (store_cells (root_stores a root cs c) (data (zeros sh))).

(** The collection a process calls the method on. *)
Definition collection_of (p : Group.process) : option compiled :=
  cpp <$> Group.p_heap p !! Group.p_self p.

(** The compiled collection answers the calls that the aggregation [a] makes
    as a collection of [local_size] probes does: the list of ids and the
    value arrays have one entry per local probe, a slot index of the
    statistics class is 0 or 1, and for the iteration over all snapshots the
    probes of index below [local_size] are there with their id and their
    histories of [number_of_evaluations] values, the probe of index
    [local_size] is not, and the budget of the loop is enough. *)
Definition answers (a : aggregation) (c : compiled) : Prop :=
  length (get_probe_ids c) = local_size c
  ∧ match a with
    | ProbesArray _ (Some n) _ =>
        ∀ k, k < comp_of a c →
          ∃ v, get_probes_component_and_snapshot c k n = inr v
               ∧ length v = local_size c
    | StatisticsArray n _ =>
        (n = 0%Z ∨ n = 1%Z)
        ∧ ∀ k, k < comp_of a c →
            ∃ v, get_probes_component_and_snapshot c k n = inr v
                 ∧ length v = local_size c
    | ProbesArray fuel None component =>
        local_size c < fuel
        ∧ (component = None ∨ value_size c = 1)
        ∧ (∀ i, i < local_size c →
             get_probe_id c (Z.of_nat i) = inr (get_probe_ids c !!! i)
             ∧ ∃ p, get_probe c (Z.of_nat i) = inr p
                    ∧ ∀ k, k < value_size c →
                        ∃ v, get_probe_sub p k = inr v
                             ∧ length v = number_of_evaluations c)
        ∧ ((∃ e, get_probe_id c (Z.of_nat (local_size c)) = inl e)
           ∨ (∃ e, get_probe c (Z.of_nat (local_size c)) = inl e))
    end.

(** A group in which [total] probes with the ids [0 .. total-1] are
    distributed.  [cs] lists the collections of the processes by rank:
    every process calls the method on its collection, which answers as above;
    [root] is a rank of the group and its collection knows the total; the
    rows of all processes have the shape of those of the root (the field has
    the same number of components and has been evaluated as often
    everywhere); and the id lists of the processes together hold every id
    once. *)
Definition distributed (a : aggregation) (root : nat) (ps : list Group.process)
    (cs : list compiled) (total : nat) : Prop :=
  Forall2 (λ p c, collection_of p = Some c) ps cs
  ∧ Forall (answers a) cs
  ∧ (∃ c, cs !! root = Some c ∧ get_total_number_probes c = total
          ∧ Forall (λ c', row_shape a c' = row_shape a c) cs)
  ∧ flat_map get_probe_ids cs ≡ₚ seq 0 total.

(** Two stores that differ at most in the attribute [i] of the object
    [self]: all other objects are the same and [self] has the same compiled
    part, probes and values included. *)
Definition same_up_to_cursor (self : loc) (h1 h2 : gmap loc pyobj) : Prop :=
  (∀ l, l ≠ self → h1 !! l = h2 !! l) ∧ cpp <$> h1 !! self = cpp <$> h2 !! self.

(** A computation that changes at most the cursor of [self]; one that leaves
    the store alone; and one whose result and communication do not depend on
    the cursor of [self]. *)
Definition moves_cursor_only (self : loc) {A} (m : M A) : Prop :=
  ∀ w, same_up_to_cursor self (heap w) (heap (m w).2).

Definition keeps_heap {A} (m : M A) : Prop :=
  ∀ w, heap (m w).2 = heap w.

Definition cursor_blind (self : loc) {A} (m : M A) : Prop :=
  ∀ w1 w2, ep w1 = ep w2 → same_up_to_cursor self (heap w1) (heap w2) →
    (m w1).1 = (m w2).1 ∧ ep (m w1).2 = ep (m w2).2
    ∧ same_up_to_cursor self (heap (m w1).2) (heap (m w2).2).

(** The path of the file that the root writes, and lines 104-110 and 177-180
    applied to what lines 65-102 and 149-175 ended with. *)
Definition dump_path (a : aggregation) (filename : option string) : string :=
  match a with
  | ProbesArray _ (Some n) _ =>
      filename_text filename +:+ "_snapshot_" +:+ pretty n +:+ ".probes"
  | ProbesArray _ None _ => filename_text filename +:+ "_all.probes"
  | StatisticsArray _ _ => filename_text filename +:+ "_statistics.probes"
  end.

Definition finish (a : aggregation) (filename : option string)
    (r : outcome (bool * ndarray) * world) : outcome (option ndarray) * world :=
  match r with
  | (Ok (true, z), w) =>
      (Ok (Some (squeeze z)),
       if truthy filename
       then World (heap w) (with_trace (ep w) [EvDump (dump_path a filename) z])
       else w)
  | (Ok (false, _), w) => (Ok None, w)
  | (Raise e, w) => (Raise e, w)
  | (Blocked, w) => (Blocked, w)
  | (OutOfFuel, w) => (OutOfFuel, w)
  end.

(** Two processes with the same collection up to its cursor. *)
Definition alike (p p' : Group.process) : Prop :=
  Group.p_self p' = Group.p_self p
  ∧ same_up_to_cursor (Group.p_self p) (Group.p_heap p) (Group.p_heap p').

(** What a process shows of a run: the outcome and its end of the
    communicator. *)
Definition view {R} (ow : outcome R * world) : outcome R * endpoint :=
  (ow.1, ep ow.2).

(** The processes of a group with the stores that a run has left. *)
Definition after_run {R} (ps : list Group.process)
    (rs : list (outcome R * world)) : list Group.process :=
  zip_with (λ p (ow : outcome R * world),
              Group.Process (heap ow.2) (Group.p_self p)) ps rs.

(** The ranks other than [root] in a group of [n] processes, in increasing
    order. *)
Definition other_ranks (root n : nat) : list nat :=
  filter (λ j, j ≠ root) (seq 0 n).

(** ** Texts *)

(** [sub] occurs in [s] at position [j]. *)
Definition occurs_at (s sub : text) (j : nat) : Prop :=
  take (length sub) (drop j s) = sub.

(** A header with an include guard around the namespace, one that lacks
    the closing [#endif], and one that declares nothing in the
    namespace. *)
Module Headers.

Definition guarded : text :=
  String.list_ascii_of_string "#ifndef PROBE_H" ++ [newline]
  ++ namespace_dolfin
  ++ String.list_ascii_of_string "class Probe;" ++ [newline]
  ++ String.list_ascii_of_string "}" ++ [newline]
  ++ String.list_ascii_of_string "#endif" ++ [newline].

Definition unguarded : text :=
  namespace_dolfin
  ++ String.list_ascii_of_string "class Probes;" ++ [newline]
  ++ String.list_ascii_of_string "}" ++ [newline].

Definition plain : text :=
  String.list_ascii_of_string "#ifndef X" ++ [newline]
  ++ String.list_ascii_of_string "#endif" ++ [newline].

Definition files : gmap string text :=
  <[ "Probe.h" := guarded ]> (<[ "Probes.h" := unguarded ]> ∅).

End Headers.


(** ** A loop over a collection *)

(** [list(enumerate(self))] *)
Definition enumerate_self (fuel : nat) (self : loc)
    : M (list (nat * (nat * probe))) :=
  it ← Probes.__iter__ self;
  for_enumerate fuel (Probes.next it) 0 [] (λ i x acc, mret (acc ++ [(i, x)])).

(** The element of index [i] of a collection, if the compiled module gives
    its id and its probe, and the elements of the indices [i0 .. i0+n-1]. *)
Definition item (c : compiled) (i : nat) : option (nat * probe) :=
  match get_probe_id c (Z.of_nat i), get_probe c (Z.of_nat i) with
  | inr id, inr p => Some (id, p)
  | _, _ => None
  end.

Definition items (c : compiled) (i0 n : nat) : list (nat * probe) :=
  omap (item c) (seq i0 n).


(** Collections for the instances: one whose compiled module has lost the
    probe of index 1 of two, and the processes of a field with two
    components of which each of two processes holds one probe. *)
Module Cases.

Definition truncated : compiled :=
  Sample.collection 2 1 1 [0; 1] [[[5%Z]]].

Definition at_7 (c : compiled) : world :=
  World {[ 7 := PyObj c None ]} (Endpoint 0 None [] [] []).

End Cases.


(** ** What the local part of a call leaves alone *)

(** Two states of an endpoint with the same rank, the same pending gather
    and messages and the same trace: nothing was communicated and no file
    was written between them. *)
Definition same_comm (e e' : endpoint) : Prop :=
  rank e' = rank e ∧ gathered e' = gathered e
  ∧ inbox e' = inbox e ∧ trace e' = trace e.

Definition quiet {A} (m : M A) : Prop := ∀ w, same_comm (ep w) (ep (m w).2).

Definition quietC {A} (m : C A) : Prop := ∀ e, same_comm e (m e).2.


(** ** What a call writes and returns *)

(** The files written according to a trace, oldest first. *)
Definition dumps (t : list event) : list (string * ndarray) :=
  omap (λ ev, match ev with EvDump path z => Some (path, z) | _ => None end) t.

(** [z[j, k, e]] on a three-dimensional array. *)
Definition getitem3 (z : ndarray) (j k e : nat) : exn + float64 :=
  match shape z with
  | [n; c; ne] =>
      if (j <? n) && (k <? c) && (e <? ne) then
        match data z !! ((j * c + k) * ne + e) with
        | Some v => inr v
        | None => inl IndexError
        end
      else inl IndexError
  | _ => inl IndexError
  end.


(** ** The histories that a loop over a collection stores *)

(** The row of [z] that lines 84-89 fill for the element [ix] of the loop,
    an index with the id and the probe, and the assignments of the loop
    for the elements [xs]. *)
Definition row_of_element (is_root : bool) (ix : nat * (nat * probe)) : nat :=
  if is_root then ix.2.1 else ix.1.

Definition history_stores (is_root : bool) (comp vs ne : nat)
    (xs : list (nat * (nat * probe))) : list (nat * float64) :=
  flat_map (λ ix,
    flat_map (λ k, zip (seq ((row_of_element is_root ix * comp + k) * ne) ne)
                       (sub_history ix.2.2 k))
             (seq 0 vs)) xs.

(** The element has its row in an array of [size] rows and a history of
    [ne] values for each of [vs] components. *)
Definition fits (is_root : bool) (size vs ne : nat)
    (ix : nat * (nat * probe)) : Prop :=
  row_of_element is_root ix < size
  ∧ ∀ k, k < vs → ∃ v, get_probe_sub ix.2.2 k = inr v ∧ length v = ne.


(** * Properties *)

(** ** Running computations *)

Lemma run_bind {A B} (m : M A) (f : A → M B) (w : world) :
  (m ≫= f) w = match m w with
               | (Ok a, w') => f a w'
               | (Raise e, w') => (Raise e, w')
               | (Blocked, w') => (Blocked, w')
               | (OutOfFuel, w') => (OutOfFuel, w')
               end.
Proof. reflexivity. Qed.

Lemma run_bindC {A B} (m : C A) (f : A → C B) (e : endpoint) :
  (m ≫= f) e = match m e with
               | (Ok a, e') => f a e'
               | (Raise x, e') => (Raise x, e')
               | (Blocked, e') => (Blocked, e')
               | (OutOfFuel, e') => (OutOfFuel, e')
               end.
Proof. reflexivity. Qed.

Lemma run_bind_ok {A B} (m : M A) (f : A → M B) w a w' :
  m w = (Ok a, w') → (m ≫= f) w = f a w'.
Proof. intros E. rewrite run_bind, E. reflexivity. Qed.

Lemma run_bindC_ok {A B} (m : C A) (f : A → C B) e a e' :
  m e = (Ok a, e') → (m ≫= f) e = f a e'.
Proof. intros E. rewrite run_bindC, E. reflexivity. Qed.

Lemma run_lift {A} (c : C A) w :
  lift c w = ((c (ep w)).1, World (heap w) (c (ep w)).2).
Proof. unfold lift. destruct (c (ep w)); reflexivity. Qed.

Lemma for_each_consC {X A} (x : X) (l : list X) (acc : A) (body : X → A → C A)
    (e : endpoint) :
  for_each (x :: l) acc body e
  = ((body x acc : C A) ≫= λ acc', for_each l acc' body) e.
Proof. reflexivity. Qed.

Lemma for_each_consM {X A} (x : X) (l : list X) (acc : A) (body : X → A → M A)
    (w : world) :
  for_each (x :: l) acc body w
  = ((body x acc : M A) ≫= λ acc', for_each l acc' body) w.
Proof. reflexivity. Qed.

Lemma for_enumerate_stop {X A} (fuel : nat) (next : M X) (i : nat) (acc : A)
    (body : nat → X → A → M A) (w w' : world) :
  next w = (Raise StopIteration, w') →
  for_enumerate (S fuel) next i acc body w = (Ok acc, w').
Proof. intros E. simpl. by rewrite E. Qed.

Lemma for_enumerate_step {X A} (fuel : nat) (next : M X) (i : nat) (acc : A)
    (body : nat → X → A → M A) (w w' : world) (x : X) :
  next w = (Ok x, w') →
  for_enumerate (S fuel) next i acc body w
  = ((body i x acc : M A) ≫= λ acc', for_enumerate fuel next (S i) acc' body) w'.
Proof. intros E. simpl. by rewrite E. Qed.

Ltac unfold_monad :=
  unfold mbind, mret, M_bind, M_ret, C_bind, C_ret, outcome_bind, raise, raiseC,
    call, callC, lift in *.

(** ** Iteration *)

Lemma StatisticsProbes_next_eq : StatisticsProbes.next = Probes.next.
Proof. reflexivity. Qed.

Lemma StatisticsProbes_iter_eq : StatisticsProbes.__iter__ = Probes.__iter__.
Proof. reflexivity. Qed.

Lemma element_at_cursor_run self w :
  element_at_cursor self w = (element_value self w, w).
Proof.
  unfold element_at_cursor, element_value, Probes.__getitem__, getattr_i, cpp_of.
  repeat (unfold_monad; simpl).
  destruct (heap w !! self) as [o|] eqn:Ho; [|done].
  destruct (attr_i o) as [i|]; [|done]. rewrite Ho.
  destruct (get_probe_id (cpp o) i); [done|].
  destruct (get_probe (cpp o) i); done.
Qed.

Lemma next_run self w :
  Probes.next self w
  = match element_value self w with
    | Ok x =>
        match heap w !! self with
        | Some o =>
            (Ok x, World (<[self := set_i (Some (default 0 (attr_i o) + 1)%Z) o]>
                            (heap w)) (ep w))
        | None => (Raise AttributeError, w)
        end
    | Raise _ => (Raise StopIteration, w)
    | Blocked => (Blocked, w)
    | OutOfFuel => (OutOfFuel, w)
    end.
Proof.
  unfold Probes.next. rewrite run_bind. unfold try_except.
  change (i ← getattr_i self; Probes.__getitem__ self i)
    with (element_at_cursor self). rewrite element_at_cursor_run.
  destruct (element_value self w) as [x| | |] eqn:E; try reflexivity.
  unfold element_value in E.
  destruct (heap w !! self) as [o|] eqn:Ho; [|done].
  destruct (attr_i o) as [i|] eqn:Hi; [|done].
  rewrite run_bind. unfold getattr_i at 1. rewrite Ho, Hi.
  rewrite run_bind. unfold setattr_i. rewrite Ho. reflexivity.
Qed.

(** C9.  Whatever exception the evaluation of [self[self.i]] raises, a missing
    attribute [i] and an error of the compiled module included, [next] raises
    [StopIteration] in its place, in both classes, and changes nothing. *)
Theorem next_turns_any_exception_into_StopIteration
    (self : loc) (w w' : world) (e : exn) :
  element_at_cursor self w = (Raise e, w') →
  Probes.next self w = (Raise StopIteration, w)
  ∧ StatisticsProbes.next self w = (Raise StopIteration, w).
Proof.
  rewrite element_at_cursor_run. intros [= E _].
  rewrite StatisticsProbes_next_eq, next_run, E. done.
Qed.

(** C10.  [__iter__] returns the collection it is called on and stores 0 in
    its attribute [i]; so an iterator [it1] obtained earlier is the same
    object as a new one, and after a new iteration has been started, wherever
    the cursor was, [it1.next()] is back at the element of index 0. *)
Theorem iter_returns_self_and_resets_shared_cursor
    (self : loc) (w : world) (o : pyobj) :
  heap w !! self = Some o →
  let w0 := World (<[self := set_i (Some 0%Z) o]> (heap w)) (ep w) in
  Probes.__iter__ self w = (Ok self, w0)
  ∧ StatisticsProbes.__iter__ self w = (Ok self, w0)
  ∧ ∀ it1, it1 = self →
      (it2 ← Probes.__iter__ self; x ← Probes.next it1; mret (it2, x)) w
      = match get_probe_id (cpp o) 0%Z, get_probe (cpp o) 0%Z with
        | inr id, inr p =>
            (Ok (it1, (id, p)),
             World (<[self := set_i (Some 1%Z) o]> (heap w)) (ep w))
        | _, _ => (Raise StopIteration, w0)
        end.
Proof.
  intros Ho w0.
  assert (Hit : Probes.__iter__ self w = (Ok self, w0)).
  { unfold Probes.__iter__. rewrite run_bind. unfold setattr_i. rewrite Ho.
    reflexivity. }
  split; [exact Hit|]. split; [exact Hit|].
  intros it1 ->. rewrite (run_bind_ok _ _ _ _ _ Hit).
  assert (Hl : heap w0 !! self = Some (set_i (Some 0%Z) o))
    by apply lookup_insert_eq.
  rewrite run_bind, next_run. unfold element_value. rewrite Hl. simpl.
  destruct (get_probe_id (cpp o) 0%Z) as [e1|id]; [done|].
  destruct (get_probe (cpp o) 0%Z) as [e2|p]; [done|].
  rewrite insert_insert_eq. reflexivity.
Qed.

(** ** Slot indices of the statistics classes *)

Lemma StatisticsProbe_getitem_above (self : probe) (i : Z) :
  (2 ≤ i)%Z → StatisticsProbe.__getitem__ self i = inl AssertionError.
Proof.
  intros Hi. unfold StatisticsProbe.__getitem__.
  destruct (Z.ltb_spec i 2); [lia|reflexivity].
Qed.

Lemma StatisticsProbes_array_slot_checked_first
    (self : loc) (N : Z) filename component (root : nat) (w : world) :
  N ≠ 0%Z → N ≠ 1%Z →
  StatisticsProbes.array self N filename component root w = (Raise AssertionError, w).
Proof.
  intros H0 H1. unfold StatisticsProbes.array, StatisticsProbes.aggregate.
  rewrite !run_bind.
  rewrite (bool_decide_eq_false_2 _ H0), (bool_decide_eq_false_2 _ H1).
  reflexivity.
Qed.

(** C2, on the code.  The guard of [StatisticsProbe.__getitem__] is
    [assert(i < 2)]: a negative index passes it, the compiled probe is asked
    for the snapshot of that index and its answer is the result.  For the
    index -1, and for every negative index, no [AssertionError] comes from
    the guard. *)
Theorem StatisticsProbe_getitem_lets_negative_index_through (self : probe) :
  StatisticsProbe.__getitem__ self (-1)%Z = get_probe_at_snapshot self (-1)%Z
  ∧ (∀ v, get_probe_at_snapshot self (-1)%Z = inr v →
          StatisticsProbe.__getitem__ self (-1)%Z ≠ inl AssertionError)
  ∧ ∀ k : positive,
      StatisticsProbe.__getitem__ self (Z.neg k)
      = get_probe_at_snapshot self (Z.neg k).
Proof.
  split; [reflexivity|]. split; [|reflexivity].
  intros v Hv. unfold StatisticsProbe.__getitem__. simpl. by rewrite Hv.
Qed.

(** ** The map from dofs to components *)

Lemma space_induction (P : space → Prop) :
  (∀ vals subs, Forall P subs → P (Space vals subs)) → ∀ V, P V.
Proof.
  intros H. fix IH 1. intros [vals subs]. apply H.
  induction subs as [|Vs subs IHs]; constructor; [apply IH|exact IHs].
Qed.

Lemma extract_as_leaves (V : space) :
  ∀ st, extract_dof_component_map V st = foldl leaf_step st (leaves V).
Proof.
  induction V as [vals subs IH] using space_induction. intros st.
  destruct subs as [|V1 subs]; [reflexivity|].
  change (extract_dof_component_map (Space vals (V1 :: subs)) st)
    with (foldl (λ st Vs, extract_dof_component_map Vs st) st (V1 :: subs)).
  change (leaves (Space vals (V1 :: subs))) with (flat_map leaves (V1 :: subs)).
  revert st. induction IH as [|V' l HV' _ IHl]; intros st; [reflexivity|].
  simpl. rewrite foldl_app, <- HV'. apply IHl.
Qed.

Lemma leaves_nonempty (V : space) : 1 ≤ length (leaves V).
Proof.
  induction V as [vals subs IH] using space_induction.
  destruct subs as [|V1 subs]; [simpl; lia|].
  change (leaves (Space vals (V1 :: subs))) with (leaves V1 ++ flat_map leaves subs).
  rewrite length_app. apply Forall_cons in IH as [IH _]. lia.
Qed.

Lemma lookup_insert_all (m : gmap nat Z) (vals : list nat) (c : Z) (d : nat) :
  foldl (λ m val, <[val := c]> m) m vals !! d
  = if decide (d ∈ vals) then Some c else m !! d.
Proof.
  revert m. induction vals as [|v vals IH]; intros m; simpl.
  - done.
  - rewrite IH. destruct (decide (d ∈ vals)) as [Hin|Hin].
    + rewrite decide_True; [done|]. by right.
    + destruct (decide (d = v)) as [->|Hne].
      * rewrite decide_True by left. apply lookup_insert_eq.
      * rewrite decide_False; [by apply lookup_insert_ne|].
        rewrite elem_of_cons. tauto.
Qed.

Lemma leaf_steps_untouched (ls : list (list nat)) (st : gmap nat Z * Z) (d : nat) :
  (∀ L, L ∈ ls → d ∉ L) → (foldl leaf_step st ls).1 !! d = st.1 !! d.
Proof.
  revert st. induction ls as [|L ls IH]; intros st Hd; [done|].
  simpl. rewrite IH by (intros L' ?; apply Hd; by right).
  unfold leaf_step. simpl. rewrite lookup_insert_all, decide_False; [done|].
  apply Hd. left.
Qed.

(** The component of a dof is the number of the last leaf that holds it,
    counted from the value after the counter [c] and taken modulo 2^32. *)
Lemma leaf_steps_lookup (ls : list (list nat)) (d : nat) :
  ∀ (m : gmap nat Z) (c : Z) (t : nat) (L : list nat),
    ls !! t = Some L → d ∈ L →
    (∀ t' L', t < t' → ls !! t' = Some L' → d ∉ L') →
    (foldl leaf_step (m, c) ls).1 !! d
    = Some ((c + 1 + Z.of_nat t) mod 2 ^ 32)%Z.
Proof.
  induction ls as [|L0 ls IH]; intros m c t L Ht Hd Hlast; [done|].
  simpl. destruct t as [|t].
  - simpl in Ht. injection Ht as ->.
    rewrite leaf_steps_untouched.
    + unfold leaf_step. simpl. rewrite lookup_insert_all, decide_True by done.
      unfold uint32_incr. do 2 f_equal. lia.
    + intros L' [t' Ht']%list_elem_of_lookup. apply (Hlast (S t')); [lia|done].
  - simpl in Ht. unfold leaf_step at 2. simpl.
    rewrite (IH _ _ t L Ht Hd).
    + unfold uint32_incr. rewrite <- Z.add_assoc, Zplus_mod_idemp_l.
      do 2 f_equal. lia.
    + intros t' L' Hlt Ht'. apply (Hlast (S t')); [lia|done].
Qed.

Lemma last_leaf_of (ls : list (list nat)) (d : nat) :
  (∃ L, L ∈ ls ∧ d ∈ L) →
  ∃ t L, ls !! t = Some L ∧ d ∈ L
         ∧ ∀ t' L', t < t' → ls !! t' = Some L' → d ∉ L'.
Proof.
  induction ls as [|L0 ls IH]; intros (L & HL & Hd).
  - by apply elem_of_nil in HL.
  - destruct (decide (Exists (λ L', d ∈ L') ls)) as [Hex|Hno].
    + apply Exists_exists in Hex. destruct (IH Hex) as (t & L1 & Ht & Hd1 & Hlast).
      exists (S t), L1. split; [done|]. split; [done|].
      intros [|t'] L' Hlt Ht'; [lia|]. apply (Hlast t'); [lia|done].
    + exists 0, L0. apply elem_of_cons in HL as [->|HL].
      * split; [done|]. split; [done|]. intros [|t'] L' Hlt Ht'; [lia|].
        intros Hd'. apply Hno, Exists_exists. exists L'.
        split; [|done]. apply list_elem_of_lookup. by exists t'.
      * exfalso. apply Hno, Exists_exists. by exists L.
Qed.

Lemma dof_component_map_lookup (V : space) (t : nat) (L : list nat) (d : nat) :
  leaves V !! t = Some L → d ∈ L →
  (∀ t' L', t < t' → leaves V !! t' = Some L' → d ∉ L') →
  dof_component_map V !! d = Some (Z.of_nat t mod 2 ^ 32)%Z.
Proof.
  intros Ht Hd Hlast. unfold dof_component_map. rewrite extract_as_leaves.
  rewrite (leaf_steps_lookup _ d ∅ uint32_minus_one t L Ht Hd Hlast).
  unfold uint32_minus_one. f_equal.
  replace (2 ^ 32 - 1 + 1 + Z.of_nat t)%Z with (Z.of_nat t + 1 * 2 ^ 32)%Z by lia.
  apply Z_mod_plus_full.
Qed.

(** C3.  Let the space have [k] leaves, taken in the order of declaration,
    and let every dof of the local ownership range [lo, hi) be among the dofs
    of some leaf.  Then [k >= 1]; the map gives every dof of the range one
    component, which lies in [0, k); a dof gets the number of the leaf that
    holds it (of the last one, should several hold it); and for a space
    without sub-spaces every dof of its collapsed map gets component 0. *)
Theorem dof_component_map_total_in_declaration_order (V : space) (lo hi : nat) :
  (∀ d, lo ≤ d < hi → ∃ L, L ∈ leaves V ∧ d ∈ L) →
  (Z.of_nat (length (leaves V)) ≤ 2 ^ 32)%Z →
  1 ≤ length (leaves V)
  ∧ (∀ d, lo ≤ d < hi →
       ∃ c, dof_component_map V !! d = Some c
            ∧ (0 ≤ c < Z.of_nat (length (leaves V)))%Z)
  ∧ (∀ t L d, leaves V !! t = Some L → d ∈ L →
       (∀ t' L', t < t' → leaves V !! t' = Some L' → d ∉ L') →
       dof_component_map V !! d = Some (Z.of_nat t))
  ∧ (num_sub_spaces V = 0 →
     ∀ d, d ∈ collapse_values V → dof_component_map V !! d = Some 0%Z).
Proof.
  intros Hcover Hk.
  assert (Hord : ∀ t L d, leaves V !! t = Some L → d ∈ L →
       (∀ t' L', t < t' → leaves V !! t' = Some L' → d ∉ L') →
       dof_component_map V !! d = Some (Z.of_nat t)).
  { intros t L d Ht Hd Hlast.
    rewrite (dof_component_map_lookup V t L d Ht Hd Hlast).
    apply lookup_lt_Some in Ht. f_equal. apply Z.mod_small. lia. }
  split; [apply leaves_nonempty|]. split; [|split; [exact Hord|]].
  - intros d Hd. destruct (last_leaf_of _ d (Hcover d Hd)) as (t & L & Ht & HdL & Hlast).
    exists (Z.of_nat t). split; [by apply (Hord t L)|].
    apply lookup_lt_Some in Ht. lia.
  - intros Hleaf d Hd. destruct V as [vals subs].
    unfold num_sub_spaces in Hleaf. simpl in Hleaf, Hd.
    apply length_zero_iff_nil in Hleaf. subst subs.
    apply (Hord 0 vals d); [done|done|].
    intros [|t'] L' Hlt Ht'; [lia|done].
Qed.

(** ** Keeping the data of a round *)

Lemma getitem2_in_range (a : ndarray) (n c j k : nat) :
  shape a = [n; c] → length (data a) = n * c → j < n → k < c →
  ∃ v, getitem2 a j k = inr v ∧ data a !! (j * c + k) = Some v.
Proof.
  intros Hs Hl Hj Hk. unfold getitem2. rewrite Hs.
  destruct (Nat.ltb_spec j n); [|lia]. destruct (Nat.ltb_spec k c); [|lia].
  simpl. destruct (data a !! (j * c + k)) as [v|] eqn:E; [by exists v|].
  apply lookup_ge_None in E. nia.
Qed.

Lemma remap_rows_spec (dcm : gmap nat Z) (o : nat) (a : ndarray) (n c : nat) :
  shape a = [n; c] → length (data a) = n * c →
  ∀ (js : list nat) (dd : list float64),
    NoDup js →
    (∀ j, j ∈ js → j < n ∧ j < length dd
                   ∧ ∃ cj, dcm !! (j + o) = Some cj ∧ Z.to_nat cj < c) →
    ∃ dd', remap_rows dcm o a js dd = inr dd'
           ∧ length dd' = length dd
           ∧ (∀ j, j ∉ js → dd' !! j = dd !! j)
           ∧ (∀ j cj, j ∈ js → dcm !! (j + o) = Some cj →
                dd' !! j = data a !! (j * c + Z.to_nat cj)).
Proof.
  intros Hs Hl js. induction js as [|j js IH]; intros dd Hnd Hjs.
  - exists dd. split; [done|]. split; [done|]. split; [done|].
    intros j cj Hj. by apply elem_of_nil in Hj.
  - apply NoDup_cons in Hnd as [Hj Hnd].
    destruct (Hjs j) as (Hjn & Hjd & cj & Hcj & Hc); [left|].
    destruct (getitem2_in_range a n c j (Z.to_nat cj) Hs Hl Hjn Hc) as (v & Hg & Hv).
    simpl. rewrite Hcj, Hg. unfold setitem1.
    destruct (Nat.ltb_spec j (length dd)); [|lia].
    destruct (IH (<[j := v]> dd) Hnd) as (dd' & -> & Hlen & Hout & Hin).
    { intros j' Hj'. rewrite length_insert. apply Hjs. by right. }
    exists dd'. split; [done|]. rewrite length_insert in Hlen.
    split; [done|]. split.
    + intros j' Hj'. apply not_elem_of_cons in Hj' as [Hne Hj'].
      rewrite (Hout j' Hj'). by apply list_lookup_insert_ne.
    + intros j' cj' Hj' Hcj'. apply elem_of_cons in Hj' as [->|Hj'].
      * rewrite (Hout j Hj), list_lookup_insert_eq by done.
        rewrite Hcj in Hcj'. by injection Hcj' as <-.
      * by apply Hin.
Qed.



(** ** Assignments to arrays *)

Lemma length_store_cells (ws : list (nat * float64)) (d : list float64) :
  length (store_cells ws d) = length d.
Proof.
  revert d. induction ws as [|w ws IH]; intros d; [done|].
  change (length (store_cells ws (<[w.1 := w.2]> d)) = length d).
  rewrite IH. apply length_insert.
Qed.

Lemma store_cells_app (ws1 ws2 : list (nat * float64)) (d : list float64) :
  store_cells (ws1 ++ ws2) d = store_cells ws2 (store_cells ws1 d).
Proof. unfold store_cells. apply foldl_app. Qed.

Lemma store_cells_other (ws : list (nat * float64)) (d : list float64) (i : nat) :
  i ∉ map fst ws → store_cells ws d !! i = d !! i.
Proof.
  revert d. induction ws as [|[j v] ws IH]; intros d Hi; [done|].
  simpl in Hi. apply not_elem_of_cons in Hi as [Hne Hi].
  change (store_cells ws (<[j := v]> d) !! i = d !! i).
  rewrite IH by done. by apply list_lookup_insert_ne.
Qed.

Lemma store_cells_lookup (ws : list (nat * float64)) (d : list float64)
    (i : nat) (v : float64) :
  NoDup (map fst ws) → (i, v) ∈ ws → i < length d →
  store_cells ws d !! i = Some v.
Proof.
  revert d. induction ws as [|[j x] ws IH]; intros d Hnd Hin Hi.
  - by apply elem_of_nil in Hin.
  - simpl in Hnd. apply NoDup_cons in Hnd as [Hj Hnd].
    change (store_cells ws (<[j:=x]> d) !! i = Some v).
    apply elem_of_cons in Hin as [[= -> ->]|Hin].
    + rewrite store_cells_other by done. by apply list_lookup_insert_eq.
    + apply IH; [done|done|]. by rewrite length_insert.
Qed.

Lemma with_stores_nil (e : endpoint) : with_stores e [] = e.
Proof. destruct e. unfold with_stores. simpl. by rewrite app_nil_r. Qed.

Lemma with_stores_app (e : endpoint) ws1 ws2 :
  with_stores (with_stores e ws1) ws2 = with_stores e (ws1 ++ ws2).
Proof. unfold with_stores. simpl. by rewrite app_assoc. Qed.

Lemma assign_run (z : ndarray) (ws : list (nat * float64)) (e : endpoint) :
  assign z (inr ws) e
  = (Ok (NDArray (shape z) (store_cells ws (data z))), with_stores e ws).
Proof. reflexivity. Qed.

Lemma setitem_ids_col_in_range (z : ndarray) (n c k : nat) (ids : list nat)
    (vals : list float64) :
  shape z = [n; c] → Forall (λ i, i < n) ids → k < c →
  length vals = length ids →
  setitem_ids_col z ids k vals = inr (zip (map (λ i, i * c + k) ids) vals).
Proof.
  intros Hs Hids Hk Hl. unfold setitem_ids_col. rewrite Hs.
  assert (forallb (λ i, i <? n) ids = true) as ->.
  { apply forallb_forall. intros i Hi%list_elem_of_In.
    apply Nat.ltb_lt. by apply (proj1 (Forall_forall _ _) Hids). }
  destruct (Nat.ltb_spec k c); [|lia]. simpl.
  rewrite Hl, Nat.eqb_refl. reflexivity.
Qed.

(** The columns that lines 76-81 fill, for any list [ks] of components. *)
Lemma retrieve_columns_run (c : compiled) (is_root : bool) (comp : nat) (n : Z)
    (ks : list nat) :
  ∀ (z : ndarray) (e : endpoint),
    shape z = [size_of is_root c; comp] →
    Forall (λ i, i < size_of is_root c) (rows_of is_root c) →
    (∀ k, k ∈ ks → k < comp
       ∧ ∃ v, get_probes_component_and_snapshot c k n = inr v
              ∧ length v = length (rows_of is_root c)) →
    let ws := flat_map (λ k, zip (map (λ i, i * comp + k) (rows_of is_root c))
                                 (column c k n)) ks in
    for_each ks z (λ k z,
      if is_root then
        let ids := get_probe_ids c in
        vals ← callC (get_probes_component_and_snapshot c k n);
        assign z (setitem_ids_col z ids k vals)
      else
        vals ← callC (get_probes_component_and_snapshot c k n);
        assign z (setitem_all_col z k vals)) e
    = (Ok (NDArray (shape z) (store_cells ws (data z))), with_stores e ws).
Proof.
  induction ks as [|k ks IH]; intros z e Hs Hrows Hks ws.
  - subst ws. simpl. rewrite with_stores_nil. by destruct z.
  - destruct (Hks k) as (Hk & v & Hv & Hl); [left|].
    assert (Hstep : (if is_root then
        let ids := get_probe_ids c in
        vals ← callC (get_probes_component_and_snapshot c k n);
        assign z (setitem_ids_col z ids k vals)
      else
        vals ← callC (get_probes_component_and_snapshot c k n);
        assign z (setitem_all_col z k vals)) e
      = (Ok (NDArray (shape z)
               (store_cells (zip (map (λ i, i * comp + k) (rows_of is_root c)) v)
                            (data z))),
         with_stores e (zip (map (λ i, i * comp + k) (rows_of is_root c)) v))).
    { pose proof (setitem_ids_col_in_range z _ comp k _ v Hs Hrows Hk Hl) as Hset.
      destruct is_root; simpl in Hset |- *; rewrite run_bindC, Hv; simpl.
      - rewrite Hset. reflexivity.
      - unfold setitem_all_col.
        replace (hd 0 (shape z)) with (local_size c) by (by rewrite Hs).
        rewrite Hset. reflexivity. }
    rewrite for_each_consC, (run_bindC_ok _ _ _ _ _ Hstep).
    rewrite IH; [|done|done|intros k' Hk'; apply Hks; by right].
    assert (Hcol : column c k n = v) by (unfold column; by rewrite Hv).
    subst ws. simpl. rewrite Hcol, store_cells_app, with_stores_app.
    reflexivity.
Qed.

Lemma setitem_cell_in_range (z : ndarray) (n c e j k : nat) (vec : list float64) :
  shape z = [n; c; e] → j < n → k < c → length vec = e →
  setitem_cell z j k vec = inr (zip (seq ((j * c + k) * e) e) vec).
Proof.
  intros Hs Hj Hk Hl. unfold setitem_cell. rewrite Hs.
  destruct (Nat.ltb_spec j n); [|lia]. destruct (Nat.ltb_spec k c); [|lia].
  simpl. rewrite Hl, Nat.eqb_refl. reflexivity.
Qed.

(** Lines 88-89 for one probe, for any list [ks] of components. *)
Lemma retrieve_histories_run (p : probe) (n c ne j : nat) (ks : list nat) :
  ∀ (z : ndarray) (w : world),
    shape z = [n; c; ne] → j < n →
    (∀ k, k ∈ ks → k < c ∧ ∃ v, get_probe_sub p k = inr v ∧ length v = ne) →
    let ws := flat_map (λ k, zip (seq ((j * c + k) * ne) ne) (sub_history p k)) ks in
    for_each ks z (λ k z,
      vec ← call (get_probe_sub p k);
      lift (assign z (setitem_cell z j k vec))) w
    = (Ok (NDArray (shape z) (store_cells ws (data z))),
       World (heap w) (with_stores (ep w) ws)).
Proof.
  induction ks as [|k ks IH]; intros z w Hs Hj Hks ws.
  - subst ws. simpl. rewrite with_stores_nil. by destruct z, w.
  - destruct (Hks k) as (Hk & v & Hv & Hl); [left|].
    rewrite for_each_consM, run_bind, run_bind, Hv. simpl.
    rewrite run_lift, (setitem_cell_in_range z n c ne j k v Hs Hj Hk Hl).
    rewrite assign_run. simpl.
    rewrite IH; [|done|done|intros k' Hk'; apply Hks; by right].
    assert (Hsub : sub_history p k = v) by (unfold sub_history; by rewrite Hv).
    subst ws. simpl. rewrite Hsub, store_cells_app, with_stores_app.
    reflexivity.
Qed.

(** Lines 83-89 from the probe of index [i0] on. *)
Lemma retrieve_all_snapshots_from (self : loc) (c : compiled) (is_root : bool)
    (comp : nat) (m : nat) :
  ∀ (i0 fuel : nat) (z : ndarray) (w : world),
    i0 + m = local_size c → m < fuel →
    heap w !! self = Some (PyObj c (Some (Z.of_nat i0))) →
    length (get_probe_ids c) = local_size c →
    shape z = [size_of is_root c; comp; number_of_evaluations c] →
    Forall (λ i, i < size_of is_root c) (rows_of is_root c) →
    value_size c = comp →
    (∀ i, i < local_size c →
       get_probe_id c (Z.of_nat i) = inr (get_probe_ids c !!! i)
       ∧ ∃ p, get_probe c (Z.of_nat i) = inr p
              ∧ ∀ k, k < value_size c →
                  ∃ v, get_probe_sub p k = inr v
                       ∧ length v = number_of_evaluations c) →
    ((∃ e, get_probe_id c (Z.of_nat (local_size c)) = inl e)
     ∨ (∃ e, get_probe c (Z.of_nat (local_size c)) = inl e)) →
    let ws := flat_map (λ ij : nat * nat,
                flat_map (λ k, zip (seq ((ij.2 * comp + k)
                                         * number_of_evaluations c)
                                        (number_of_evaluations c))
                                   (history c ij.1 k))
                         (seq 0 (value_size c)))
                (enumerate_from i0 (drop i0 (rows_of is_root c))) in
    for_enumerate fuel (Probes.next self) i0 z (λ i ip z,
      for_each (seq 0 (value_size c)) z (λ k z,
        vec ← call (get_probe_sub ip.2 k);
        lift (assign z (setitem_cell z (if is_root then ip.1 else i) k vec)))) w
    = (Ok (NDArray (shape z) (store_cells ws (data z))),
       World (<[self := PyObj c (Some (Z.of_nat (local_size c)))]> (heap w))
             (with_stores (ep w) ws)).
Proof.
  assert (Hrows_len : ∀ b, length (get_probe_ids c) = local_size c →
            length (rows_of b c) = local_size c).
  { intros [] H; simpl; [done|apply length_seq]. }
  induction m as [|m IH];
    intros i0 fuel z w Hi0 Hfuel Ho Hids Hs Hrows Hvs Hprobes Hend ws.
  - assert (i0 = local_size c) as -> by lia.
    destruct fuel as [|fuel]; [lia|].
    assert (Hnext : Probes.next self w = (Raise StopIteration, w)).
    { rewrite next_run. unfold element_value. rewrite Ho. simpl.
      destruct Hend as [[e He]|[e He]]; rewrite He; [done|].
      by destruct (get_probe_id c (Z.of_nat (local_size c))). }
    rewrite (for_enumerate_stop _ _ _ _ _ _ _ Hnext).
    subst ws. rewrite drop_ge by (by rewrite Hrows_len).
    change (flat_map _ (enumerate_from _ [])) with (@nil (nat * float64)).
    rewrite with_stores_nil, insert_id by done. by destruct z, w.
  - destruct fuel as [|fuel]; [lia|].
    destruct (Hprobes i0) as (Hid & p & Hp & Hsub); [lia|].
    assert (Hnext : Probes.next self w
      = (Ok (get_probe_ids c !!! i0, p),
         World (<[self := PyObj c (Some (Z.of_nat (S i0)))]> (heap w)) (ep w))).
    { rewrite next_run. unfold element_value. rewrite Ho. simpl.
      rewrite Hid, Hp. unfold set_i. simpl. do 5 f_equal. lia. }
    rewrite (for_enumerate_step _ _ _ _ _ _ _ _ Hnext).
    assert (Hrow : rows_of is_root c !! i0
                   = Some (if is_root then get_probe_ids c !!! i0 else i0)).
    { destruct is_root; simpl.
      - apply list_lookup_lookup_total_lt. lia.
      - apply lookup_seq. lia. }
    assert (Hj : (if is_root then get_probe_ids c !!! i0 else i0)
                 < size_of is_root c).
    { apply (proj1 (Forall_lookup _ _) Hrows i0). exact Hrow. }
    rewrite run_bind. cbv beta zeta. simpl fst. simpl snd.
    rewrite (retrieve_histories_run p _ comp _ _ (seq 0 (value_size c)) z _ Hs Hj).
    2:{ intros k Hk%elem_of_seq. split; [lia|]. apply Hsub. lia. }
    rewrite IH; [|lia|lia| |done|done|done|done|done|done].
    2:{ simpl. by rewrite lookup_insert_eq. }
    subst ws. rewrite (drop_S _ _ _ Hrow).
    change (enumerate_from i0 (?x :: ?l)) with ((i0, x) :: enumerate_from (S i0) l).
    change (flat_map ?f ((i0, ?x) :: ?l)) with (f (i0, x) ++ flat_map f l).
    rewrite store_cells_app.
    cbv beta. simpl fst. simpl snd. simpl heap. simpl ep. simpl shape. simpl data.
    rewrite insert_insert_eq, with_stores_app.
    unfold history. rewrite Hp. reflexivity.
Qed.

Lemma flat_map_const_nil {X Y} (l : list X) (f : X → list Y) :
  (∀ x, f x = []) → flat_map f l = [].
Proof. intros Hf. induction l as [|x l IH]; simpl; [done|]. by rewrite Hf, IH. Qed.

Lemma local_stores_empty (a : aggregation) (is_root : bool) (c : compiled) :
  length (get_probe_ids c) = local_size c → local_size c = 0 →
  local_stores a is_root c = [].
Proof.
  intros Hids H0.
  assert (Hrows : rows_of is_root c = []).
  { destruct is_root; simpl; [|by rewrite H0].
    apply length_zero_iff_nil. lia. }
  unfold local_stores. rewrite Hrows.
  destruct (snapshot_of a); [|done]. by apply flat_map_const_nil.
Qed.

(** The values of a process, lines 66-89 and 151-162. *)
Lemma local_values_run (a : aggregation) (self : loc) (is_root : bool)
    (w : world) (o : pyobj) :
  heap w !! self = Some o → answers a (cpp o) →
  Forall (λ i, i < size_of is_root (cpp o)) (rows_of is_root (cpp o)) →
  local_values a self (cpp o) is_root w
  = (Ok (local_buffer a is_root (cpp o)),
     World (local_heap a self o (heap w))
           (with_stores (ep w) (local_stores a is_root (cpp o)))).
Proof.
  intros Ho [Hids Hans] Hrows. set (c := cpp o) in *.
  assert (Hrl : length (rows_of is_root c) = local_size c).
  { destruct is_root; simpl; [done|apply length_seq]. }
  destruct (Nat.ltb_spec 0 (local_size c)) as [Hpos|Hzero].
  2:{ assert (H0 : local_size c = 0) by lia.
      assert (Hb : (0 <? local_size c) = false) by (apply Nat.ltb_ge; lia).
      assert (Hh : local_heap a self o (heap w) = heap w).
      { unfold local_heap. fold c. rewrite Hb. by destruct (snapshot_of a). }
      unfold local_buffer. rewrite Hh, (local_stores_empty a is_root c Hids H0).
      rewrite with_stores_nil. destruct w as [h e].
      destruct a as [fuel [n|] component|n component];
        unfold local_values, Probes.local_values, StatisticsProbes.local_values;
        rewrite Hb; reflexivity. }
  assert (Hb : (0 <? local_size c) = true) by (apply Nat.ltb_lt; lia).
  assert (Hsnap : ∀ n comp,
    (∀ k, k < comp → ∃ v, get_probes_component_and_snapshot c k n = inr v
                          ∧ length v = local_size c) →
    lift (retrieve_component_snapshot c is_root comp n
            (zeros [size_of is_root c; comp])) w
    = (Ok (NDArray [size_of is_root c; comp]
             (store_cells
                (flat_map (λ k, zip (map (λ i, i * comp + k) (rows_of is_root c))
                                    (column c k n)) (seq 0 comp))
                (data (zeros [size_of is_root c; comp])))),
       World (heap w)
         (with_stores (ep w)
            (flat_map (λ k, zip (map (λ i, i * comp + k) (rows_of is_root c))
                                (column c k n)) (seq 0 comp))))).
  { intros n comp Hcols. rewrite run_lift. unfold retrieve_component_snapshot.
    rewrite (retrieve_columns_run c is_root comp n (seq 0 comp)); [done|done|done|].
    intros k Hk%elem_of_seq. split; [lia|]. rewrite Hrl. apply Hcols. lia. }
  destruct a as [fuel [n|] component|n component].
  - unfold local_values, Probes.local_values. rewrite Hb.
    apply (Hsnap n _ Hans).
  - destruct Hans as (Hfuel & Hcomp & Hprobes & Hend).
    assert (Hvs : value_size c
                  = match component with None => value_size c | Some _ => 1 end).
    { destruct component; [|done]. by destruct Hcomp. }
    unfold local_values, Probes.local_values. rewrite Hb.
    unfold Probes.retrieve_all_snapshots, Probes.__iter__.
    rewrite !run_bind. unfold setattr_i at 1. rewrite Ho.
    unfold mret, M_ret. cbv beta iota zeta.
    erewrite (retrieve_all_snapshots_from self c is_root _ (local_size c) 0 fuel);
      [| lia | lia | simpl; by rewrite lookup_insert_eq | done | reflexivity
       | done | done | done | done ].
    simpl heap. simpl ep. rewrite insert_insert_eq.
    unfold local_buffer, local_heap, local_stores, comp_of, row_shape. simpl.
    fold c. rewrite Hb. reflexivity.
  - destruct Hans as [_ Hans].
    unfold local_values, StatisticsProbes.local_values. rewrite Hb.
    apply (Hsnap n _ Hans).
Qed.

(** ** Communication *)

Lemma gather_run (n root : nat) (e : endpoint) :
  gather n root e
  = match gathered e with
    | None => (Blocked, with_trace e [EvGather n root])
    | Some l => (Ok (if bool_decide (rank e = root) then Some l else None),
                 with_trace e [EvGather n root])
    end.
Proof.
  unfold gather. rewrite run_bindC. unfold log, gather_result. simpl.
  reflexivity.
Qed.

Lemma send_run (body : payload) (dest tag : nat) (e : endpoint) :
  send body dest tag e = (Ok tt, with_trace e [EvSend dest tag body]).
Proof. reflexivity. Qed.

Lemma recv_head (j t : nat) (b : payload) (rest : list message) (e : endpoint) :
  inbox e = Message j t b :: rest →
  recv j t e = (Ok b, with_inbox (with_trace e [EvRecv j t]) rest).
Proof.
  intros Hin. unfold recv. rewrite run_bindC. unfold log, deliver. simpl.
  rewrite Hin. simpl. rewrite !bool_decide_eq_true_2 by done. reflexivity.
Qed.

Lemma setitem_ids_rows_in_range (z z0 : ndarray) (n c : nat) (rest : list nat)
    (ids : list nat) :
  shape z = n :: c :: rest → shape z0 = length ids :: c :: rest →
  Forall (λ i, i < n) ids →
  setitem_ids_rows z ids z0
  = inr (zip (flat_map (row_cells (prod_list (c :: rest))) ids) (data z0)).
Proof.
  intros Hs Hs0 Hids. unfold setitem_ids_rows. rewrite Hs, Hs0.
  assert (forallb (λ i, i <? n) ids = true) as ->.
  { apply forallb_forall. intros i Hi%list_elem_of_In.
    apply Nat.ltb_lt. by apply (proj1 (Forall_forall _ _) Hids). }
  rewrite bool_decide_eq_true_2 by done. reflexivity.
Qed.

(** The non-root side of lines 92-102. *)
Lemma collect_not_root (c : compiled) (root : nat) (z : ndarray) (e : endpoint) :
  collect_on_root c false root z e
  = match gathered e with
    | None => (Blocked, with_trace e [EvGather (local_size c) root])
    | Some _ =>
        (Ok z, with_trace e [EvGather (local_size c) root;
                             EvSend root 101 (PIds (get_probe_ids c));
                             EvSend root 102 (PArr z)])
    end.
Proof.
  unfold collect_on_root. rewrite run_bindC, gather_run.
  destruct (gathered e) as [l|] eqn:Hg; [|reflexivity].
  cbv beta iota. rewrite run_bindC, send_run. cbv beta iota.
  rewrite run_bindC, send_run. cbv beta iota.
  unfold with_trace, mret, C_ret. simpl. rewrite <- !app_assoc. reflexivity.
Qed.

(** Lines 94-98 from the rank [j0] on, when the inbox holds the messages of
    the processes of these ranks, in the order of the ranks. *)
Lemma receive_from (n c : nat) (rest : list nat) (l : list nat) :
  ∀ (cs : list (list nat * ndarray)) (j0 : nat) (z : ndarray) (e : endpoint),
    length cs = length l →
    inbox e = mail_from (rank e) j0 cs →
    shape z = n :: c :: rest →
    (∀ jc, jc ∈ enumerate_from j0 cs → jc.1 ≠ rank e →
       Forall (λ i, i < n) jc.2.1 ∧ shape jc.2.2 = length jc.2.1 :: c :: rest) →
    let ws := scatter_stores (prod_list (c :: rest)) (rank e) j0 cs in
    for_each (enumerate_from j0 l) z (λ jk z,
      r ← Get_rank;
      if bool_decide (r ≠ jk.1) then
        ids ← recv jk.1 101;
        z0 ← recv jk.1 102;
        match ids, z0 with
        | PIds ids, PArr z0 => assign z (setitem_ids_rows z ids z0)
        | _, _ => raiseC TypeError
        end
      else mret z) e
    = (Ok (NDArray (shape z) (store_cells ws (data z))),
       with_stores
         (with_inbox (with_trace e (recv_events (rank e) j0 (length l))) [])
         ws).
Proof.
  induction l as [|k l IH]; intros cs j0 z e Hlen Hin Hs Hcs ws.
  - destruct cs; [|done]. subst ws. simpl in *.
    unfold with_stores, with_inbox, with_trace. simpl. rewrite !app_nil_r.
    unfold mail_from in Hin. simpl in Hin. rewrite <- Hin. by destruct z, e.
  - destruct cs as [|[ids z0] cs]; [done|]. injection Hlen as Hlen.
    change (enumerate_from j0 (k :: l)) with ((j0, k) :: enumerate_from (S j0) l).
    rewrite for_each_consC, run_bindC, run_bindC.
    change (Get_rank e) with (Ok (rank e), e). cbv beta iota. simpl fst.
    unfold mail_from in Hin. simpl in Hin.
    subst ws. unfold scatter_stores, recv_events. simpl.
    destruct (decide (j0 = rank e)) as [Heq|Hne].
    + rewrite bool_decide_eq_false_2 by (intros H; by apply H).
      rewrite (bool_decide_eq_true_2 _ Heq) in Hin |- *. simpl.
      change ((mret z : C ndarray) e) with (Ok z, e). cbv beta iota.
      rewrite (IH cs (S j0) z e Hlen Hin Hs).
      2:{ intros jc Hjc. apply Hcs. by right. }
      reflexivity.
    + rewrite (bool_decide_eq_true_2 (rank e ≠ j0)) by done.
      rewrite (bool_decide_eq_false_2 _ Hne) in Hin |- *. simpl in Hin.
      destruct (Hcs (j0, (ids, z0))) as [Hids Hs0]; [left|done|]. simpl in *.
      rewrite run_bindC, (recv_head _ _ _ _ _ Hin). cbv beta iota.
      rewrite run_bindC.
      rewrite (recv_head j0 102 (PArr z0)
                 (mail_from (rank e) (S j0) cs)) by reflexivity.
      cbv beta iota.
      rewrite (setitem_ids_rows_in_range z z0 n c rest ids Hs Hs0 Hids).
      rewrite assign_run.
      rewrite (IH cs (S j0)); [|done|reflexivity|done|].
      2:{ intros jc Hjc. apply Hcs. by right. }
      simpl. rewrite store_cells_app.
      unfold with_stores, with_inbox, with_trace, scatter_stores, recv_events.
      simpl. rewrite <- !app_assoc. reflexivity.
Qed.

(** ** One process *)

Lemma cpp_of_run (self : loc) (w : world) (o : pyobj) :
  heap w !! self = Some o → cpp_of self w = (Ok (cpp o), w).
Proof. intros Ho. unfold cpp_of. by rewrite Ho. Qed.

(** The aggregation on a process whose collection answers: its own values,
    then lines 92-102. *)
Lemma aggregate_run (a : aggregation) (root : nat) (self : loc) (w : world)
    (o : pyobj) :
  heap w !! self = Some o → answers a (cpp o) →
  let is_root := bool_decide (rank (ep w) = root) in
  Forall (λ i, i < size_of is_root (cpp o)) (rows_of is_root (cpp o)) →
  aggregate a root self w
  = let r := collect_on_root (cpp o) is_root root
               (local_buffer a is_root (cpp o))
               (with_stores (ep w) (local_stores a is_root (cpp o))) in
    (outcome_map (λ z, (is_root, z)) r.1,
     World (local_heap a self o (heap w)) r.2).
Proof.
  intros Ho Hans is_root Hrows.
  assert (Hbody :
    (r ← lift Get_rank;
     c ← cpp_of self;
     z ← local_values a self c (bool_decide (r = root));
     z ← lift (collect_on_root c (bool_decide (r = root)) root z);
     mret (bool_decide (r = root), z)) w
    = let r := collect_on_root (cpp o) is_root root
                 (local_buffer a is_root (cpp o))
                 (with_stores (ep w) (local_stores a is_root (cpp o))) in
      (outcome_map (λ z, (is_root, z)) r.1,
       World (local_heap a self o (heap w)) r.2)).
  { subst is_root. destruct w as [h e]. simpl heap in *. simpl ep in *.
    rewrite run_bind, run_lift. simpl fst. simpl snd.
    change (Get_rank e) with (Ok (rank e), e). simpl fst. simpl snd.
    cbv beta iota. simpl heap.
    rewrite run_bind, (cpp_of_run self (World h e) o Ho). cbv beta iota.
    rewrite run_bind, (local_values_run a self _ (World h e) o Ho Hans Hrows).
    cbv beta iota.
    rewrite run_bind, run_lift. simpl heap. simpl ep.
    destruct (collect_on_root (cpp o) (bool_decide (rank e = root)) root
                (local_buffer a (bool_decide (rank e = root)) (cpp o))
                (with_stores e (local_stores a (bool_decide (rank e = root))
                                  (cpp o)))) as [[z| | |] e'];
      reflexivity. }
  destruct a as [fuel N component|N component]; [exact Hbody|].
  unfold aggregate, StatisticsProbes.aggregate. rewrite run_bind.
  destruct Hans as [_ [HN _]].
  assert ((bool_decide (N = 0%Z) || bool_decide (N = 1%Z)) = true) as ->.
  { destruct HN as [->| ->]; reflexivity. }
  exact Hbody.
Qed.

Lemma rows_not_root_in_range (c : compiled) :
  Forall (λ i, i < size_of false c) (rows_of false c).
Proof. apply Forall_forall. intros i Hi%elem_of_seq. simpl. lia. Qed.

(** A process other than the root. *)
Lemma aggregate_not_root (a : aggregation) (root : nat) (self : loc) (w : world)
    (o : pyobj) :
  heap w !! self = Some o → answers a (cpp o) → rank (ep w) ≠ root →
  aggregate a root self w
  = let e1 := with_stores (ep w) (local_stores a false (cpp o)) in
    let h1 := local_heap a self o (heap w) in
    match gathered (ep w) with
    | None =>
        (Blocked, World h1 (with_trace e1 [EvGather (local_size (cpp o)) root]))
    | Some _ =>
        (Ok (false, local_buffer a false (cpp o)),
         World h1 (with_trace e1
           [EvGather (local_size (cpp o)) root;
            EvSend root 101 (PIds (get_probe_ids (cpp o)));
            EvSend root 102 (PArr (local_buffer a false (cpp o)))]))
    end.
Proof.
  intros Ho Hans Hr.
  pose proof (aggregate_run a root self w o Ho Hans) as Hrun.
  rewrite (bool_decide_eq_false_2 _ Hr) in Hrun.
  rewrite (Hrun (rows_not_root_in_range _)), collect_not_root.
  simpl. by destruct (gathered (ep w)).
Qed.

(** The root, when the gather completes and its inbox holds the id list and
    the array of every other process, in the order of the ranks. *)
Lemma aggregate_root (a : aggregation) (self : loc) (w : world) (o : pyobj)
    (l : list nat) (cs : list (list nat * ndarray)) :
  heap w !! self = Some o → answers a (cpp o) →
  Forall (λ i, i < get_total_number_probes (cpp o)) (get_probe_ids (cpp o)) →
  gathered (ep w) = Some l → length cs = length l →
  inbox (ep w) = mail_from (rank (ep w)) 0 cs →
  (∀ jc, jc ∈ enumerate cs → jc.1 ≠ rank (ep w) →
     Forall (λ i, i < get_total_number_probes (cpp o)) jc.2.1
     ∧ shape jc.2.2 = length jc.2.1 :: row_shape a (cpp o)) →
  let ws := local_stores a true (cpp o)
            ++ scatter_stores (row_size a (cpp o)) (rank (ep w)) 0 cs in
  aggregate a (rank (ep w)) self w
  = (Ok (true, NDArray (get_total_number_probes (cpp o) :: row_shape a (cpp o))
                 (store_cells ws
                    (data (zeros (get_total_number_probes (cpp o)
                                  :: row_shape a (cpp o)))))),
     World (local_heap a self o (heap w))
       (with_stores
          (with_inbox
             (with_trace (ep w)
                (EvGather (local_size (cpp o)) (rank (ep w))
                 :: recv_events (rank (ep w)) 0 (length l))) [])
          ws)).
Proof.
  intros Ho Hans Hids Hg Hlen Hin Hcs ws.
  pose proof (aggregate_run a (rank (ep w)) self w o Ho Hans) as Hrun.
  rewrite bool_decide_eq_true_2 in Hrun by done. rewrite (Hrun Hids). clear Hrun.
  unfold collect_on_root. rewrite run_bindC, gather_run. simpl gathered.
  rewrite Hg. simpl rank. rewrite bool_decide_eq_true_2 by done.
  cbv beta iota. unfold receive_all, enumerate.
  assert (∃ c rest, row_shape a (cpp o) = c :: rest) as (c & rest & Hsh).
  { unfold row_shape. destruct (snapshot_of a); eauto. }
  rewrite (receive_from (get_total_number_probes (cpp o)) c rest l cs 0);
    [|done|exact Hin| |].
  2:{ unfold local_buffer. simpl. by rewrite Hsh. }
  2:{ intros jc Hjc Hne. rewrite <- Hsh. by apply Hcs. }
  subst ws. unfold local_buffer, row_size. rewrite !Hsh.
  rewrite store_cells_app.
  unfold with_stores, with_inbox, with_trace. simpl.
  rewrite <- !app_assoc. reflexivity.
Qed.

(** The method is the aggregation followed by lines 104-110 or 177-180. *)
Lemma array_finish (a : aggregation) (filename : option string) (root : nat)
    (self : loc) (w : world) :
  array a filename root self w = finish a filename (aggregate a root self w).
Proof.
  destruct a as [fuel [n|] component|n component];
    unfold array, aggregate, Probes.array, StatisticsProbes.array;
    rewrite run_bind;
    match goal with
    | |- context [finish _ _ ?r] => destruct r as [[[[] z]| | |] w']
    end; simpl; try reflexivity;
    destruct (truthy filename); reflexivity.
Qed.

(** ** The group *)

Lemma enumerate_from_lookup {X} (l : list X) (j0 i : nat) :
  enumerate_from j0 l !! i = (λ x, (j0 + i, x)) <$> l !! i.
Proof.
  revert j0 i. induction l as [|x l IH]; intros j0 [|i]; simpl; try done.
  - by rewrite Nat.add_0_r.
  - rewrite IH. by replace (S j0 + i) with (j0 + S i) by lia.
Qed.

Lemma enumerate_from_map {X Y} (f : X → Y) (l : list X) (j0 : nat) :
  enumerate_from j0 (map f l) = map (λ jx, (jx.1, f jx.2)) (enumerate_from j0 l).
Proof.
  revert j0. induction l as [|x l IH]; intros j0; simpl; [done|].
  by rewrite IH.
Qed.

Lemma collection_of_heap (p : Group.process) (c : compiled) :
  collection_of p = Some c →
  ∃ o, Group.p_heap p !! Group.p_self p = Some o ∧ cpp o = c.
Proof.
  unfold collection_of. destruct (Group.p_heap p !! Group.p_self p) as [o|];
    [|done]. intros [= <-]. by exists o.
Qed.

(** Without a completed gather every process stops in the gather. *)
Lemma aggregate_joins_gather (a : aggregation) (root : nat) (self : loc)
    (w : world) (o : pyobj) :
  heap w !! self = Some o → answers a (cpp o) →
  (rank (ep w) = root →
   Forall (λ i, i < get_total_number_probes (cpp o)) (get_probe_ids (cpp o))) →
  gathered (ep w) = None →
  Group.gather_of (trace (ep w)) = None →
  ∃ w', aggregate a root self w = (Blocked, w')
        ∧ Group.gather_of (trace (ep w')) = Some (local_size (cpp o)).
Proof.
  intros Ho Hans Hroot Hg Htr.
  assert (Hgo : ∀ t n, Group.gather_of t = None →
            Group.gather_of (t ++ [EvGather n root]) = Some n).
  { induction t as [|ev t IH]; intros n Ht; [done|].
    destruct ev; simpl in *; try done; by apply IH. }
  destruct (decide (rank (ep w) = root)) as [Hr|Hr].
  - rewrite (aggregate_run a root self w o Ho Hans).
    2:{ rewrite bool_decide_eq_true_2 by done. by apply Hroot. }
    rewrite bool_decide_eq_true_2 by done.
    unfold collect_on_root. rewrite run_bindC, gather_run. simpl gathered.
    rewrite Hg. simpl. eexists. split; [reflexivity|]. simpl. by apply Hgo.
  - rewrite (aggregate_not_root a root self w o Ho Hans Hr). simpl.
    rewrite Hg. eexists. split; [reflexivity|]. simpl. by apply Hgo.
Qed.

Section GroupRun.
Context (a : aggregation) (root : nat).

Lemma counts_from (ps : list Group.process) (cs : list compiled) :
  Forall2 (λ p c, collection_of p = Some c) ps cs →
  Forall (answers a) cs →
  ∀ j0,
    (∀ i c, cs !! i = Some c → j0 + i = root →
       Forall (λ i, i < get_total_number_probes c) (get_probe_ids c)) →
    mapM (λ ow : outcome (bool * ndarray) * world,
            Group.gather_of (trace (ep ow.2)))
         (map (λ rp : nat * Group.process,
                 aggregate a root (Group.p_self rp.2)
                   (Group.start None [] rp.1 rp.2))
              (enumerate_from j0 ps))
    = Some (map local_size cs).
Proof.
  induction 1 as [|p c ps cs Hp _ IH]; intros Hans j0 Hroot; [done|].
  apply Forall_cons in Hans as [Hc Hans].
  destruct (collection_of_heap p c Hp) as (o & Ho & <-).
  destruct (aggregate_joins_gather a root (Group.p_self p)
              (Group.start None [] j0 p) o Ho Hc) as (w' & Hrun & Hgo);
    [|done|done|].
  { simpl. intros Hr. apply (Hroot 0); [done|lia]. }
  simpl. rewrite Hrun. simpl. rewrite Hgo. simpl.
  rewrite (IH Hans (S j0)); [done|].
  intros i c' Hi Hr. apply (Hroot (S i)); [done|lia].
Qed.

Lemma mail_from_round (l : list nat) (ps : list Group.process)
    (cs : list compiled) :
  Forall2 (λ p c, collection_of p = Some c) ps cs →
  Forall (answers a) cs →
  ∀ j0,
    flat_map (λ row : nat * (outcome (bool * ndarray) * world),
                if bool_decide (row.1 = root) then []
                else Group.sends_to root row.1 (trace (ep row.2.2)))
      (enumerate_from j0
         (map (λ rp : nat * Group.process,
                 aggregate a root (Group.p_self rp.2)
                   (Group.start (Some l) [] rp.1 rp.2))
              (enumerate_from j0 ps)))
    = mail_from root j0 (map (contribution a) cs).
Proof.
  induction 1 as [|p c ps cs Hp _ IH]; intros Hans j0; [done|].
  apply Forall_cons in Hans as [Hc Hans]. unfold mail_from. simpl.
  unfold mail_from in IH. rewrite (IH Hans (S j0)). f_equal.
  destruct (decide (j0 = root)) as [Hr|Hr].
  - by rewrite !(bool_decide_eq_true_2 _ Hr).
  - rewrite !(bool_decide_eq_false_2 _ Hr).
    destruct (collection_of_heap p c Hp) as (o & Ho & <-).
    rewrite (aggregate_not_root a root (Group.p_self p)
               (Group.start (Some l) [] j0 p) o Ho Hc Hr).
    simpl. rewrite !bool_decide_eq_true_2 by done. reflexivity.
Qed.
End GroupRun.

Lemma lookup_map {X Y} (f : X → Y) (l : list X) (i : nat) :
  map f l !! i = f <$> l !! i.
Proof. revert i. induction l as [|x l IH]; intros [|i]; simpl; auto. Qed.

Lemma elem_of_enumerate_from {X} (l : list X) (j0 : nat) (jx : nat * X) :
  jx ∈ enumerate_from j0 l → ∃ i, jx.1 = j0 + i ∧ l !! i = Some jx.2.
Proof.
  intros [i Hi]%list_elem_of_lookup. rewrite enumerate_from_lookup in Hi.
  exists i. destruct (l !! i) as [x|]; [|done]. by injection Hi as <-.
Qed.

Lemma run_lookup {R} (method : loc → M R) (root : nat)
    (ps : list Group.process) (r : nat) :
  Group.run method root ps !! r
  = (λ p, method (Group.p_self p)
            (Group.start (Group.counts method ps)
               (if bool_decide (r = root) then Group.mail method root ps else [])
               r p)) <$> ps !! r.
Proof.
  unfold Group.run, Group.round, enumerate.
  rewrite lookup_map, enumerate_from_lookup. by destruct (ps !! r).
Qed.

Section GroupResult.
Context (a : aggregation) (root : nat).
Context (ps : list Group.process) (cs : list compiled).
Context (Hps : Forall2 (λ p c, collection_of p = Some c) ps cs).
Context (Hans : Forall (answers a) cs).
Context (c : compiled) (Hroot : cs !! root = Some c).
Context (Hshape : Forall (λ c', row_shape a c' = row_shape a c) cs).
Context (Hrange : Forall (λ c', Forall (λ i, i < get_total_number_probes c)
                                  (get_probe_ids c')) cs).

Lemma group_counts :
  Group.counts (aggregate a root) ps = Some (map local_size cs).
Proof.
  unfold Group.counts, Group.round, enumerate.
  apply (counts_from a root ps cs Hps Hans 0).
  intros i c' Hi Hr. simpl in Hr. subst i. rewrite Hroot in Hi.
  injection Hi as <-. apply (proj1 (Forall_lookup _ _) Hrange root c Hroot).
Qed.

Lemma group_mail :
  Group.mail (aggregate a root) root ps
  = mail_from root 0 (map (contribution a) cs).
Proof.
  unfold Group.mail. rewrite group_counts. unfold Group.round, enumerate.
  apply (mail_from_round a root _ ps cs Hps Hans 0).
Qed.

(** The process of the root. *)
Lemma group_root (p : Group.process) (o : pyobj) :
  ps !! root = Some p → Group.p_heap p !! Group.p_self p = Some o →
  cpp o = c →
  Group.run (aggregate a root) root ps !! root
  = Some (Ok (true, root_buffer a root cs c),
          World (local_heap a (Group.p_self p) o (Group.p_heap p))
            (Endpoint root (Some (map local_size cs)) []
               (EvGather (local_size c) root
                :: recv_events root 0 (length cs))
               (root_stores a root cs c))).
Proof.
  intros Hp Ho Hc. rewrite run_lookup, Hp. simpl.
  rewrite bool_decide_eq_true_2 by done. rewrite group_counts, group_mail.
  f_equal. subst c.
  pose proof (aggregate_root a (Group.p_self p)
    (Group.start (Some (map local_size cs))
       (mail_from root 0 (map (contribution a) cs)) root p) o
    (map local_size cs) (map (contribution a) cs)) as Hrun.
  simpl in Hrun. rewrite Hrun; clear Hrun.
  - unfold root_buffer, root_stores, with_stores, with_inbox, with_trace.
    simpl. by rewrite length_map.
  - done.
  - apply (proj1 (Forall_lookup _ _) Hans root _ Hroot).
  - apply (proj1 (Forall_lookup _ _) Hrange root _ Hroot).
  - done.
  - by rewrite !length_map.
  - done.
  - intros jc Hjc Hne. unfold enumerate in Hjc.
    rewrite enumerate_from_map in Hjc. apply list_elem_of_In in Hjc.
    apply in_map_iff in Hjc as ([j c'] & <- & Hjc). simpl in *.
    apply list_elem_of_In, elem_of_enumerate_from in Hjc as (i & _ & Hi).
    simpl in Hi. split.
    + apply (proj1 (Forall_lookup _ _) Hrange i c' Hi).
    + destruct (proj1 (Forall_lookup _ _) Hans i c' Hi) as [Hl _].
      rewrite Hl. f_equal. apply (proj1 (Forall_lookup _ _) Hshape i c' Hi).
Qed.

(** A process other than the root. *)
Lemma group_not_root (r : nat) (p : Group.process) (o : pyobj) :
  r ≠ root → ps !! r = Some p →
  Group.p_heap p !! Group.p_self p = Some o →
  Group.run (aggregate a root) root ps !! r
  = Some (Ok (false, local_buffer a false (cpp o)),
          World (local_heap a (Group.p_self p) o (Group.p_heap p))
            (Endpoint r (Some (map local_size cs)) []
               [EvGather (local_size (cpp o)) root;
                EvSend root 101 (PIds (get_probe_ids (cpp o)));
                EvSend root 102 (PArr (local_buffer a false (cpp o)))]
               (local_stores a false (cpp o)))).
Proof.
  intros Hr Hp Ho. rewrite run_lookup, Hp. simpl.
  rewrite bool_decide_eq_false_2 by done. rewrite group_counts. f_equal.
  assert (Hc : answers a (cpp o)).
  { destruct (Forall2_lookup_l _ _ _ _ _ Hps Hp) as (c' & Hc' & Hcol).
    unfold collection_of in Hcol. rewrite Ho in Hcol. injection Hcol as <-.
    apply (proj1 (Forall_lookup _ _) Hans r _ Hc'). }
  rewrite (aggregate_not_root a root (Group.p_self p)
             (Group.start (Some (map local_size cs)) [] r p) o Ho Hc Hr).
  reflexivity.
Qed.
End GroupResult.

(** *** From the aggregation to the method

    Lines 104-110 and 177-180 add at most the dump of a file to what a process
    has done, so the gather and the messages of a group are those of lines
    65-102 and 149-175. *)

Lemma gather_of_dump (t : list event) (path : string) (z : ndarray) :
  Group.gather_of (t ++ [EvDump path z]) = Group.gather_of t.
Proof. induction t as [|ev t IH]; [done|]. by destruct ev. Qed.

Lemma sends_to_dump (dest src : nat) (t : list event) (path : string)
    (z : ndarray) :
  Group.sends_to dest src (t ++ [EvDump path z]) = Group.sends_to dest src t.
Proof.
  induction t as [|ev t IH]; [done|]. destruct ev; simpl; try done.
  destruct (bool_decide (dest0 = dest)); by rewrite IH.
Qed.

Lemma finish_gather (a : aggregation) (filename : option string)
    (r : outcome (bool * ndarray) * world) :
  Group.gather_of (trace (ep (finish a filename r).2))
  = Group.gather_of (trace (ep r.2)).
Proof.
  destruct r as [[[[] z]| | |] w]; simpl; try done.
  destruct (truthy filename); simpl; [apply gather_of_dump|done].
Qed.

Lemma finish_sends (a : aggregation) (filename : option string)
    (dest src : nat) (r : outcome (bool * ndarray) * world) :
  Group.sends_to dest src (trace (ep (finish a filename r).2))
  = Group.sends_to dest src (trace (ep r.2)).
Proof.
  destruct r as [[[[] z]| | |] w]; simpl; try done.
  destruct (truthy filename); simpl; [apply sends_to_dump|done].
Qed.

Lemma round_array (a : aggregation) (filename : option string) (root : nat)
    (g : option (list nat)) (inb : nat → list message)
    (ps : list Group.process) :
  Group.round (array a filename root) g inb ps
  = map (finish a filename) (Group.round (aggregate a root) g inb ps).
Proof.
  unfold Group.round. rewrite map_map. apply map_ext. intros rp.
  apply array_finish.
Qed.

Lemma counts_array (a : aggregation) (filename : option string) (root : nat)
    (ps : list Group.process) :
  Group.counts (array a filename root) ps = Group.counts (aggregate a root) ps.
Proof.
  unfold Group.counts. rewrite round_array.
  induction (Group.round (aggregate a root) None (λ _, []) ps) as [|r l IH];
    [done|].
  simpl. by rewrite finish_gather, IH.
Qed.

Lemma mail_array (a : aggregation) (filename : option string) (root : nat)
    (ps : list Group.process) :
  Group.mail (array a filename root) root ps
  = Group.mail (aggregate a root) root ps.
Proof.
  unfold Group.mail. rewrite counts_array, round_array. unfold enumerate.
  generalize 0.
  induction (Group.round (aggregate a root)
               (Group.counts (aggregate a root) ps) (λ _, []) ps) as [|r l IH];
    intros j0; [done|].
  simpl. by rewrite finish_sends, IH.
Qed.

(** A run of the method is the run of the aggregation, each process followed
    by lines 104-110 or 177-180. *)
Lemma run_array (a : aggregation) (filename : option string) (root : nat)
    (ps : list Group.process) :
  Group.run (array a filename root) root ps
  = map (finish a filename) (Group.run (aggregate a root) root ps).
Proof.
  unfold Group.run. by rewrite counts_array, mail_array, round_array.
Qed.

Lemma run_array_lookup (a : aggregation) (filename : option string)
    (root : nat) (ps : list Group.process) (r : nat) :
  Group.run (array a filename root) root ps !! r
  = finish a filename <$> Group.run (aggregate a root) root ps !! r.
Proof. by rewrite run_array, lookup_map. Qed.

(** ** The rows that are assigned *)

Lemma map_fst_zip {X Y} (l : list X) (k : list Y) :
  length l ≤ length k → map fst (zip l k) = l.
Proof.
  revert k. induction l as [|x l IH]; intros [|y k] Hl; simpl in *;
    [done|done|lia|]. f_equal. apply IH. lia.
Qed.

Lemma map_flat_map {X Y Z} (f : Y → Z) (g : X → list Y) (l : list X) :
  map f (flat_map g l) = flat_map (λ x, map f (g x)) l.
Proof.
  induction l as [|x l IH]; simpl; [done|]. by rewrite map_app, IH.
Qed.

Lemma flat_map_ext_elem {X Y} (f g : X → list Y) (l : list X) :
  (∀ x, x ∈ l → f x = g x) → flat_map f l = flat_map g l.
Proof.
  induction l as [|x l IH]; intros Hfg; simpl; [done|].
  rewrite Hfg by left. rewrite IH; [done|]. intros y Hy. apply Hfg. by right.
Qed.

Lemma flat_map_cons_split {X Y} (g : X → Y) (h : X → list Y) (l : list X) :
  flat_map (λ x, g x :: h x) l ≡ₚ map g l ++ flat_map h l.
Proof.
  induction l as [|x l IH]; simpl; [done|]. constructor.
  rewrite IH. apply Permutation_app_swap_app.
Qed.

Lemma flat_map_swap {X Y Z} (f : X → Y → Z) (rows : list X) (ks : list Y) :
  flat_map (λ k, map (λ i, f i k) rows) ks
  ≡ₚ flat_map (λ i, map (λ k, f i k) ks) rows.
Proof.
  induction ks as [|k ks IH]; simpl.
  - by rewrite flat_map_const_nil.
  - rewrite IH. symmetry. apply (flat_map_cons_split (λ i, f i k)).
Qed.

Lemma flat_map_Permutation {X Y} (f : X → list Y) (l l' : list X) :
  l ≡ₚ l' → flat_map f l ≡ₚ flat_map f l'.
Proof.
  induction 1 as [|x l l' _ IH|x y l|l l' l'' _ IH1 _ IH2]; simpl.
  - done.
  - by rewrite IH.
  - rewrite !app_assoc. f_equiv. apply Permutation_app_comm.
  - by rewrite IH1.
Qed.

Lemma map_add_seq (b s n : nat) : map (λ k, b + k) (seq s n) = seq (b + s) n.
Proof.
  revert s. induction n as [|n IH]; intros s; simpl; [done|].
  f_equal. rewrite IH. f_equal. lia.
Qed.

Lemma seq_blocks (b ne n : nat) :
  flat_map (λ k, seq ((b + k) * ne) ne) (seq 0 n) = seq (b * ne) (n * ne).
Proof.
  induction n as [|n IH]; [done|].
  rewrite seq_S, flat_map_app, IH. simpl. rewrite app_nil_r.
  replace (ne + n * ne) with (n * ne + ne) by lia. rewrite seq_app.
  f_equal. f_equal. lia.
Qed.

Lemma flat_map_rows_seq (rs total : nat) :
  flat_map (row_cells rs) (seq 0 total) = seq 0 (total * rs).
Proof. apply (seq_blocks 0 rs total). Qed.

Lemma flat_map_enumerate_snd {X Y} (g : X → list Y) (l : list X) (j0 : nat) :
  flat_map (λ jx : nat * X, g jx.2) (enumerate_from j0 l) = flat_map g l.
Proof.
  revert j0. induction l as [|x l IH]; intros j0; simpl; [done|].
  by rewrite IH.
Qed.

Lemma rows_of_length (b : bool) (c : compiled) :
  length (get_probe_ids c) = local_size c → length (rows_of b c) = local_size c.
Proof. destruct b; simpl; [done|by rewrite length_seq]. Qed.

(** A process assigns, from its own values, the cells of the rows that
    [rows_of] lists, each once per occurrence of the row in the list. *)
Lemma local_stores_positions (a : aggregation) (b : bool) (c : compiled) :
  answers a c →
  map fst (local_stores a b c)
  ≡ₚ flat_map (row_cells (row_size a c)) (rows_of b c).
Proof.
  intros [Hids Hans]. pose proof (rows_of_length b c Hids) as Hrl.
  assert (Hsnap : ∀ n,
    snapshot_of a = Some n →
    (∀ k, k < comp_of a c →
       ∃ v, get_probes_component_and_snapshot c k n = inr v
            ∧ length v = local_size c) →
    map fst (local_stores a b c)
    ≡ₚ flat_map (row_cells (row_size a c)) (rows_of b c)).
  { intros n Hn Hcols. unfold local_stores, row_size, row_shape.
    rewrite Hn, map_flat_map.
    rewrite (flat_map_ext_elem _
               (λ k, map (λ i, i * comp_of a c + k) (rows_of b c))).
    2:{ intros k Hk%elem_of_seq. apply map_fst_zip.
        destruct (Hcols k) as (v & Hv & Hl); [lia|].
        unfold column. rewrite Hv, length_map. lia. }
    rewrite (flat_map_swap (λ i k, i * comp_of a c + k)).
    erewrite flat_map_ext; [reflexivity|]. intros i. simpl.
    unfold row_cells. rewrite Nat.mul_1_r, map_add_seq. f_equal. lia. }
  destruct a as [fuel [n|] component|n component].
  - by apply (Hsnap n).
  - destruct Hans as (_ & Hcomp & Hprobes & _).
    assert (Hvs : value_size c = comp_of (ProbesArray fuel None component) c).
    { unfold comp_of. simpl. destruct component; [|done]. by destruct Hcomp. }
    unfold local_stores, row_size, row_shape. simpl snapshot_of. cbv iota.
    rewrite map_flat_map.
    rewrite (flat_map_ext_elem _
      (λ ij : nat * nat,
         row_cells (prod_list [comp_of (ProbesArray fuel None component) c;
                               number_of_evaluations c]) ij.2)).
    { unfold enumerate. rewrite (flat_map_enumerate_snd (row_cells _)). done. }
    intros [i j] Hij. apply elem_of_enumerate_from in Hij as (i' & Hi & Hj).
    simpl in Hi, Hj. subst i'. apply lookup_lt_Some in Hj. rewrite Hrl in Hj.
    destruct (Hprobes i Hj) as (_ & p & Hp & Hsub).
    rewrite map_flat_map. simpl fst. simpl snd.
    rewrite (flat_map_ext_elem _
      (λ k, seq ((j * comp_of (ProbesArray fuel None component) c + k)
                 * number_of_evaluations c) (number_of_evaluations c))).
    2:{ intros k Hk%elem_of_seq. apply map_fst_zip.
        destruct (Hsub k) as (v & Hv & Hl); [lia|].
        unfold history, sub_history. rewrite Hp, Hv, length_seq. lia. }
    rewrite Hvs, seq_blocks. unfold row_cells. simpl.
    rewrite Nat.mul_1_r. f_equal. lia.
  - destruct Hans as [_ Hans]. by apply (Hsnap n).
Qed.

Lemma length_flat_map_rows (rs : nat) (ids : list nat) :
  length (flat_map (row_cells rs) ids) = length ids * rs.
Proof.
  induction ids as [|i ids IH]; simpl; [done|].
  rewrite length_app, IH. unfold row_cells. rewrite length_seq. lia.
Qed.

Lemma local_buffer_length (a : aggregation) (b : bool) (c : compiled) :
  length (data (local_buffer a b c)) = size_of b c * row_size a c.
Proof.
  unfold local_buffer. simpl. by rewrite length_store_cells, length_replicate.
Qed.

Lemma scatter_positions (a : aggregation) (root : nat) (c : compiled)
    (cs : list compiled) :
  Forall (answers a) cs → Forall (λ c', row_shape a c' = row_shape a c) cs →
  ∀ j0,
    map fst (scatter_stores (row_size a c) root j0 (map (contribution a) cs))
    = flat_map (λ jc : nat * compiled,
                  if bool_decide (jc.1 = root) then []
                  else flat_map (row_cells (row_size a c)) (get_probe_ids jc.2))
               (enumerate_from j0 cs).
Proof.
  induction cs as [|c' cs IH]; intros Hans Hsh j0; [done|].
  apply Forall_cons in Hans as [[Hl _] Hans]. apply Forall_cons in Hsh as [Hc' Hsh].
  unfold scatter_stores. simpl. rewrite map_app.
  unfold scatter_stores in IH. rewrite (IH Hans Hsh (S j0)). f_equal.
  destruct (bool_decide (j0 = root)); [done|]. apply map_fst_zip.
  pose proof (local_buffer_length a false c') as Hlb.
  rewrite length_flat_map_rows. simpl in Hlb |- *. rewrite Hlb.
  unfold row_size. rewrite Hc', Hl. done.
Qed.

Lemma flat_map_skip_absent {X Y} (f : X → list Y) (l : list X) (j0 r : nat) :
  r < j0 →
  flat_map (λ jx : nat * X, if bool_decide (jx.1 = r) then [] else f jx.2)
           (enumerate_from j0 l)
  = flat_map f l.
Proof.
  intros Hr. rewrite <- (flat_map_enumerate_snd f l j0).
  apply flat_map_ext_elem. intros jx (i & Hi & _)%elem_of_enumerate_from.
  rewrite bool_decide_eq_false_2; [done|lia].
Qed.

(** The values of one member of a list in front, the others behind. *)
Lemma flat_map_member_first {X Y} (f : X → list Y) (l : list X) :
  ∀ (i j0 : nat) (x : X),
    l !! i = Some x →
    flat_map f l
    ≡ₚ f x ++ flat_map (λ jx : nat * X,
                          if bool_decide (jx.1 = j0 + i) then [] else f jx.2)
                       (enumerate_from j0 l).
Proof.
  induction l as [|y l IH]; intros i j0 x Hi; [done|].
  destruct i as [|i]; simpl in *.
  - injection Hi as ->. rewrite Nat.add_0_r, bool_decide_eq_true_2 by done.
    simpl. by rewrite flat_map_skip_absent by lia.
  - rewrite bool_decide_eq_false_2 by lia.
    rewrite (IH i (S j0) x Hi). replace (S j0 + i) with (j0 + S i) by lia.
    apply Permutation_app_swap_app.
Qed.

Lemma flat_map_flat_map {X Y Z} (f : Y → list Z) (g : X → list Y) (l : list X) :
  flat_map f (flat_map g l) = flat_map (λ x, flat_map f (g x)) l.
Proof.
  induction l as [|x l IH]; simpl; [done|]. by rewrite flat_map_app, IH.
Qed.

(** The root assigns the cells of the row of every id of every process,
    once per occurrence of the id. *)
Lemma root_stores_positions (a : aggregation) (root : nat) (cs : list compiled)
    (c : compiled) :
  Forall (answers a) cs → cs !! root = Some c →
  Forall (λ c', row_shape a c' = row_shape a c) cs →
  map fst (root_stores a root cs c)
  ≡ₚ flat_map (row_cells (row_size a c)) (flat_map get_probe_ids cs).
Proof.
  intros Hans Hroot Hsh. unfold root_stores.
  rewrite map_app, (scatter_positions a root c cs Hans Hsh 0).
  rewrite (local_stores_positions a true c)
    by apply (proj1 (Forall_lookup _ _) Hans root c Hroot).
  rewrite flat_map_flat_map. symmetry.
  apply (flat_map_member_first
           (λ c', flat_map (row_cells (row_size a c)) (get_probe_ids c'))
           cs root 0 c Hroot).
Qed.

Lemma distributed_range (a : aggregation) (root : nat) ps cs total c :
  distributed a root ps cs total → cs !! root = Some c →
  Forall (λ c', Forall (λ i, i < get_total_number_probes c) (get_probe_ids c')) cs.
Proof.
  intros (_ & _ & (c0 & Hc0 & Htot & _) & Hperm) Hc.
  rewrite Hc in Hc0. injection Hc0 as <-. rewrite Htot.
  apply Forall_forall. intros c' Hc'. apply Forall_forall. intros i Hi.
  assert (Hin : i ∈ flat_map get_probe_ids cs).
  { apply list_elem_of_In, in_flat_map. exists c'.
    split; by apply list_elem_of_In. }
  rewrite Hperm in Hin. apply elem_of_seq in Hin. lia.
Qed.

(** C1.  In a group in which [total] probes are distributed, whatever the
    distribution, the array [z] of the root, which the method returns
    squeezed, has [total] rows when the communication is over; the
    assignments the root has made to it during the
    call are those of the cells of the row of each id of each process; and
    they are the cells of [z], each assigned once: no row is left out and
    none is assigned twice.  This holds for [Probes.array] and for
    [StatisticsProbes.array]. *)
Theorem aggregation_covers_every_id (a : aggregation)
    (filename : option string) (root : nat) (ps : list Group.process)
    (cs : list compiled) (total : nat) :
  distributed a root ps cs total →
  ∃ (c : compiled) (z : ndarray) (w : world),
    cs !! root = Some c
    ∧ Group.run (aggregate a root) root ps !! root = Some (Ok (true, z), w)
    ∧ (∃ w', Group.run (array a filename root) root ps !! root
             = Some (Ok (Some (squeeze z)), w'))
    ∧ shape z = total :: row_shape a c
    ∧ length (data z) = total * row_size a c
    ∧ data z = store_cells (stores (ep w)) (replicate (total * row_size a c) 0%Z)
    ∧ map fst (stores (ep w))
      ≡ₚ flat_map (row_cells (row_size a c)) (flat_map get_probe_ids cs)
    ∧ map fst (stores (ep w)) ≡ₚ seq 0 (total * row_size a c).
Proof.
  intros Hd. pose proof Hd as (Hps & Hans & (c & Hroot & Htot & Hsh) & Hperm).
  pose proof (distributed_range a root ps cs total c Hd Hroot) as Hrange.
  destruct (Forall2_lookup_r _ _ _ _ _ Hps Hroot) as (p & Hp & Hcol).
  destruct (collection_of_heap p c Hcol) as (o & Ho & Hc).
  pose proof (group_root a root ps cs Hps Hans c Hroot Hsh Hrange p o Hp Ho Hc)
    as Hrun.
  exists c, (root_buffer a root cs c). eexists. split; [done|].
  split; [exact Hrun|].
  split; [rewrite run_array_lookup, Hrun; by eexists|].
  assert (Hpos : map fst (root_stores a root cs c)
                 ≡ₚ flat_map (row_cells (row_size a c)) (flat_map get_probe_ids cs))
    by (by apply root_stores_positions).
  simpl. rewrite Htot. split; [done|].
  split; [by rewrite length_store_cells, length_replicate|].
  split; [done|]. split; [done|].
  rewrite Hpos, (flat_map_Permutation _ _ _ Hperm). by rewrite flat_map_rows_seq.
Qed.

(** ** What the rows hold *)

Lemma recv_events_other_ranks (root : nat) (l : list nat) :
  flat_map (λ j, if bool_decide (j = root) then [] else [EvRecv j 101; EvRecv j 102]) l
  = flat_map (λ j, [EvRecv j 101; EvRecv j 102]) (filter (λ j, j ≠ root) l).
Proof.
  induction l as [|j l IH]; [done|]. rewrite filter_cons. simpl. rewrite IH.
  destruct (decide (j = root)) as [Hj|Hj].
  - rewrite bool_decide_eq_true_2 by done. by rewrite decide_False by tauto.
  - rewrite bool_decide_eq_false_2 by done. by rewrite decide_True by done.
Qed.

Lemma lookup_flat_map_rows (rs : nat) (ids : list nat) :
  ∀ l g t, ids !! l = Some g → t < rs →
    flat_map (row_cells rs) ids !! (l * rs + t) = Some (g * rs + t).
Proof.
  induction ids as [|i ids IH]; intros l g t Hl Ht; [done|].
  simpl. destruct l as [|l]; simpl in Hl.
  - injection Hl as ->. rewrite lookup_app_l by (unfold row_cells; rewrite length_seq; lia).
    unfold row_cells. apply lookup_seq. simpl. lia.
  - rewrite lookup_app_r by (unfold row_cells; rewrite length_seq; lia).
    unfold row_cells at 1. rewrite length_seq.
    replace (S l * rs + t - rs) with (l * rs + t) by lia. by apply IH.
Qed.

Lemma zip_rows_member (rs : nat) (ids : list nat) (d : list float64)
    (l g t : nat) (v : float64) :
  ids !! l = Some g → t < rs → d !! (l * rs + t) = Some v →
  (g * rs + t, v) ∈ zip (flat_map (row_cells rs) ids) d.
Proof.
  intros Hl Ht Hv. apply (list_elem_of_lookup_2 _ (l * rs + t)).
  apply lookup_zip_with_Some. exists (g * rs + t), v.
  split; [done|]. split; [by apply lookup_flat_map_rows|done].
Qed.

Lemma scatter_member (a : aggregation) (root rs : nat) (cs : list compiled)
    (r : nat) (cr : compiled) (pw : nat * float64) :
  cs !! r = Some cr → r ≠ root →
  pw ∈ zip (flat_map (row_cells rs) (get_probe_ids cr))
           (data (local_buffer a false cr)) →
  pw ∈ scatter_stores rs root 0 (map (contribution a) cs).
Proof.
  intros Hr Hne Hpw. unfold scatter_stores.
  apply list_elem_of_In, in_flat_map. exists (r, contribution a cr). split.
  - apply list_elem_of_In, (list_elem_of_lookup_2 _ r).
    by rewrite enumerate_from_lookup, lookup_map, Hr.
  - simpl. rewrite bool_decide_eq_false_2 by done. by apply list_elem_of_In.
Qed.

Lemma row_lookup (rs i : nat) (d : list float64) (t : nat) :
  row rs i d !! t = if decide (t < rs) then d !! (i * rs + t) else None.
Proof.
  unfold row. destruct (decide (t < rs)).
  - by rewrite lookup_take_lt, lookup_drop.
  - apply lookup_take_ge. lia.
Qed.

Section Rows.
Context (a : aggregation) (root : nat) (ps : list Group.process)
        (cs : list compiled) (total : nat).
Context (Hd : distributed a root ps cs total).
Context (c : compiled) (Hroot : cs !! root = Some c).

Lemma root_stores_NoDup : NoDup (map fst (root_stores a root cs c)).
Proof.
  destruct Hd as (_ & Hans & (c0 & Hc0 & _ & Hsh) & Hperm).
  rewrite Hroot in Hc0. injection Hc0 as <-.
  rewrite (root_stores_positions a root cs c Hans Hroot Hsh).
  rewrite (flat_map_Permutation _ _ _ Hperm), flat_map_rows_seq.
  apply NoDup_seq.
Qed.

Lemma root_stores_in_range (pw : nat * float64) :
  pw ∈ root_stores a root cs c → pw.1 < total * row_size a c.
Proof.
  intros Hpw. destruct Hd as (_ & Hans & (c0 & Hc0 & _ & Hsh) & Hperm).
  rewrite Hroot in Hc0. injection Hc0 as <-.
  assert (Hin : pw.1 ∈ map fst (root_stores a root cs c)).
  { apply list_elem_of_In, in_map. by apply list_elem_of_In. }
  rewrite (root_stores_positions a root cs c Hans Hroot Hsh) in Hin.
  rewrite (flat_map_Permutation _ _ _ Hperm), flat_map_rows_seq in Hin.
  apply elem_of_seq in Hin. lia.
Qed.

(** A cell that the root assigns holds the value assigned. *)
Lemma root_buffer_lookup (i : nat) (v : float64) :
  (i, v) ∈ root_stores a root cs c →
  data (root_buffer a root cs c) !! i = Some v.
Proof.
  intros Hiv. unfold root_buffer. simpl.
  apply store_cells_lookup; [apply root_stores_NoDup|done|].
  rewrite length_replicate.
  pose proof (root_stores_in_range _ Hiv) as Hlt. simpl in Hlt.
  destruct Hd as (_ & _ & (c0 & Hc0 & Htot & _) & _).
  rewrite Hroot in Hc0. injection Hc0 as <-. rewrite Htot. exact Hlt.
Qed.

(** The row of an id of another process holds the row that the process
    sent for it. *)
Lemma root_buffer_row (r : nat) (cr : compiled) (l g : nat) :
  r ≠ root → cs !! r = Some cr → get_probe_ids cr !! l = Some g →
  row (row_size a c) g (data (root_buffer a root cs c))
  = row (row_size a c) l (data (local_buffer a false cr)).
Proof.
  intros Hr Hcr Hl. apply list_eq. intros t. rewrite !row_lookup.
  destruct (decide (t < row_size a c)) as [Ht|]; [|done].
  assert (Hlen : length (data (local_buffer a false cr))
                 = length (get_probe_ids cr) * row_size a c).
  { destruct Hd as (_ & Hans & (c0 & Hc0 & _ & Hsh) & _).
    rewrite Hroot in Hc0. injection Hc0 as <-.
    rewrite local_buffer_length. simpl. unfold row_size.
    rewrite (proj1 (Forall_lookup _ _) Hsh r cr Hcr).
    by destruct (proj1 (Forall_lookup _ _) Hans r cr Hcr) as [-> _]. }
  destruct (data (local_buffer a false cr) !! (l * row_size a c + t))
    as [v|] eqn:Hv.
  - apply root_buffer_lookup. unfold root_stores.
    apply elem_of_app. right.
    apply (scatter_member a root _ cs r cr _ Hcr Hr).
    by apply (zip_rows_member _ _ _ l g t v).
  - apply lookup_ge_None in Hv. apply lookup_lt_Some in Hl.
    rewrite Hlen in Hv. nia.
Qed.
End Rows.

(** C6.  In a group in which the probes are distributed, the root, after the
    gather, receives from the processes of the other ranks in increasing
    order of rank, from each first the message with tag 101 and then the one
    with tag 102 and nothing else; a process of another rank has sent to the
    root its id list with tag 101 and its array with tag 102; and the row of
    the array of the root whose index is the id at position [l] of that list
    holds the row [l] of that array. *)
Theorem root_receives_by_rank_and_scatters_by_id (a : aggregation) (root : nat)
    (ps : list Group.process) (cs : list compiled) (total : nat) :
  distributed a root ps cs total →
  ∃ (c : compiled) (z : ndarray) (w : world),
    cs !! root = Some c
    ∧ Group.run (aggregate a root) root ps !! root = Some (Ok (true, z), w)
    ∧ trace (ep w)
      = EvGather (local_size c) root
        :: flat_map (λ j, [EvRecv j 101; EvRecv j 102])
                    (other_ranks root (length ps))
    ∧ ∀ r cr, r ≠ root → cs !! r = Some cr →
        ∃ (zr : ndarray) (wr : world),
          Group.run (aggregate a root) root ps !! r = Some (Ok (false, zr), wr)
          ∧ trace (ep wr)
            = [EvGather (local_size cr) root;
               EvSend root 101 (PIds (get_probe_ids cr));
               EvSend root 102 (PArr zr)]
          ∧ ∀ l g, get_probe_ids cr !! l = Some g →
              row (row_size a c) g (data z) = row (row_size a c) l (data zr).
Proof.
  intros Hd. pose proof Hd as (Hps & Hans & (c & Hroot & Htot & Hsh) & Hperm).
  pose proof (distributed_range a root ps cs total c Hd Hroot) as Hrange.
  destruct (Forall2_lookup_r _ _ _ _ _ Hps Hroot) as (p & Hp & Hcol).
  destruct (collection_of_heap p c Hcol) as (o & Ho & Hc).
  exists c, (root_buffer a root cs c). eexists. split; [done|].
  split; [apply (group_root a root ps cs Hps Hans c Hroot Hsh Hrange p o Hp Ho Hc)|].
  split.
  - simpl. f_equal. unfold recv_events, other_ranks.
    rewrite recv_events_other_ranks. by rewrite (Forall2_length _ _ _ Hps).
  - intros r cr Hr Hcr.
    destruct (Forall2_lookup_r _ _ _ _ _ Hps Hcr) as (pr & Hpr & Hcolr).
    destruct (collection_of_heap pr cr Hcolr) as (or & Hor & <-).
    exists (local_buffer a false (cpp or)). eexists.
    split; [apply (group_not_root a root ps cs Hps Hans c Hroot Hrange
                     r pr or Hr Hpr Hor)|].
    split; [done|]. intros l g Hl.
    by apply (root_buffer_row a root ps cs total Hd c Hroot r (cpp or) l g).
Qed.

(** ** The values of a snapshot *)

Lemma local_stores_member (a : aggregation) (b : bool) (c : compiled) (n : Z)
    (l g k : nat) (v : float64) :
  snapshot_of a = Some n → rows_of b c !! l = Some g → k < comp_of a c →
  column c k n !! l = Some v →
  (g * comp_of a c + k, v) ∈ local_stores a b c.
Proof.
  intros Hn Hl Hk Hv. unfold local_stores. rewrite Hn.
  apply list_elem_of_In, in_flat_map. exists k. split.
  - apply list_elem_of_In, elem_of_seq. lia.
  - apply list_elem_of_In, (list_elem_of_lookup_2 _ l).
    apply lookup_zip_with_Some. exists (g * comp_of a c + k), v.
    split; [done|]. split; [|done]. by rewrite lookup_map, Hl.
Qed.

Lemma row_size_snapshot (a : aggregation) (c : compiled) (n : Z) :
  snapshot_of a = Some n → row_size a c = comp_of a c.
Proof.
  intros Hn. unfold row_size, row_shape. rewrite Hn. simpl. lia.
Qed.

(** The array of a process other than the root holds, at row [l] and column
    [k], the value of component [k] of its probe of index [l]. *)
Lemma local_buffer_snapshot_lookup (a : aggregation) (c : compiled) (n : Z)
    (l k : nat) (v : float64) :
  answers a c → snapshot_of a = Some n → k < comp_of a c →
  column c k n !! l = Some v → l < local_size c →
  data (local_buffer a false c) !! (l * comp_of a c + k) = Some v.
Proof.
  intros Hans Hn Hk Hv Hl. unfold local_buffer. simpl.
  pose proof (local_stores_positions a false c Hans) as Hpos.
  simpl in Hpos. rewrite flat_map_rows_seq in Hpos.
  apply store_cells_lookup.
  - rewrite Hpos. apply NoDup_seq.
  - apply (local_stores_member a false c n l l k v Hn); [|done|done].
    simpl. apply lookup_seq. lia.
  - rewrite length_replicate.
    change (prod_list (row_shape a c)) with (row_size a c).
    rewrite (row_size_snapshot a c n Hn). nia.
Qed.

(** In a group in which the probes are distributed, the array of the root
    holds, at the row of an id and at column [k], the value of component [k]
    of the probe with this id, whichever process has it. *)
Lemma root_buffer_snapshot_lookup (a : aggregation) (root : nat)
    (ps : list Group.process) (cs : list compiled) (total : nat) (c : compiled)
    (n : Z) (r : nat) (cr : compiled) (l g k : nat) (v : float64) :
  distributed a root ps cs total → cs !! root = Some c →
  snapshot_of a = Some n → cs !! r = Some cr →
  get_probe_ids cr !! l = Some g → k < comp_of a c →
  column cr k n !! l = Some v →
  data (root_buffer a root cs c) !! (g * comp_of a c + k) = Some v.
Proof.
  intros Hd Hroot Hn Hcr Hl Hk Hv.
  pose proof Hd as (Hps & Hans & (c0 & Hc0 & Htot & Hsh) & Hperm).
  rewrite Hroot in Hc0. injection Hc0 as <-.
  destruct (decide (r = root)) as [->|Hr].
  - rewrite Hroot in Hcr. injection Hcr as <-.
    apply (root_buffer_lookup a root ps cs total Hd c Hroot).
    unfold root_stores. apply elem_of_app. left.
    by apply (local_stores_member a true c n l g k v).
  - pose proof (root_buffer_row a root ps cs total Hd c Hroot r cr l g Hr Hcr Hl)
      as Hrow.
    assert (Hcomp : comp_of a cr = comp_of a c).
    { pose proof (proj1 (Forall_lookup _ _) Hsh r cr Hcr) as Hs.
      unfold row_shape in Hs. rewrite Hn in Hs. by injection Hs. }
    pose proof (f_equal (λ d, d !! k) Hrow) as Hk'. cbv beta in Hk'.
    rewrite !row_lookup, (row_size_snapshot a c n Hn) in Hk'.
    rewrite !decide_True in Hk' by done. rewrite Hk', <- Hcomp.
    pose proof (proj1 (Forall_lookup _ _) Hans r cr Hcr) as Hansr.
    apply (local_buffer_snapshot_lookup a cr n l k v Hansr Hn);
      [by rewrite Hcomp|done|].
    apply lookup_lt_Some in Hl. by destruct Hansr as [<- _].
Qed.

(** C8.  A component argument other than [None] is looked at only to see
    that it is not [None]: [Probes.array] with a snapshot and
    [StatisticsProbes.array] are the same computation for any two such
    arguments.  In a group in which the probes are distributed, the array [z]
    of the root (the method returns it squeezed) then has one value column,
    and the row of every id holds the value of component 0 of the probe with
    this id. *)
Theorem component_argument_only_narrows_the_array :
  (∀ fuel self n filename x x' root,
     Probes.array fuel self (Some n) filename (Some x) root
     = Probes.array fuel self (Some n) filename (Some x') root)
  ∧ (∀ self n filename x x' root,
       StatisticsProbes.array self n filename (Some x) root
       = StatisticsProbes.array self n filename (Some x') root)
  ∧ ∀ (a : aggregation) (filename : option string) (root : nat)
      (ps : list Group.process) (cs : list compiled) (total : nat) (n x : Z),
      snapshot_of a = Some n → component_of a = Some x →
      distributed a root ps cs total →
      ∃ (z : ndarray) (w : world),
        Group.run (aggregate a root) root ps !! root = Some (Ok (true, z), w)
        ∧ (∃ w', Group.run (array a filename root) root ps !! root
                 = Some (Ok (Some (squeeze z)), w'))
        ∧ shape z = [total; 1]
        ∧ ∀ r cr l g column0,
            cs !! r = Some cr → get_probe_ids cr !! l = Some g →
            get_probes_component_and_snapshot cr 0 n = inr column0 →
            data z !! g = column0 !! l.
Proof.
  split; [reflexivity|]. split; [reflexivity|].
  intros a filename root ps cs total n x Hn Hx Hd.
  pose proof Hd as (Hps & Hans & (c & Hroot & Htot & Hsh) & Hperm).
  pose proof (distributed_range a root ps cs total c Hd Hroot) as Hrange.
  destruct (Forall2_lookup_r _ _ _ _ _ Hps Hroot) as (p & Hp & Hcol).
  destruct (collection_of_heap p c Hcol) as (o & Ho & Hc).
  assert (Hcomp : ∀ c', comp_of a c' = 1) by (intros c'; unfold comp_of; by rewrite Hx).
  pose proof (group_root a root ps cs Hps Hans c Hroot Hsh Hrange p o Hp Ho Hc)
    as Hrun.
  exists (root_buffer a root cs c). eexists. split; [exact Hrun|].
  split; [rewrite run_array_lookup, Hrun; by eexists|].
  split.
  { simpl. unfold row_shape. by rewrite Hn, Hcomp, Htot. }
  intros r cr l g column0 Hcr Hl Hcol0.
  pose proof (proj1 (Forall_lookup _ _) Hans r cr Hcr) as [Hlen Hansr].
  assert (Hcl : length column0 = local_size cr).
  { destruct a as [fuel [n'|] component|n' component]; simpl in Hn; [| done |].
    - injection Hn as ->. destruct (Hansr 0) as (v & Hv & Hlv); [rewrite Hcomp; lia|].
      rewrite Hcol0 in Hv. by injection Hv as ->.
    - injection Hn as ->. destruct Hansr as [_ Hansr].
      destruct (Hansr 0) as (v & Hv & Hlv); [rewrite Hcomp; lia|].
      rewrite Hcol0 in Hv. by injection Hv as ->. }
  assert (Hl' : l < length column0).
  { rewrite Hcl, <- Hlen. by apply lookup_lt_Some in Hl. }
  destruct (lookup_lt_is_Some_2 _ _ Hl') as [v Hv]. rewrite Hv.
  pose proof (root_buffer_snapshot_lookup a root ps cs total c n r cr l g 0 v
                Hd Hroot Hn Hcr Hl) as Hlook.
  rewrite Hcomp in Hlook. replace (g * 1 + 0) with g in Hlook by lia.
  apply Hlook; [lia|]. unfold column. by rewrite Hcol0.
Qed.

(** ** What a call leaves behind *)

Lemma same_up_to_cursor_refl (self : loc) (h : gmap loc pyobj) :
  same_up_to_cursor self h h.
Proof. by split. Qed.

Lemma same_up_to_cursor_sym (self : loc) (h1 h2 : gmap loc pyobj) :
  same_up_to_cursor self h1 h2 → same_up_to_cursor self h2 h1.
Proof. intros [H1 H2]. split; [intros l Hl; symmetry; by apply H1|done]. Qed.

Lemma same_up_to_cursor_trans (self : loc) (h1 h2 h3 : gmap loc pyobj) :
  same_up_to_cursor self h1 h2 → same_up_to_cursor self h2 h3 →
  same_up_to_cursor self h1 h3.
Proof.
  intros [H1 H2] [H3 H4]. split; [|congruence].
  intros l Hl. rewrite H1 by done. by apply H3.
Qed.

Lemma same_up_to_cursor_set (self : loc) (h : gmap loc pyobj) (o : pyobj)
    (x : option Z) :
  h !! self = Some o → same_up_to_cursor self h (<[self := set_i x o]> h).
Proof.
  intros Ho. split.
  - intros l Hl. by rewrite lookup_insert_ne.
  - by rewrite lookup_insert_eq, Ho.
Qed.

Section Frames.
Context (self : loc).

Lemma moves_bind {A B} (m : M A) (f : A → M B) :
  moves_cursor_only self m → (∀ a, moves_cursor_only self (f a)) →
  moves_cursor_only self (m ≫= f).
Proof.
  intros Hm Hf w. rewrite run_bind. specialize (Hm w).
  destruct (m w) as [[x| | |] w']; simpl in *; try done.
  eapply same_up_to_cursor_trans; [exact Hm|apply Hf].
Qed.

Lemma keeps_moves {A} (m : M A) : keeps_heap m → moves_cursor_only self m.
Proof. intros Hm w. rewrite Hm. apply same_up_to_cursor_refl. Qed.

Lemma keeps_bind {A B} (m : M A) (f : A → M B) :
  keeps_heap m → (∀ a, keeps_heap (f a)) → keeps_heap (m ≫= f).
Proof.
  intros Hm Hf w. rewrite run_bind. specialize (Hm w).
  destruct (m w) as [[x| | |] w']; simpl in *; try done.
  by rewrite Hf.
Qed.

Lemma keeps_lift {A} (c : C A) : keeps_heap (lift c).
Proof. intros w. by rewrite run_lift. Qed.

Lemma keeps_mret {A} (x : A) : keeps_heap (mret x : M A).
Proof. by intros w. Qed.

Lemma keeps_raise {A} (e : exn) : keeps_heap (raise e : M A).
Proof. by intros w. Qed.

Lemma keeps_call {A} (r : exn + A) : keeps_heap (call r).
Proof. by destruct r. Qed.

Lemma keeps_cpp_of (l : loc) : keeps_heap (cpp_of l).
Proof. intros w. unfold cpp_of. by destruct (heap w !! l). Qed.

Lemma keeps_for_each {X A} (l : list X) (body : X → A → M A) :
  (∀ x acc, keeps_heap (body x acc)) → ∀ acc, keeps_heap (for_each l acc body).
Proof.
  intros Hb. induction l as [|x l IH]; intros acc; [by intros w|].
  intros w. rewrite for_each_consM. by apply keeps_bind.
Qed.

Lemma moves_setattr_i (v : Z) : moves_cursor_only self (setattr_i self v).
Proof.
  intros w. unfold setattr_i. destruct (heap w !! self) as [o|] eqn:Ho; simpl.
  - by apply same_up_to_cursor_set.
  - apply same_up_to_cursor_refl.
Qed.

Lemma moves_next : moves_cursor_only self (Probes.next self).
Proof.
  intros w. rewrite next_run.
  destruct (element_value self w) as [x|e| |]; simpl;
    try apply same_up_to_cursor_refl.
  destruct (heap w !! self) as [o|] eqn:Ho; simpl.
  - by apply same_up_to_cursor_set.
  - apply same_up_to_cursor_refl.
Qed.

Lemma moves_for_enumerate {X A} (next : M X) (body : nat → X → A → M A) :
  moves_cursor_only self next →
  (∀ i x acc, moves_cursor_only self (body i x acc)) →
  ∀ fuel i acc, moves_cursor_only self (for_enumerate fuel next i acc body).
Proof.
  intros Hn Hb. induction fuel as [|fuel IH]; intros i acc w; simpl.
  - apply same_up_to_cursor_refl.
  - specialize (Hn w). destruct (next w) as [[x|e| |] w']; simpl in *;
      try done.
    + eapply same_up_to_cursor_trans; [exact Hn|].
      apply moves_bind; [apply Hb|]. intros acc'. apply IH.
    + by destruct e.
Qed.

(** After [__iter__] the cursor that was there before does not matter. *)
Lemma blind_iter_then {A} (k : loc → M A) :
  cursor_blind self (it ← Probes.__iter__ self; k it).
Proof.
  intros w1 w2 Hep Hh. pose proof Hh as [Hother Hself].
  unfold Probes.__iter__. rewrite !run_bind. unfold setattr_i.
  destruct (heap w1 !! self) as [o1|] eqn:H1,
           (heap w2 !! self) as [o2|] eqn:H2; simpl in Hself; try done.
  injection Hself as Hcpp.
  replace (World (<[self := set_i (Some 0%Z) o2]> (heap w2)) (ep w2))
    with (World (<[self := set_i (Some 0%Z) o1]> (heap w1)) (ep w1)).
  { cbv beta iota. split; [done|]. split; [done|].
    apply same_up_to_cursor_refl. }
  rewrite Hep. f_equal. apply map_eq. intros l.
  destruct (decide (l = self)) as [->|Hl].
  - rewrite !lookup_insert_eq. unfold set_i. by rewrite Hcpp.
  - rewrite !lookup_insert_ne by done. by apply Hother.
Qed.

Lemma blind_bind {A B} (m : M A) (f : A → M B) :
  cursor_blind self m → (∀ a, cursor_blind self (f a)) →
  cursor_blind self (m ≫= f).
Proof.
  intros Hm Hf w1 w2 Hep Hh. rewrite !run_bind.
  destruct (Hm w1 w2 Hep Hh) as (Ho & He & Hh').
  destruct (m w1) as [o1 w1'], (m w2) as [o2 w2']. simpl in *. subst o2.
  destruct o1; simpl; try done. by apply Hf.
Qed.

Lemma blind_lift {A} (c : C A) : cursor_blind self (lift c).
Proof.
  intros w1 w2 Hep Hh. rewrite !run_lift. simpl. by rewrite Hep.
Qed.

Lemma blind_mret {A} (x : A) : cursor_blind self (mret x : M A).
Proof. by intros w1 w2 Hep Hh. Qed.

Lemma blind_raise {A} (e : exn) : cursor_blind self (raise e : M A).
Proof. by intros w1 w2 Hep Hh. Qed.

Lemma blind_cpp_of : cursor_blind self (cpp_of self).
Proof.
  intros w1 w2 Hep Hh. pose proof Hh as [Hother Hself]. unfold cpp_of.
  destruct (heap w1 !! self) as [o1|] eqn:H1,
           (heap w2 !! self) as [o2|] eqn:H2; simpl in Hself; try done.
  injection Hself as ->. done.
Qed.
End Frames.

Lemma iter_then {A} (self : loc) (k : loc → M A) (w : world) :
  (it ← Probes.__iter__ self; k it) w = (setattr_i self 0%Z;; k self) w.
Proof.
  unfold Probes.__iter__. rewrite !run_bind. unfold setattr_i.
  by destruct (heap w !! self).
Qed.

Lemma run_bind_ok_inv {A B} (m : M A) (f : A → M B) (w w' : world) (b : B) :
  (m ≫= f) w = (Ok b, w') → ∃ x w1, m w = (Ok x, w1) ∧ f x w1 = (Ok b, w').
Proof.
  rewrite run_bind. destruct (m w) as [[x| | |] w1]; try done. by eexists _, _.
Qed.

(** The flag that the aggregation returns says whether the process is the
    root. *)
Lemma aggregate_flag (a : aggregation) (root : nat) (self : loc) (w w' : world)
    (b : bool) (z : ndarray) :
  aggregate a root self w = (Ok (b, z), w') →
  b = bool_decide (rank (ep w) = root).
Proof.
  assert (Hbody : ∀ (lv : compiled → bool → M ndarray) w,
    (r ← lift Get_rank;
     c ← cpp_of self;
     z ← lv c (bool_decide (r = root));
     z ← lift (collect_on_root c (bool_decide (r = root)) root z);
     mret (bool_decide (r = root), z)) w = (Ok (b, z), w') →
    b = bool_decide (rank (ep w) = root)).
  { intros lv w0 H.
    apply run_bind_ok_inv in H as (r & w1 & Hr & H).
    rewrite run_lift in Hr. injection Hr as <- <-.
    apply run_bind_ok_inv in H as (c & w2 & _ & H).
    apply run_bind_ok_inv in H as (z1 & w3 & _ & H).
    apply run_bind_ok_inv in H as (z2 & w4 & _ & H).
    by injection H as <- _ _. }
  destruct a as [fuel N component|N component]; simpl.
  - apply (Hbody (λ c b, Probes.local_values fuel self c b N component)).
  - unfold StatisticsProbes.aggregate. intros H.
    apply run_bind_ok_inv in H as ([] & w1 & Hw1 & H).
    assert (w1 = w) as ->.
    { destruct (bool_decide (N = 0%Z) || bool_decide (N = 1%Z));
        [by injection Hw1|done]. }
    by apply (Hbody (λ c b, StatisticsProbes.local_values c b N component)) in H.
Qed.

Section ArrayFrames.
Context (a : aggregation) (filename : option string) (root : nat) (self : loc).

Lemma collect_keeps c b z : keeps_heap (lift (collect_on_root c b root z)).
Proof. apply keeps_lift. Qed.

Lemma finish_moves (m : M (bool * ndarray)) :
  moves_cursor_only self m →
  moves_cursor_only self (λ w, finish a filename (m w)).
Proof.
  intros Hm w. specialize (Hm w).
  destruct (m w) as [[[[] z]| | |] w']; simpl in *; try done.
  by destruct (truthy filename).
Qed.

Lemma finish_keeps (m : M (bool * ndarray)) :
  keeps_heap m → keeps_heap (λ w, finish a filename (m w)).
Proof.
  intros Hm w. specialize (Hm w).
  destruct (m w) as [[[[] z]| | |] w']; simpl in *; try done.
  by destruct (truthy filename).
Qed.

Lemma finish_blind (m : M (bool * ndarray)) :
  cursor_blind self m → cursor_blind self (λ w, finish a filename (m w)).
Proof.
  intros Hm w1 w2 Hep Hh. destruct (Hm w1 w2 Hep Hh) as (Ho & He & Hh').
  destruct (m w1) as [o1 w1'], (m w2) as [o2 w2']. simpl in *. subst o2.
  destruct o1 as [[[] z]| | |]; simpl; try done.
  destruct (truthy filename); simpl; [|done]. by rewrite He.
Qed.

Lemma aggregate_moves : moves_cursor_only self (aggregate a root self).
Proof.
  assert (Hbody : ∀ lv : compiled → bool → M ndarray,
    (∀ c b, moves_cursor_only self (lv c b)) →
    moves_cursor_only self
      (r ← lift Get_rank;
       c ← cpp_of self;
       z ← lv c (bool_decide (r = root));
       z ← lift (collect_on_root c (bool_decide (r = root)) root z);
       mret (bool_decide (r = root), z))).
  { intros lv Hlv.
    apply moves_bind; [apply keeps_moves, keeps_lift|]. intros r.
    apply moves_bind; [apply keeps_moves, keeps_cpp_of|]. intros c.
    apply moves_bind; [apply Hlv|]. intros z.
    apply moves_bind; [apply keeps_moves, keeps_lift|]. intros z'.
    apply keeps_moves, keeps_mret. }
  destruct a as [fuel N component|N component]; simpl.
  - apply (Hbody (λ c b, Probes.local_values fuel self c b N component)).
    intros c b. unfold Probes.local_values.
    destruct (0 <? local_size c); [|apply keeps_moves, keeps_mret].
    destruct N as [n|]; [apply keeps_moves, keeps_lift|].
    intros w. unfold Probes.retrieve_all_snapshots. rewrite iter_then.
    revert w. apply moves_bind; [apply moves_setattr_i|]. intros _.
    apply moves_for_enumerate; [apply moves_next|]. intros i x acc.
    apply keeps_moves, keeps_for_each. intros k z.
    apply keeps_bind; [apply keeps_call|]. intros vec. apply keeps_lift.
  - unfold StatisticsProbes.aggregate. apply moves_bind.
    { destruct (bool_decide (N = 0%Z) || bool_decide (N = 1%Z));
        apply keeps_moves; [apply keeps_mret|apply keeps_raise]. }
    intros _.
    apply (Hbody (λ c b, StatisticsProbes.local_values c b N component)).
    intros c b. unfold StatisticsProbes.local_values.
    destruct (0 <? local_size c); apply keeps_moves;
      [apply keeps_lift|apply keeps_mret].
Qed.

Lemma aggregate_keeps :
  is_Some (snapshot_of a) → keeps_heap (aggregate a root self).
Proof.
  assert (Hbody : ∀ lv : compiled → bool → M ndarray,
    (∀ c b, keeps_heap (lv c b)) →
    keeps_heap
      (r ← lift Get_rank;
       c ← cpp_of self;
       z ← lv c (bool_decide (r = root));
       z ← lift (collect_on_root c (bool_decide (r = root)) root z);
       mret (bool_decide (r = root), z))).
  { intros lv Hlv.
    apply keeps_bind; [apply keeps_lift|]. intros r.
    apply keeps_bind; [apply keeps_cpp_of|]. intros c.
    apply keeps_bind; [apply Hlv|]. intros z.
    apply keeps_bind; [apply keeps_lift|]. intros z'. apply keeps_mret. }
  intros [n Hn]. destruct a as [fuel N component|N component]; simpl in *.
  - subst N.
    apply (Hbody (λ c b, Probes.local_values fuel self c b (Some n) component)).
    intros c b. unfold Probes.local_values.
    destruct (0 <? local_size c); [apply keeps_lift|apply keeps_mret].
  - unfold StatisticsProbes.aggregate. apply keeps_bind.
    { destruct (bool_decide (N = 0%Z) || bool_decide (N = 1%Z));
        [apply keeps_mret|apply keeps_raise]. }
    intros _.
    apply (Hbody (λ c b, StatisticsProbes.local_values c b N component)).
    intros c b. unfold StatisticsProbes.local_values.
    destruct (0 <? local_size c); [apply keeps_lift|apply keeps_mret].
Qed.

Lemma aggregate_blind : cursor_blind self (aggregate a root self).
Proof.
  assert (Hbody : ∀ lv : compiled → bool → M ndarray,
    (∀ c b, cursor_blind self (lv c b)) →
    cursor_blind self
      (r ← lift Get_rank;
       c ← cpp_of self;
       z ← lv c (bool_decide (r = root));
       z ← lift (collect_on_root c (bool_decide (r = root)) root z);
       mret (bool_decide (r = root), z))).
  { intros lv Hlv.
    apply blind_bind; [apply blind_lift|]. intros r.
    apply blind_bind; [apply blind_cpp_of|]. intros c.
    apply blind_bind; [apply Hlv|]. intros z.
    apply blind_bind; [apply blind_lift|]. intros z'. apply blind_mret. }
  destruct a as [fuel N component|N component]; simpl.
  - apply (Hbody (λ c b, Probes.local_values fuel self c b N component)).
    intros c b. unfold Probes.local_values.
    destruct (0 <? local_size c); [|apply blind_mret].
    destruct N as [n|]; [apply blind_lift|].
    unfold Probes.retrieve_all_snapshots. apply blind_iter_then.
  - unfold StatisticsProbes.aggregate. apply blind_bind.
    { destruct (bool_decide (N = 0%Z) || bool_decide (N = 1%Z));
        [apply blind_mret|apply blind_raise]. }
    intros _.
    apply (Hbody (λ c b, StatisticsProbes.local_values c b N component)).
    intros c b. unfold StatisticsProbes.local_values.
    destruct (0 <? local_size c); [apply blind_lift|apply blind_mret].
Qed.

Lemma array_moves : moves_cursor_only self (array a filename root self).
Proof.
  intros w. rewrite array_finish. apply (finish_moves _ aggregate_moves w).
Qed.

Lemma array_keeps :
  is_Some (snapshot_of a) → keeps_heap (array a filename root self).
Proof.
  intros Hn w. rewrite array_finish.
  apply (finish_keeps _ (aggregate_keeps Hn) w).
Qed.

Lemma array_blind : cursor_blind self (array a filename root self).
Proof.
  intros w1 w2 Hep Hh. rewrite !array_finish.
  apply (finish_blind _ aggregate_blind w1 w2 Hep Hh).
Qed.
End ArrayFrames.

(** In a group in which the probes are distributed, the method returns
    [None] on every process other than the root. *)
Lemma array_off_root_returns_None (a : aggregation) (filename : option string)
    (root : nat) (ps : list Group.process) (cs : list compiled) (total : nat)
    (r : nat) (cr : compiled) :
  distributed a root ps cs total → r ≠ root → cs !! r = Some cr →
  ∃ w, Group.run (array a filename root) root ps !! r = Some (Ok None, w).
Proof.
  intros Hd Hr Hcr.
  pose proof Hd as (Hps & Hans & (c & Hroot & Htot & Hsh) & Hperm).
  pose proof (distributed_range a root ps cs total c Hd Hroot) as Hrange.
  destruct (Forall2_lookup_r _ _ _ _ _ Hps Hcr) as (pr & Hpr & Hcolr).
  destruct (collection_of_heap pr cr Hcolr) as (or & Hor & <-).
  rewrite run_array_lookup,
    (group_not_root a root ps cs Hps Hans c Hroot Hrange r pr or Hr Hpr Hor).
  by eexists.
Qed.

(** C7, as amended.  A call of the aggregation on a process other than the
    root never returns an array; whatever the rank, the call leaves every
    other object as it is and the collection with the compiled part, probes
    and values, that it had: at most the attribute [i] of the collection has
    changed, and not even that for [StatisticsProbes.array] and for
    [Probes.array] with a snapshot.  A call that returns an array is on the
    root and returns the array [z] of the aggregation, squeezed. *)
Theorem call_off_root_returns_nothing_and_keeps_the_probes
    (a : aggregation) (filename : option string) (root : nat) (self : loc)
    (w : world) :
  let r := array a filename root self w in
  (rank (ep w) ≠ root → ∀ v, r.1 ≠ Ok (Some v))
  ∧ (∀ l, l ≠ self → heap w !! l = heap r.2 !! l)
  ∧ cpp <$> heap w !! self = cpp <$> heap r.2 !! self
  ∧ (is_Some (snapshot_of a) → heap r.2 = heap w)
  ∧ (∀ v, r.1 = Ok (Some v) →
       rank (ep w) = root
       ∧ ∃ z w0, aggregate a root self w = (Ok (true, z), w0) ∧ v = squeeze z).
Proof.
  intros r.
  assert (Hret : ∀ v, r.1 = Ok (Some v) →
       rank (ep w) = root
       ∧ ∃ z w0, aggregate a root self w = (Ok (true, z), w0) ∧ v = squeeze z).
  { intros v. subst r. rewrite array_finish.
    destruct (aggregate a root self w) as [[[b z]| | |] w0] eqn:Hagg; try done.
    pose proof (aggregate_flag a root self w w0 b z Hagg) as Hb.
    destruct b; simpl; [|done]. intros [= <-]. split.
    - symmetry in Hb. by apply bool_decide_eq_true_1 in Hb.
    - by exists z, w0. }
  split; [|split; [|split; [|split]]].
  - intros Hr v Hv. by destruct (Hret v Hv) as [Heq _].
  - apply (array_moves a filename root self w).
  - apply (array_moves a filename root self w).
  - intros Hn. apply (array_keeps a filename root self Hn w).
  - exact Hret.
Qed.

(** ** Calling twice *)

Lemma same_length_zip_with_Forall2 {X Y} (R : X → X → Prop) (f : X → Y → X)
    (l : list X) (k : list Y) :
  length k = length l →
  (∀ i x y, l !! i = Some x → k !! i = Some y → R x (f x y)) →
  Forall2 R l (zip_with f l k).
Proof.
  revert k. induction l as [|x l IH]; intros [|y k] Hlen HR; simpl in *;
    try discriminate; constructor.
  - by apply (HR 0).
  - apply IH; [lia|]. intros i x' y' Hx Hy. by apply (HR (S i)).
Qed.

Section Twice.
Context {R : Type} (method : loc → M R) (root : nat).
Context (Hblind : ∀ self, cursor_blind self (method self)).
Context (Hmoves : ∀ self, moves_cursor_only self (method self)).

Lemma round_alike (ps ps' : list Group.process) :
  Forall2 alike ps ps' →
  ∀ g inb j0,
    map view (map (λ rp : nat * Group.process,
                     method (Group.p_self rp.2)
                       (Group.start g (inb rp.1) rp.1 rp.2))
                  (enumerate_from j0 ps'))
    = map view (map (λ rp : nat * Group.process,
                       method (Group.p_self rp.2)
                         (Group.start g (inb rp.1) rp.1 rp.2))
                    (enumerate_from j0 ps)).
Proof.
  induction 1 as [|p p' ps ps' [Hself Hheap] _ IH]; intros g inb j0; [done|].
  simpl. rewrite IH. f_equal. rewrite Hself.
  destruct (Hblind (Group.p_self p) (Group.start g (inb j0) j0 p')
              (Group.start g (inb j0) j0 p) eq_refl
              (same_up_to_cursor_sym _ _ _ Hheap)) as (Ho & He & _).
  unfold view. by rewrite Ho, He.
Qed.

Lemma counts_view (l l' : list (outcome R * world)) :
  map view l = map view l' →
  mapM (λ ow : outcome R * world, Group.gather_of (trace (ep ow.2))) l
  = mapM (λ ow : outcome R * world, Group.gather_of (trace (ep ow.2))) l'.
Proof.
  revert l'. induction l as [|ow l IH]; intros [|ow' l'] Hv; try done.
  simpl in *. injection Hv as Ho He Hv. by rewrite He, (IH l' Hv).
Qed.

Lemma mail_view (l l' : list (outcome R * world)) :
  map view l = map view l' →
  ∀ j0,
    flat_map (λ row : nat * (outcome R * world),
                if bool_decide (row.1 = root) then []
                else Group.sends_to root row.1 (trace (ep row.2.2)))
             (enumerate_from j0 l)
    = flat_map (λ row : nat * (outcome R * world),
                  if bool_decide (row.1 = root) then []
                  else Group.sends_to root row.1 (trace (ep row.2.2)))
               (enumerate_from j0 l').
Proof.
  revert l'. induction l as [|ow l IH]; intros [|ow' l'] Hv j0; try done.
  simpl in *. injection Hv as Ho He Hv. by rewrite He, (IH l' Hv).
Qed.

Lemma run_alike (ps ps' : list Group.process) :
  Forall2 alike ps ps' →
  map view (Group.run method root ps') = map view (Group.run method root ps).
Proof.
  intros Hps.
  assert (Hc : Group.counts method ps' = Group.counts method ps).
  { unfold Group.counts, Group.round, enumerate.
    apply counts_view, (round_alike ps ps' Hps None (λ _, []) 0). }
  assert (Hm : Group.mail method root ps' = Group.mail method root ps).
  { unfold Group.mail, Group.round, enumerate. rewrite Hc.
    apply mail_view,
      (round_alike ps ps' Hps (Group.counts method ps) (λ _, []) 0). }
  unfold Group.run, Group.round, enumerate. rewrite Hc, Hm.
  pose proof (round_alike ps ps' Hps (Group.counts method ps)
                (λ r, if bool_decide (r = root)
                      then Group.mail method root ps else []) 0) as Hround.
  exact Hround.
Qed.

Lemma after_run_alike (ps : list Group.process) :
  Forall2 alike ps (after_run ps (Group.run method root ps)).
Proof.
  unfold after_run. apply same_length_zip_with_Forall2.
  - unfold Group.run, Group.round, enumerate. rewrite length_map.
    clear. generalize 0. induction ps as [|p ps IH]; intros j; simpl; [done|].
    by rewrite IH.
  - intros i p ow Hp How. rewrite run_lookup, Hp in How.
    injection How as <-. split; [done|].
    apply (Hmoves (Group.p_self p)
             (Group.start (Group.counts method ps)
                (if bool_decide (i = root) then Group.mail method root ps
                 else []) i p)).
Qed.

Lemma run_twice (ps : list Group.process) :
  map view (Group.run method root (after_run ps (Group.run method root ps)))
  = map view (Group.run method root ps).
Proof. apply run_alike, after_run_alike. Qed.
End Twice.

(** C5.  When all processes of a group call the aggregation and then, with
    nothing in between, call it again with the same arguments, each on its
    collection as the first call left it, every process gets from the second
    call the outcome of the first (the root the same array, element by
    element), and communicates and writes the same. *)
Theorem aggregation_twice_gives_the_same_array (a : aggregation)
    (filename : option string) (root : nat) (ps : list Group.process) :
  let first := Group.run (array a filename root) root ps in
  let second := Group.run (array a filename root) root (after_run ps first) in
  map fst second = map fst first
  ∧ map (λ ow, trace (ep ow.2)) second = map (λ ow, trace (ep ow.2)) first.
Proof.
  intros first second.
  pose proof (run_twice (array a filename root) root
                (array_blind a filename root) (array_moves a filename root) ps)
    as Hv.
  fold first in Hv. fold second in Hv. split.
  - apply (f_equal (map fst)) in Hv. by rewrite !map_map in Hv.
  - apply (f_equal (map (λ v : outcome (option ndarray) * endpoint, trace v.2)))
      in Hv. by rewrite !map_map in Hv.
Qed.

(** * Examples *)

(** The slot check of [StatisticsProbes.array] comes before the gather and
    the sends: with a slot index other than 0 and 1 the trace stays empty. *)
Example StatisticsProbes_array_slot_2 :
  map (λ ow, (ow.1, trace (ep ow.2)))
      (Group.run (array (StatisticsArray 2 None) None 0) 0 Sample.group)
  = [(Raise AssertionError, []); (Raise AssertionError, []);
     (Raise AssertionError, [])].
Proof. vm_compute. reflexivity. Qed.

Example StatisticsProbes_array_slot_minus_1 :
  map (λ ow, (ow.1, trace (ep ow.2)))
      (Group.run (array (StatisticsArray (-1) None) None 0) 0 Sample.group)
  = [(Raise AssertionError, []); (Raise AssertionError, []);
     (Raise AssertionError, [])].
Proof. vm_compute. reflexivity. Qed.

(** A statistics probe that answers any index: the index -1 gets through the
    assertion to it, the index 2 does not. *)
Example StatisticsProbe_getitem_minus_1 :
  let p := Probe (λ i, inr [i]) (λ _, inl RuntimeError) in
  StatisticsProbe.__getitem__ p (-1)%Z = inr [(-1)%Z]
  ∧ StatisticsProbe.__getitem__ p 2%Z = inl AssertionError.
Proof. split; reflexivity. Qed.

(** Snapshot 1 of the sample group on the root 0, and all snapshots. *)
Example Probes_array_snapshot_1 :
  map fst (Group.run (array (ProbesArray 0 (Some 1%Z) None) None 0) 0 Sample.group)
  = [Ok (Some (NDArray [4; 2] [41; 43; 11; 13; 21; 23; 31; 33]%Z));
     Ok None; Ok None].
Proof. vm_compute. reflexivity. Qed.

Example Probes_array_all_snapshots :
  map fst (Group.run (array (ProbesArray 3 None None) None 0) 0 Sample.group)
  = [Ok (Some (NDArray [4; 2; 2]
                 [40; 41; 42; 43; 10; 11; 12; 13;
                  20; 21; 22; 23; 30; 31; 32; 33]%Z));
     Ok None; Ok None].
Proof. vm_compute. reflexivity. Qed.

(** With a component argument the column is that of component 0, whatever
    the argument. *)
Example Probes_array_component_1 :
  map fst (Group.run (array (ProbesArray 0 (Some 1%Z) (Some 1%Z)) None 0) 0
             Sample.group)
  = [Ok (Some (NDArray [4] [41; 11; 21; 31]%Z)); Ok None; Ok None].
Proof. vm_compute. reflexivity. Qed.

(** All snapshots with a component argument, for a field with two
    components: the processes that have probes raise [IndexError] before
    the gather, and the root, which has none, waits in the gather. *)
Example Probes_array_all_snapshots_component :
  map fst (Group.run (array (ProbesArray 3 None (Some 0%Z)) None 1) 1 Sample.group)
  = [Raise IndexError; Blocked; Raise IndexError].
Proof. vm_compute. reflexivity. Qed.

(** * Instances of the theorems *)

Lemma next_turns_any_exception_into_StopIteration_witness :
  let w := World {[ 7 := PyObj Sample.faulty (Some 0%Z) ]}
                 (Endpoint 0 None [] [] []) in
  element_at_cursor 7 w = (Raise ValueError, w)
  ∧ Probes.next 7 w = (Raise StopIteration, w)
  ∧ StatisticsProbes.next 7 w = (Raise StopIteration, w).
Proof.
  intros w. split; [vm_compute; reflexivity|].
  apply (next_turns_any_exception_into_StopIteration 7 w w ValueError).
  vm_compute. reflexivity.
Defined.

Lemma iter_returns_self_and_resets_shared_cursor_witness :
  let o := PyObj (Sample.collection 4 2 2 [1; 3] []) (Some 2%Z) in
  let w := World {[ 7 := o ]} (Endpoint 0 None [] [] []) in
  let w0 := World (<[7 := set_i (Some 0%Z) o]> (heap w)) (ep w) in
  heap w !! 7 = Some o
  ∧ Probes.__iter__ 7 w = (Ok 7, w0)
  ∧ StatisticsProbes.__iter__ 7 w = (Ok 7, w0)
  ∧ ∀ it1, it1 = 7 →
      (it2 ← Probes.__iter__ 7; x ← Probes.next it1; mret (it2, x)) w
      = match get_probe_id (cpp o) 0%Z, get_probe (cpp o) 0%Z with
        | inr id, inr p =>
            (Ok (it1, (id, p)),
             World (<[7 := set_i (Some 1%Z) o]> (heap w)) (ep w))
        | _, _ => (Raise StopIteration, w0)
        end.
Proof.
  intros o w w0. split; [reflexivity|].
  apply (iter_returns_self_and_resets_shared_cursor 7 w o). reflexivity.
Defined.

Lemma dof_component_map_total_in_declaration_order_witness :
  (∀ d, 0 ≤ d < 8 → ∃ L, L ∈ leaves Sample.mixed ∧ d ∈ L)
  ∧ (Z.of_nat (length (leaves Sample.mixed)) ≤ 2 ^ 32)%Z
  ∧ 1 ≤ length (leaves Sample.mixed)
  ∧ (∀ d, 0 ≤ d < 8 →
       ∃ c, dof_component_map Sample.mixed !! d = Some c
            ∧ (0 ≤ c < Z.of_nat (length (leaves Sample.mixed)))%Z)
  ∧ (∀ t L d, leaves Sample.mixed !! t = Some L → d ∈ L →
       (∀ t' L', t < t' → leaves Sample.mixed !! t' = Some L' → d ∉ L') →
       dof_component_map Sample.mixed !! d = Some (Z.of_nat t))
  ∧ (num_sub_spaces Sample.mixed = 0 →
     ∀ d, d ∈ collapse_values Sample.mixed →
          dof_component_map Sample.mixed !! d = Some 0%Z).
Proof.
  assert (Hcover : ∀ d, 0 ≤ d < 8 → ∃ L, L ∈ leaves Sample.mixed ∧ d ∈ L).
  { intros d Hd. change (leaves Sample.mixed) with [[0; 3; 6]; [1; 4; 7]; [2; 5]].
    destruct (decide (d ∈ [0; 3; 6])) as [H0|H0];
      [exists [0; 3; 6]; split; [left|done]|].
    destruct (decide (d ∈ [1; 4; 7])) as [H1|H1];
      [exists [1; 4; 7]; split; [right; left|done]|].
    exists [2; 5]. split; [right; right; left|].
    rewrite !elem_of_cons, elem_of_nil in H0, H1.
    rewrite !elem_of_cons. lia. }
  assert (Hsize : (Z.of_nat (length (leaves Sample.mixed)) ≤ 2 ^ 32)%Z)
    by (vm_compute; discriminate).
  split; [exact Hcover|]. split; [exact Hsize|].
  exact (dof_component_map_total_in_declaration_order Sample.mixed 0 8
           Hcover Hsize).
Defined.


(** The sample group is a group in which four probes are distributed. *)
Lemma sample_distributed (a : aggregation) (root : nat) :
  root < 3 → Forall (answers a) Sample.collections →
  distributed a root Sample.group Sample.collections 4.
Proof.
  intros Hroot Hans. split; [|split; [exact Hans|split]].
  - repeat constructor.
  - destruct root as [|[|[|root]]]; [| | |lia];
      (eexists; split; [reflexivity|]; split; [reflexivity|]);
      repeat constructor; unfold row_shape, comp_of;
      destruct (snapshot_of a), (component_of a); reflexivity.
  - change (flat_map get_probe_ids Sample.collections) with [1; 3; 2; 0].
    change (seq 0 4) with [0; 1; 2; 3].
    by apply (bool_decide_unpack ([1; 3; 2; 0] ≡ₚ [0; 1; 2; 3])).
Qed.

Lemma sample_answers_snapshot_1 :
  Forall (answers (ProbesArray 0 (Some 1%Z) None)) Sample.collections.
Proof.
  repeat constructor; intros [|[|k]] Hk; simpl in Hk;
    try (eexists; split; reflexivity); vm_compute in Hk; lia.
Qed.

(** The sample group also answers the iteration over all snapshots and the
    calls of the statistics class. *)
Lemma sample_answers_all_snapshots :
  Forall (answers (ProbesArray 3 None None)) Sample.collections.
Proof.
  unfold Sample.collections.
  repeat (apply Forall_cons; split); [| | |by apply Forall_nil];
    (split; [reflexivity|]; split; [simpl; lia|]; split; [by left|]; split;
     [|left; eexists; reflexivity]);
    intros i Hi; simpl in Hi; try lia;
    (destruct i as [|[|i]]; [| |lia]);
    (split; [reflexivity|]; eexists; split; [reflexivity|]);
    intros k Hk; simpl in Hk; (destruct k as [|[|k]]; [| |lia]);
    eexists; split; reflexivity.
Qed.

Lemma sample_answers_statistics :
  Forall (answers (StatisticsArray 1 (Some 5%Z))) Sample.collections.
Proof.
  repeat constructor; try (by right); intros [|k] Hk; simpl in Hk;
    try (eexists; split; reflexivity); vm_compute in Hk; lia.
Qed.

Example sample_distributed_all_snapshots :
  distributed (ProbesArray 3 None None) 2 Sample.group Sample.collections 4.
Proof. apply sample_distributed; [lia|apply sample_answers_all_snapshots]. Qed.

Example sample_distributed_statistics :
  distributed (StatisticsArray 1 (Some 5%Z)) 1 Sample.group Sample.collections 4.
Proof. apply sample_distributed; [lia|apply sample_answers_statistics]. Qed.

Lemma aggregation_covers_every_id_witness :
  let a := ProbesArray 0 (Some 1%Z) None in
  distributed a 0 Sample.group Sample.collections 4
  ∧ ∃ (c : compiled) (z : ndarray) (w : world),
      Sample.collections !! 0 = Some c
      ∧ Group.run (aggregate a 0) 0 Sample.group !! 0 = Some (Ok (true, z), w)
      ∧ (∃ w', Group.run (array a None 0) 0 Sample.group !! 0
               = Some (Ok (Some (squeeze z)), w'))
      ∧ shape z = 4 :: row_shape a c
      ∧ length (data z) = 4 * row_size a c
      ∧ data z = store_cells (stores (ep w)) (replicate (4 * row_size a c) 0%Z)
      ∧ map fst (stores (ep w))
        ≡ₚ flat_map (row_cells (row_size a c))
                    (flat_map get_probe_ids Sample.collections)
      ∧ map fst (stores (ep w)) ≡ₚ seq 0 (4 * row_size a c).
Proof.
  intros a.
  assert (Hd : distributed a 0 Sample.group Sample.collections 4)
    by (apply sample_distributed; [lia|apply sample_answers_snapshot_1]).
  split; [exact Hd|].
  exact (aggregation_covers_every_id a None 0 Sample.group Sample.collections 4
           Hd).
Defined.

Lemma root_receives_by_rank_and_scatters_by_id_witness :
  let a := ProbesArray 0 (Some 1%Z) None in
  distributed a 1 Sample.group Sample.collections 4
  ∧ ∃ (c : compiled) (z : ndarray) (w : world),
      Sample.collections !! 1 = Some c
      ∧ Group.run (aggregate a 1) 1 Sample.group !! 1 = Some (Ok (true, z), w)
      ∧ trace (ep w)
        = EvGather (local_size c) 1
          :: flat_map (λ j, [EvRecv j 101; EvRecv j 102])
                      (other_ranks 1 (length Sample.group))
      ∧ ∀ r cr, r ≠ 1 → Sample.collections !! r = Some cr →
          ∃ (zr : ndarray) (wr : world),
            Group.run (aggregate a 1) 1 Sample.group !! r
            = Some (Ok (false, zr), wr)
            ∧ trace (ep wr)
              = [EvGather (local_size cr) 1;
                 EvSend 1 101 (PIds (get_probe_ids cr));
                 EvSend 1 102 (PArr zr)]
            ∧ ∀ l g, get_probe_ids cr !! l = Some g →
                row (row_size a c) g (data z) = row (row_size a c) l (data zr).
Proof.
  intros a.
  assert (Hd : distributed a 1 Sample.group Sample.collections 4)
    by (apply sample_distributed; [lia|apply sample_answers_snapshot_1]).
  split; [exact Hd|].
  exact (root_receives_by_rank_and_scatters_by_id a 1 Sample.group
           Sample.collections 4 Hd).
Defined.

(** C7, as stated, fails: [Probes.array] for all snapshots, called on rank 0
    of the sample group with root 2, returns nothing, and the collection it
    was called on has changed: its attribute [i], absent before, is 2. *)
Lemma call_off_root_moves_the_cursor :
  ∃ w, Group.run (array (ProbesArray 3 None None) None 2) 2 Sample.group !! 0
       = Some (Ok None, w)
       ∧ attr_i <$> Group.p_heap Sample.p0 !! 7 = Some None
       ∧ attr_i <$> heap w !! 7 = Some (Some 2%Z)
       ∧ heap w ≠ Group.p_heap Sample.p0.
Proof.
  eexists. split; [vm_compute; reflexivity|].
  split; [reflexivity|]. split; [reflexivity|].
  intros H. apply (f_equal (λ h : gmap loc pyobj, attr_i <$> h !! 7)) in H.
  vm_compute in H. discriminate.
Qed.

(** * Further properties *)

(** ** The text kept of a header *)

Lemma startswith_take (sub s : text) :
  startswith s sub = true ↔ take (length sub) s = sub.
Proof.
  revert s. induction sub as [|a sub IH]; intros s; simpl.
  - by destruct s.
  - destruct s as [|b s]; simpl; [done|].
    destruct (Ascii.eqb a b) eqn:E.
    + apply Ascii.eqb_eq in E as ->. rewrite IH. split; [by intros ->|by intros [= ->]].
    + split; [done|]. intros [= -> _]. by rewrite Ascii.eqb_refl in E.
Qed.

Lemma occurs_at_bound (s sub : text) (j : nat) :
  occurs_at s sub j → sub ≠ [] → j + length sub ≤ length s.
Proof.
  unfold occurs_at. intros H Hne.
  assert (Hl : length (take (length sub) (drop j s)) = length sub) by by rewrite H.
  rewrite length_take, length_drop in Hl.
  assert (0 < length sub) by (destruct sub; simpl; [done|lia]). lia.
Qed.

Lemma find_from_cases (sub s : text) (i : nat) :
  (find_from i s sub = (-1)%Z ∧ ∀ j, ¬ occurs_at s sub j)
  ∨ (∃ j, find_from i s sub = Z.of_nat (i + j) ∧ occurs_at s sub j
          ∧ ∀ j', j' < j → ¬ occurs_at s sub j').
Proof.
  revert i. induction s as [|b s IH]; intros i.
  - destruct sub as [|a sub]; simpl.
    + right. exists 0. rewrite Nat.add_0_r. split; [done|]. split; [done|lia].
    + left. split; [done|]. intros j. unfold occurs_at. by rewrite drop_nil.
  - cbn [find_from]. destruct (startswith (b :: s) sub) eqn:E.
    + right. exists 0. rewrite Nat.add_0_r. split; [done|]. split; [|lia].
      by apply startswith_take.
    + assert (H0 : ¬ occurs_at (b :: s) sub 0).
      { unfold occurs_at. rewrite drop_0. intros H. apply startswith_take in H. congruence. }
      destruct (IH (S i)) as [[H1 H2]|(j & H1 & H2 & H3)].
      * left. split; [done|]. intros [|j]; [done|]. apply H2.
      * right. exists (S j). split; [by rewrite H1; f_equal; lia|]. split; [done|].
        intros [|j'] Hj; [done|]. apply H3. lia.
Qed.

Lemma find_cases (s sub : text) :
  (find s sub = (-1)%Z ∧ ∀ j, ¬ occurs_at s sub j)
  ∨ (∃ j, find s sub = Z.of_nat j ∧ occurs_at s sub j
          ∧ ∀ j', j' < j → ¬ occurs_at s sub j').
Proof. apply (find_from_cases sub s 0). Qed.

Lemma find_at (s sub : text) (a : nat) :
  find s sub = Z.of_nat a →
  occurs_at s sub a ∧ ∀ j, j < a → ¬ occurs_at s sub j.
Proof.
  intros H. destruct (find_cases s sub) as [[H1 _]|(j & H1 & H2 & H3)]; [lia|].
  assert (j = a) as -> by lia. done.
Qed.

Lemma slice_bound_nat (len a : nat) : slice_bound len (Z.of_nat a) = Nat.min a len.
Proof.
  unfold slice_bound. destruct (Z.ltb_spec (Z.of_nat a) 0); [lia|].
  by rewrite Nat2Z.id.
Qed.

Lemma slice_bound_minus_one (len : nat) : slice_bound len (-1) = len - 1.
Proof. unfold slice_bound. simpl. lia. Qed.

Lemma occurs_at_take (s sub : text) (n j : nat) :
  occurs_at (take n s) sub j → sub ≠ [] → occurs_at s sub j ∧ j + length sub ≤ n.
Proof.
  intros H Hne. pose proof (occurs_at_bound _ _ _ H Hne) as Hb.
  rewrite length_take in Hb. split; [|lia].
  unfold occurs_at in *. rewrite <- H at 2.
  rewrite skipn_firstn_comm, take_take. f_equal. lia.
Qed.

Lemma occurs_at_drop (s sub : text) (a j : nat) :
  occurs_at (drop a s) sub j ↔ occurs_at s sub (a + j).
Proof. unfold occurs_at. by rewrite drop_drop. Qed.

Lemma essential_code_found (f : text) (a b : nat) :
  find f namespace_dolfin = Z.of_nat a →
  find f endif = Z.of_nat b →
  essential_code f = take (b - a) (drop a f).
Proof.
  intros Ha Hb. unfold essential_code, slice. rewrite Ha, Hb, !slice_bound_nat.
  apply find_at in Ha as [Ha _]. apply find_at in Hb as [Hb _].
  apply occurs_at_bound in Ha; [|done]. apply occurs_at_bound in Hb; [|done].
  by rewrite !Nat.min_l by lia.
Qed.

(** X1. When both marks occur in a header, the text kept is the part of
    the header from the first [namespace dolfin] opening up to the first
    [#endif]; it starts with the opening of the namespace when the opening
    ends before the [#endif], and it never holds an [#endif]. *)
Theorem essential_code_between_the_marks (f : text) (a b : nat) :
  find f namespace_dolfin = Z.of_nat a →
  find f endif = Z.of_nat b →
  essential_code f = take (b - a) (drop a f)
  ∧ (a + length namespace_dolfin ≤ b →
     take (length namespace_dolfin) (essential_code f) = namespace_dolfin)
  ∧ find (essential_code f) endif = (-1)%Z.
Proof.
  intros Ha Hb. rewrite (essential_code_found f a b Ha Hb).
  apply find_at in Ha as [Ha _]. apply find_at in Hb as [Hb Hfirst].
  split; [done|]. split.
  - intros Hle. rewrite take_take, Nat.min_l by lia. exact Ha.
  - destruct (find_cases (take (b - a) (drop a f)) endif)
      as [[H _]|(j & _ & Hj & _)]; [done|].
    apply occurs_at_take in Hj as [Hj Hlen]; [|done].
    apply occurs_at_drop in Hj. destruct (Hfirst (a + j)); [|done].
    change (length endif) with 6 in Hlen. lia.
Qed.

(** X2. A header that opens the namespace and has no [#endif] loses its
    last character: the text kept is the header from the opening of the
    namespace on, without the final character. *)
Theorem essential_code_without_endif_drops_last_character (f : text) (a : nat) :
  find f namespace_dolfin = Z.of_nat a →
  find f endif = (-1)%Z →
  ∃ ch, drop a f = essential_code f ++ [ch].
Proof.
  intros Ha Hb. unfold essential_code, slice.
  rewrite Ha, Hb, slice_bound_nat, slice_bound_minus_one.
  apply find_at in Ha as [Ha _]. apply occurs_at_bound in Ha; [|done].
  change (length namespace_dolfin) with 19 in Ha.
  rewrite Nat.min_l by lia.
  pose proof (take_drop (length f - 1 - a) (drop a f)) as Hsplit.
  destruct (drop (length f - 1 - a) (drop a f)) as [|ch [|ch' rest]] eqn:E.
  - apply (f_equal length) in E. rewrite !length_drop in E. simpl in E. lia.
  - exists ch. by rewrite Hsplit.
  - apply (f_equal length) in E. rewrite !length_drop in E. simpl in E. lia.
Qed.

(** X3. A header in which the namespace is never opened, or is opened only
    at or after the first [#endif], contributes nothing, and no error is
    reported. *)
Theorem essential_code_empty_unless_marks_in_order (f : text) :
  find f namespace_dolfin = (-1)%Z
  ∨ (0 ≤ find f endif ≤ find f namespace_dolfin)%Z →
  essential_code f = [].
Proof.
  intros [Ha|[H0 Hle]].
  - unfold essential_code, slice. rewrite Ha, slice_bound_minus_one.
    destruct (find_cases f endif) as [[Hb _]|(b & Hb & Hocc & _)]; rewrite Hb.
    + rewrite slice_bound_minus_one, Nat.sub_diag. apply take_0.
    + apply occurs_at_bound in Hocc; [|done].
      change (length endif) with 6 in Hocc.
      rewrite slice_bound_nat, Nat.min_l by lia.
      replace (b - (length f - 1)) with 0 by lia. apply take_0.
  - destruct (find_cases f endif) as [[Hb _]|(b & Hb & _)]; [lia|].
    destruct (find_cases f namespace_dolfin) as [[Ha _]|(a & Ha & _)]; [lia|].
    rewrite (essential_code_found f a b Ha Hb).
    replace (b - a) with 0 by lia. apply take_0.
Qed.

Lemma strip_loop_app (files : gmap string text) (l1 l2 : list string) (code : text) :
  strip_loop files (l1 ++ l2) code =
  match strip_loop files l1 code with
  | inr c => strip_loop files l2 c
  | inl e => inl e
  end.
Proof.
  revert code. induction l1 as [|n l1 IH]; intros code; simpl; [done|].
  destruct (read files n); [done|]. apply IH.
Qed.

Lemma strip_loop_present (files : gmap string text) (names : list string)
    (fs : list text) (code : text) :
  Forall2 (λ n f, files !! n = Some f) names fs →
  strip_loop files names code = inr (code ++ concat (map essential_code fs)).
Proof.
  intros H. revert code. induction H as [|n f names fs Hn _ IH]; intros code; simpl.
  - by rewrite app_nil_r.
  - unfold read. rewrite Hn, IH. by rewrite <- app_assoc.
Qed.

(** X4. When every header can be read, the code returned is the
    concatenation of the texts kept of the headers, in the order of the
    names and with nothing between them. *)
Theorem strip_essential_code_concatenates_in_order
    (files : gmap string text) (names : list string) (fs : list text) :
  Forall2 (λ n f, files !! n = Some f) names fs →
  strip_essential_code files names = inr (concat (map essential_code fs)).
Proof. intros H. unfold strip_essential_code. by rewrite (strip_loop_present _ _ fs). Qed.

(** X5. The first name that cannot be opened makes the whole call fail with
    the error of that name, whatever the headers before it held and
    whatever follows it. *)
Theorem strip_essential_code_fails_on_first_missing_header
    (files : gmap string text) (before after : list string) (name : string) :
  Forall (λ n, is_Some (files !! n)) before →
  files !! name = None →
  strip_essential_code files (before ++ name :: after) = inl (IOError name).
Proof.
  intros Hpre Hn. unfold strip_essential_code. rewrite strip_loop_app.
  assert (∃ fs, Forall2 (λ n f, files !! n = Some f) before fs) as [fs Hfs].
  { induction Hpre as [|n l [f Hf] _ [fs IH]]; [by exists []|]. exists (f :: fs). by constructor. }
  rewrite (strip_loop_present _ _ fs) by done. simpl. unfold read. by rewrite Hn.
Qed.

Lemma essential_code_between_the_marks_witness :
  find Headers.guarded namespace_dolfin = 16%Z
  ∧ find Headers.guarded endif = 50%Z
  ∧ essential_code Headers.guarded = take (50 - 16) (drop 16 Headers.guarded)
  ∧ (16 + length namespace_dolfin ≤ 50 →
     take (length namespace_dolfin) (essential_code Headers.guarded)
     = namespace_dolfin)
  ∧ find (essential_code Headers.guarded) endif = (-1)%Z.
Proof.
  split; [reflexivity|]. split; [reflexivity|].
  apply (essential_code_between_the_marks Headers.guarded 16 50); reflexivity.
Defined.

Lemma essential_code_without_endif_drops_last_character_witness :
  find Headers.unguarded namespace_dolfin = 0%Z
  ∧ find Headers.unguarded endif = (-1)%Z
  ∧ ∃ ch, drop 0 Headers.unguarded = essential_code Headers.unguarded ++ [ch].
Proof.
  split; [reflexivity|]. split; [reflexivity|].
  apply (essential_code_without_endif_drops_last_character Headers.unguarded 0);
    reflexivity.
Defined.

Lemma essential_code_empty_unless_marks_in_order_witness :
  find Headers.plain namespace_dolfin = (-1)%Z
  ∧ essential_code Headers.plain = [].
Proof.
  split; [reflexivity|].
  apply (essential_code_empty_unless_marks_in_order Headers.plain).
  left. reflexivity.
Defined.

Lemma strip_essential_code_concatenates_in_order_witness :
  Forall2 (λ n f, Headers.files !! n = Some f)
          ["Probe.h"; "Probes.h"; "Probe.h"]
          [Headers.guarded; Headers.unguarded; Headers.guarded]
  ∧ strip_essential_code Headers.files ["Probe.h"; "Probes.h"; "Probe.h"]
    = inr (concat (map essential_code
                     [Headers.guarded; Headers.unguarded; Headers.guarded])).
Proof.
  assert (H : Forall2 (λ n f, Headers.files !! n = Some f)
                ["Probe.h"; "Probes.h"; "Probe.h"]
                [Headers.guarded; Headers.unguarded; Headers.guarded])
    by (repeat constructor; vm_compute; reflexivity).
  split; [exact H|].
  exact (strip_essential_code_concatenates_in_order Headers.files _ _ H).
Defined.

Lemma strip_essential_code_fails_on_first_missing_header_witness :
  Forall (λ n, is_Some (Headers.files !! n)) ["Probe.h"]
  ∧ Headers.files !! "StatisticsProbe.h" = None
  ∧ strip_essential_code Headers.files
      (["Probe.h"] ++ "StatisticsProbe.h" :: ["Probes.h"])
    = inl (IOError "StatisticsProbe.h").
Proof.
  assert (H : Forall (λ n, is_Some (Headers.files !! n)) ["Probe.h"])
    by (repeat constructor; exists Headers.guarded; vm_compute; reflexivity).
  assert (Hn : Headers.files !! "StatisticsProbe.h" = None)
    by (vm_compute; reflexivity).
  split; [exact H|]. split; [exact Hn|].
  exact (strip_essential_code_fails_on_first_missing_header Headers.files
           ["Probe.h"] ["Probes.h"] "StatisticsProbe.h" H Hn).
Defined.

(** ** A loop over a collection *)

Lemma next_at (self : loc) (c : compiled) (i : nat) (w : world) :
  heap w !! self = Some (PyObj c (Some (Z.of_nat i))) →
  Probes.next self w
  = match item c i with
    | Some x =>
        (Ok x, World (<[self := PyObj c (Some (Z.of_nat (S i)))]> (heap w)) (ep w))
    | None => (Raise StopIteration, w)
    end.
Proof.
  intros Hw. rewrite next_run. unfold element_value, item. rewrite Hw. simpl.
  destruct (get_probe_id c (Z.of_nat i)); [done|].
  destruct (get_probe c (Z.of_nat i)); [done|].
  unfold set_i. simpl. by replace (Z.of_nat i + 1)%Z with (Z.of_nat (S i)) by lia.
Qed.

Lemma enumerate_self_from (self : loc) (c : compiled) (n : nat) :
  ∀ (m i0 fuel : nat) (acc : list (nat * (nat * probe))) (w : world),
    i0 + m = n → m < fuel →
    heap w !! self = Some (PyObj c (Some (Z.of_nat i0))) →
    (∀ i, i < n → is_Some (item c i)) → item c n = None →
    for_enumerate fuel (Probes.next self) i0 acc
      (λ i x acc, mret (acc ++ [(i, x)])) w
    = (Ok (acc ++ enumerate_from i0 (items c i0 m)),
       World (<[self := PyObj c (Some (Z.of_nat n))]> (heap w)) (ep w)).
Proof.
  induction m as [|m IH]; intros i0 fuel acc w Hn Hfuel Hw Hall Hend;
    (destruct fuel as [|fuel]; [lia|]).
  - assert (i0 = n) as -> by lia.
    rewrite (for_enumerate_stop _ _ _ _ _ w w) by by rewrite (next_at _ c n), Hend.
    unfold items. simpl. rewrite app_nil_r. do 2 f_equal.
    destruct w as [h e]. simpl in *. f_equal. by rewrite insert_id.
  - destruct (Hall i0) as [x Hx]; [lia|].
    rewrite (for_enumerate_step _ _ _ _ _ w
               (World (<[self := PyObj c (Some (Z.of_nat (S i0)))]> (heap w)) (ep w)) x)
      by by rewrite (next_at _ c i0), Hx.
    rewrite run_bind. change ((mret (acc ++ [(i0, x)]) : M _) _)
      with (Ok (acc ++ [(i0, x)]),
            World (<[self := PyObj c (Some (Z.of_nat (S i0)))]> (heap w)) (ep w)).
    cbv beta iota. rewrite IH; [|lia|lia|by simpl; rewrite lookup_insert_eq|done|done].
    simpl. rewrite insert_insert_eq. unfold items. simpl. rewrite Hx. simpl.
    by rewrite <- app_assoc.
Qed.

(** X6. A loop over a collection visits the elements before the first index
    at which the compiled module gives no id or no probe, in the order of
    the indices, each with its index; it ends there without an exception,
    also when that index is below the number of probes, and it leaves the
    cursor of the collection at that index. *)
Theorem loop_over_collection_stops_silently_at_first_failure
    (fuel : nat) (self : loc) (o : pyobj) (n : nat) (w : world) :
  heap w !! self = Some o →
  (∀ i, i < n → is_Some (item (cpp o) i)) →
  item (cpp o) n = None →
  n < fuel →
  enumerate_self fuel self w
  = (Ok (enumerate (items (cpp o) 0 n)),
     World (<[self := PyObj (cpp o) (Some (Z.of_nat n))]> (heap w)) (ep w))
  ∧ length (items (cpp o) 0 n) = n.
Proof.
  intros Hw Hall Hend Hfuel. split.
  - unfold enumerate_self. rewrite iter_then, run_bind. unfold setattr_i.
    rewrite Hw. cbv beta iota.
    rewrite (enumerate_self_from self (cpp o) n n 0 fuel [] _); try done.
    + simpl. by rewrite insert_insert_eq.
    + simpl. by rewrite lookup_insert_eq.
  - unfold items. clear Hend Hfuel. 
    assert (H : ∀ i0 m, i0 + m ≤ n → length (omap (item (cpp o)) (seq i0 m)) = m).
    { intros i0 m. revert i0. induction m as [|m IH]; intros i0 Hle; [done|].
      simpl. destruct (Hall i0) as [x ->]; [lia|]. simpl. rewrite IH; [done|lia]. }
    by apply H.
Qed.

Lemma loop_over_collection_stops_silently_at_first_failure_witness :
  let w := Cases.at_7 Cases.truncated in
  local_size Cases.truncated = 2
  ∧ (∀ i, i < 1 → is_Some (item Cases.truncated i))
  ∧ item Cases.truncated 1 = None
  ∧ enumerate_self 5 7 w
    = (Ok (enumerate (items Cases.truncated 0 1)),
       World (<[7 := PyObj Cases.truncated (Some 1%Z)]> (heap w)) (ep w))
  ∧ length (items Cases.truncated 0 1) = 1.
Proof.
  intros w.
  assert (Hall : ∀ i, i < 1 → is_Some (item Cases.truncated i)).
  { intros i Hi. assert (i = 0) as -> by lia. vm_compute. eauto. }
  split; [reflexivity|]. split; [exact Hall|]. split; [reflexivity|].
  apply (loop_over_collection_stops_silently_at_first_failure 5 7
           (PyObj Cases.truncated None) 1 w); [reflexivity|exact Hall|reflexivity|lia].
Defined.

(** ** The local part of a call does not communicate *)

Lemma same_comm_refl (e : endpoint) : same_comm e e.
Proof. by repeat split. Qed.

Lemma same_comm_trans (e1 e2 e3 : endpoint) :
  same_comm e1 e2 → same_comm e2 e3 → same_comm e1 e3.
Proof.
  intros (H1 & H2 & H3 & H4) (K1 & K2 & K3 & K4).
  repeat split; congruence.
Qed.

Lemma quiet_bind {A B} (m : M A) (f : A → M B) :
  quiet m → (∀ x, quiet (f x)) → quiet (m ≫= f).
Proof.
  intros Hm Hf w. rewrite run_bind. specialize (Hm w).
  destruct (m w) as [[x| | |] w']; simpl in *; try done.
  eapply same_comm_trans; [exact Hm|apply Hf].
Qed.

Lemma quietC_bind {A B} (m : C A) (f : A → C B) :
  quietC m → (∀ x, quietC (f x)) → quietC (m ≫= f).
Proof.
  intros Hm Hf e. rewrite run_bindC. specialize (Hm e).
  destruct (m e) as [[x| | |] e']; simpl in *; try done.
  eapply same_comm_trans; [exact Hm|apply Hf].
Qed.

Lemma quiet_lift {A} (c : C A) : quietC c → quiet (lift c).
Proof. intros Hc w. rewrite run_lift. apply Hc. Qed.

Lemma quiet_mret {A} (x : A) : quiet (mret x : M A).
Proof. intros w. apply same_comm_refl. Qed.

Lemma quiet_raise {A} (e : exn) : quiet (raise e : M A).
Proof. intros w. apply same_comm_refl. Qed.

Lemma quiet_call {A} (r : exn + A) : quiet (call r).
Proof. destruct r; [apply quiet_raise|apply quiet_mret]. Qed.

Lemma quietC_callC {A} (r : exn + A) : quietC (callC r).
Proof. destruct r as [x|y]; intros s; apply same_comm_refl. Qed.

Lemma quietC_assign (z : ndarray) (r : exn + list (nat * float64)) :
  quietC (assign z r).
Proof. destruct r as [x|y]; intros s; [apply same_comm_refl|by repeat split]. Qed.

Lemma quiet_cpp_of (l : loc) : quiet (cpp_of l).
Proof. intros w. unfold cpp_of. destruct (heap w !! l); apply same_comm_refl. Qed.

Lemma quiet_setattr_i (l : loc) (v : Z) : quiet (setattr_i l v).
Proof. intros w. unfold setattr_i. destruct (heap w !! l); apply same_comm_refl. Qed.

Lemma quiet_next (self : loc) : quiet (Probes.next self).
Proof.
  intros w. rewrite next_run.
  destruct (element_value self w) as [x|e| |]; simpl; try apply same_comm_refl.
  destruct (heap w !! self); apply same_comm_refl.
Qed.

Lemma quiet_for_each {X A} (l : list X) (body : X → A → M A) :
  (∀ x acc, quiet (body x acc)) → ∀ acc, quiet (for_each l acc body).
Proof.
  intros Hb. induction l as [|x l IH]; intros acc; [apply quiet_mret|].
  intros w. rewrite for_each_consM. by apply quiet_bind.
Qed.

Lemma quietC_for_each {X A} (l : list X) (body : X → A → C A) :
  (∀ x acc, quietC (body x acc)) → ∀ acc, quietC (for_each l acc body).
Proof.
  intros Hb. induction l as [|x l IH]; intros acc;
    [intros e; apply same_comm_refl|].
  intros e. rewrite for_each_consC. by apply quietC_bind.
Qed.

Lemma quiet_for_enumerate {X A} (next : M X) (body : nat → X → A → M A) :
  quiet next → (∀ i x acc, quiet (body i x acc)) →
  ∀ fuel i acc, quiet (for_enumerate fuel next i acc body).
Proof.
  intros Hn Hb. induction fuel as [|fuel IH]; intros i acc w; simpl.
  - apply same_comm_refl.
  - specialize (Hn w). destruct (next w) as [[x|e| |] w']; simpl in *;
      try done.
    + eapply same_comm_trans; [exact Hn|].
      apply quiet_bind; [apply Hb|]. intros acc'. apply IH.
    + by destruct e.
Qed.

Lemma quietC_retrieve_component_snapshot c b comp n z :
  quietC (retrieve_component_snapshot c b comp n z).
Proof.
  apply quietC_for_each. intros k z'.
  destruct b; (apply quietC_bind; [apply quietC_callC|]); intros vals;
    apply quietC_assign.
Qed.

Lemma quiet_local_values (a : aggregation) (self : loc) (c : compiled)
    (b : bool) :
  quiet (local_values a self c b).
Proof.
  destruct a as [fuel N component|N component]; simpl.
  - unfold Probes.local_values.
    destruct (0 <? local_size c); [|apply quiet_mret].
    destruct N as [n|];
      [apply quiet_lift, quietC_retrieve_component_snapshot|].
    intros w. unfold Probes.retrieve_all_snapshots. rewrite iter_then.
    revert w. apply quiet_bind; [apply quiet_setattr_i|]. intros _.
    apply quiet_for_enumerate; [apply quiet_next|]. intros i x acc.
    apply quiet_for_each. intros k z.
    apply quiet_bind; [apply quiet_call|]. intros vec.
    apply quiet_lift, quietC_assign.
  - unfold StatisticsProbes.local_values.
    destruct (0 <? local_size c);
      [apply quiet_lift, quietC_retrieve_component_snapshot|apply quiet_mret].
Qed.




(** X7. The part of a call that fills the array of the process with its own
    values (lines 66-89 and 151-162) does not communicate and writes no
    file, whatever it results in: the rank, the pending gather and
    messages and the trace are as before. *)
Theorem local_values_never_communicate (a : aggregation) (self : loc)
    (c : compiled) (is_root : bool) (w : world) :
  let w' := (local_values a self c is_root w).2 in
  rank (ep w') = rank (ep w) ∧ gathered (ep w') = gathered (ep w)
  ∧ inbox (ep w') = inbox (ep w) ∧ trace (ep w') = trace (ep w).
Proof. apply (quiet_local_values a self c is_root w). Qed.



Lemma setitem_cell_row_outside (z : ndarray) (n c ne j k : nat)
    (vec : list float64) :
  shape z = [n; c; ne] → ¬ (j < n ∧ k < c) →
  setitem_cell z j k vec = inl IndexError.
Proof.
  intros Hz Hjk. unfold setitem_cell. rewrite Hz.
  destruct (Nat.ltb_spec j n), (Nat.ltb_spec k c); simpl; try done. lia.
Qed.

Lemma histories_overflow (p : probe) (n ne j vs : nat) (v0 v1 : list float64) :
  ∀ (z : ndarray) (w : world),
    shape z = [n; 1; ne] → 2 ≤ vs →
    get_probe_sub p 0 = inr v0 → length v0 = ne → get_probe_sub p 1 = inr v1 →
    ∃ w', for_each (seq 0 vs) z (λ k z,
            vec ← call (get_probe_sub p k);
            lift (assign z (setitem_cell z j k vec))) w
          = (Raise IndexError, w').
Proof.
  intros z w Hz Hvs H0 Hl H1.
  destruct vs as [|[|vs]]; [lia..|]. cbn [seq].
  rewrite for_each_consM, run_bind, run_bind, H0. cbn [call].
  change ((mret v0 : M _) w) with (Ok v0, w). cbv beta iota.
  rewrite run_lift. destruct (decide (j < n)) as [Hj|Hj].
  - rewrite (setitem_cell_in_range z n 1 ne j 0 v0) by (done || lia).
    rewrite assign_run. cbn [fst snd].
    rewrite for_each_consM, run_bind, run_bind, H1. cbn [call].
    match goal with |- context [@mret M _ _ v1 ?w1] =>
      change (@mret M _ _ v1 w1) with (Ok v1, w1) end.
    cbv beta iota. rewrite run_lift.
    rewrite (setitem_cell_row_outside _ n 1 ne j 1 v1) by (done || lia).
    by eexists.
  - rewrite (setitem_cell_row_outside _ n 1 ne j 0 v0) by (done || lia).
    by eexists.
Qed.

Lemma local_values_overflow (fuel : nat) (self : loc) (o : pyobj)
    (is_root : bool) (x : Z) (id : nat) (p : probe) (v0 v1 : list float64)
    (w : world) :
  heap w !! self = Some o →
  0 < local_size (cpp o) → 2 ≤ value_size (cpp o) → 0 < fuel →
  item (cpp o) 0 = Some (id, p) →
  get_probe_sub p 0 = inr v0 → length v0 = number_of_evaluations (cpp o) →
  get_probe_sub p 1 = inr v1 →
  ∃ w', Probes.local_values fuel self (cpp o) is_root None (Some x) w
        = (Raise IndexError, w').
Proof.
  intros Hw Hls Hvs Hfuel Hitem H0 Hl H1. unfold Probes.local_values.
  destruct (Nat.ltb_spec 0 (local_size (cpp o))); [|lia].
  unfold Probes.retrieve_all_snapshots. rewrite iter_then, run_bind.
  unfold setattr_i. rewrite Hw. cbv beta iota.
  destruct fuel as [|fuel]; [lia|].
  erewrite for_enumerate_step; last first.
  { rewrite (next_at self (cpp o) 0); [by rewrite Hitem|].
    simpl. by rewrite lookup_insert_eq. }
  rewrite run_bind. cbn [fst snd].
  edestruct (histories_overflow p) as [w' ->]; [| exact Hvs | exact H0 | exact Hl
                                               | exact H1 |]; [reflexivity|].
  by eexists.
Qed.

(** X9. [Probes.array] for all snapshots with a component argument, on a
    field of two or more components: a process that holds a probe raises
    [IndexError] at the second component of its first probe, before the
    gather and without any communication. *)
Theorem all_snapshots_with_component_raise_IndexError (fuel : nat) (self : loc)
    (o : pyobj) (filename : option string) (x : Z) (root : nat) (id : nat)
    (p : probe) (v0 v1 : list float64) (w : world) :
  heap w !! self = Some o →
  0 < local_size (cpp o) → 2 ≤ value_size (cpp o) → 0 < fuel →
  item (cpp o) 0 = Some (id, p) →
  get_probe_sub p 0 = inr v0 → length v0 = number_of_evaluations (cpp o) →
  get_probe_sub p 1 = inr v1 →
  ∃ w', Probes.array fuel self None filename (Some x) root w
        = (Raise IndexError, w')
        ∧ trace (ep w') = trace (ep w) ∧ inbox (ep w') = inbox (ep w).
Proof.
  intros Hw Hls Hvs Hfuel Hitem H0 Hl H1.
  pose (b := bool_decide (rank (ep w) = root)).
  destruct (local_values_overflow fuel self o b x id p v0 v1 w) as [w' Hlv];
    try done.
  exists w'. split.
  - assert (Hagg : Probes.aggregate fuel self None (Some x) root w
                   = (Raise IndexError, w')).
    { unfold Probes.aggregate. destruct w as [h e]. cbn [heap ep] in *.
      rewrite (run_bind_ok _ _ _ (rank e) (World h e)) by reflexivity.
      rewrite (run_bind_ok _ _ _ (cpp o) (World h e))
        by (unfold cpp_of; cbn [heap]; by rewrite Hw).
      rewrite run_bind. fold b. by rewrite Hlv. }
    unfold Probes.array. rewrite run_bind. by rewrite Hagg.
  - pose proof (quiet_local_values (ProbesArray fuel None (Some x)) self (cpp o)
                  b w) as (_ & _ & Hi & Ht).
    simpl in Hi, Ht. rewrite Hlv in Hi, Ht. done.
Qed.

Lemma all_snapshots_with_component_raise_IndexError_witness :
  let c := Sample.collection 4 2 2 [1; 3]
             [[[10; 11]; [12; 13]]; [[30; 31]; [32; 33]]]%Z in
  let w := Cases.at_7 c in
  ∃ w', Probes.array 5 7 None None (Some 0%Z) 0 w = (Raise IndexError, w')
        ∧ trace (ep w') = trace (ep w) ∧ inbox (ep w') = inbox (ep w).
Proof.
  intros c w.
  apply (all_snapshots_with_component_raise_IndexError 5 7 (PyObj c None) None
           0%Z 0 1 (Sample.a_probe [[10; 11]; [12; 13]]%Z)
           [10; 11]%Z [12; 13]%Z w);
    try reflexivity; try (simpl; lia).
Defined.

(** ** What the processes of a group write and return *)

Lemma dumps_app (t1 t2 : list event) : dumps (t1 ++ t2) = dumps t1 ++ dumps t2.
Proof. apply omap_app. Qed.

Lemma dumps_recv_events (r j0 n : nat) : dumps (recv_events r j0 n) = [].
Proof.
  unfold recv_events. revert j0. induction n as [|n IH]; intros j0; [done|].
  simpl. rewrite dumps_app, IH, app_nil_r. by destruct (bool_decide (j0 = r)).
Qed.

Lemma array_on_root (a : aggregation) (filename : option string) (root : nat)
    (ps : list Group.process) (cs : list compiled) (total : nat) (c : compiled) :
  distributed a root ps cs total → cs !! root = Some c →
  ∃ h, Group.run (array a filename root) root ps !! root
       = Some (Ok (Some (squeeze (root_buffer a root cs c))),
               World h (Endpoint root (Some (map local_size cs)) []
                 ((EvGather (local_size c) root
                   :: recv_events root 0 (length cs))
                  ++ (if truthy filename
                      then [EvDump (dump_path a filename)
                                   (root_buffer a root cs c)]
                      else []))
                 (root_stores a root cs c))).
Proof.
  intros Hd Hroot. pose proof Hd as (Hps & Hans & (c0 & Hc0 & Htot & Hsh) & Hperm).
  rewrite Hroot in Hc0. injection Hc0 as <-.
  pose proof (distributed_range a root ps cs total c Hd Hroot) as Hrange.
  destruct (Forall2_lookup_r _ _ _ _ _ Hps Hroot) as (p & Hp & Hcol).
  destruct (collection_of_heap p c Hcol) as (o & Ho & Hc).
  rewrite run_array_lookup,
    (group_root a root ps cs Hps Hans c Hroot Hsh Hrange p o Hp Ho Hc).
  eexists. simpl. destruct (truthy filename); simpl; [done|].
  by rewrite app_nil_r.
Qed.

Lemma array_off_root (a : aggregation) (filename : option string) (root : nat)
    (ps : list Group.process) (cs : list compiled) (total : nat)
    (r : nat) (cr : compiled) :
  distributed a root ps cs total → r ≠ root → cs !! r = Some cr →
  ∃ h, Group.run (array a filename root) root ps !! r
       = Some (Ok None,
               World h (Endpoint r (Some (map local_size cs)) []
                 [EvGather (local_size cr) root;
                  EvSend root 101 (PIds (get_probe_ids cr));
                  EvSend root 102 (PArr (local_buffer a false cr))]
                 (local_stores a false cr))).
Proof.
  intros Hd Hr Hcr.
  pose proof Hd as (Hps & Hans & (c & Hroot & Htot & Hsh) & Hperm).
  pose proof (distributed_range a root ps cs total c Hd Hroot) as Hrange.
  destruct (Forall2_lookup_r _ _ _ _ _ Hps Hcr) as (pr & Hpr & Hcolr).
  destruct (collection_of_heap pr cr Hcolr) as (or & Hor & <-).
  rewrite run_array_lookup,
    (group_not_root a root ps cs Hps Hans c Hroot Hrange r pr or Hr Hpr Hor).
  by eexists.
Qed.

(** X10. In a group in which the probes are distributed, a file is written
    by the root only, and only when the file name is a non-empty string:
    one file, whose path is the file name followed by the suffix of the
    kind of call, and which holds the array [z] with all its axes, while
    the call returns [z] squeezed. *)
Theorem root_alone_dumps_the_array_with_all_axes (a : aggregation)
    (filename : option string) (root : nat) (ps : list Group.process)
    (cs : list compiled) (total : nat) :
  distributed a root ps cs total →
  ∃ (c : compiled) (z : ndarray),
    cs !! root = Some c
    ∧ shape z = total :: row_shape a c
    ∧ (∃ w, Group.run (array a filename root) root ps !! root
            = Some (Ok (Some (squeeze z)), w)
            ∧ dumps (trace (ep w))
              = match filename with
                | Some (String ch name) =>
                    [(dump_path a (Some (String ch name)), z)]
                | _ => []
                end)
    ∧ ∀ r ow, r ≠ root →
        Group.run (array a filename root) root ps !! r = Some ow →
        ow.1 = Ok None ∧ dumps (trace (ep ow.2)) = [].
Proof.
  intros Hd. pose proof Hd as (Hps & Hans & (c & Hroot & Htot & Hsh) & Hperm).
  exists c, (root_buffer a root cs c). split; [done|].
  split; [by simpl; rewrite Htot|]. split.
  - destruct (array_on_root a filename root ps cs total c Hd Hroot) as [h Hrun].
    eexists. split; [exact Hrun|]. cbn [ep trace].
    rewrite dumps_app.
    change (dumps (EvGather (local_size c) root :: ?t)) with (dumps t).
    rewrite dumps_recv_events.
    by destruct filename as [[|ch name]|].
  - intros r ow Hr Hrun.
    assert (is_Some (cs !! r)) as [cr Hcr].
    { apply lookup_lt_is_Some. rewrite <- (Forall2_length _ _ _ Hps).
      apply lookup_lt_is_Some. rewrite run_lookup in Hrun.
      destruct (ps !! r); [by eexists|done]. }
    destruct (array_off_root a filename root ps cs total r cr Hd Hr Hcr)
      as [h Hrun'].
    rewrite Hrun' in Hrun. by injection Hrun as <-.
Qed.

Lemma root_alone_dumps_the_array_with_all_axes_witness :
  let a := ProbesArray 0 (Some 1%Z) None in
  distributed a 0 Sample.group Sample.collections 4
  ∧ ∃ (c : compiled) (z : ndarray),
      Sample.collections !! 0 = Some c
      ∧ shape z = 4 :: row_shape a c
      ∧ (∃ w, Group.run (array a (Some "testarray") 0) 0 Sample.group !! 0
              = Some (Ok (Some (squeeze z)), w)
              ∧ dumps (trace (ep w))
                = [(dump_path a (Some "testarray"), z)])
      ∧ ∀ r ow, r ≠ 0 →
          Group.run (array a (Some "testarray") 0) 0 Sample.group !! r = Some ow →
          ow.1 = Ok None ∧ dumps (trace (ep ow.2)) = [].
Proof.
  intros a.
  assert (Hd : distributed a 0 Sample.group Sample.collections 4)
    by (apply sample_distributed; [lia|apply sample_answers_snapshot_1]).
  split; [exact Hd|].
  exact (root_alone_dumps_the_array_with_all_axes a (Some "testarray") 0
           Sample.group Sample.collections 4 Hd).
Defined.

(** ** The values that reach the root *)

Lemma getitem2_lookup (z : ndarray) (n c j k : nat) (v : float64) :
  shape z = [n; c] → j < n → k < c → data z !! (j * c + k) = Some v →
  getitem2 z j k = inr v.
Proof.
  intros Hz Hj Hk Hv. unfold getitem2. rewrite Hz.
  destruct (Nat.ltb_spec j n); [|lia]. destruct (Nat.ltb_spec k c); [|lia].
  simpl. by rewrite Hv.
Qed.

Lemma getitem3_lookup (z : ndarray) (n c ne j k e : nat) (v : float64) :
  shape z = [n; c; ne] → j < n → k < c → e < ne →
  data z !! ((j * c + k) * ne + e) = Some v →
  getitem3 z j k e = inr v.
Proof.
  intros Hz Hj Hk He Hv. unfold getitem3. rewrite Hz.
  destruct (Nat.ltb_spec j n); [|lia]. destruct (Nat.ltb_spec k c); [|lia].
  destruct (Nat.ltb_spec e ne); [|lia]. simpl. by rewrite Hv.
Qed.

Lemma id_in_range (a : aggregation) (root : nat) (ps : list Group.process)
    (cs : list compiled) (total : nat) (r : nat) (cr : compiled) (l g : nat) :
  distributed a root ps cs total → cs !! r = Some cr →
  get_probe_ids cr !! l = Some g → g < total.
Proof.
  intros (_ & _ & _ & Hperm) Hcr Hl.
  assert (Hin : g ∈ flat_map get_probe_ids cs).
  { apply list_elem_of_In, in_flat_map. exists cr.
    split; apply list_elem_of_In; by eapply list_elem_of_lookup_2. }
  rewrite Hperm in Hin. apply elem_of_seq in Hin. lia.
Qed.

(** X11. In a group in which the probes are distributed, a call for one
    snapshot (or for a slot of the statistics) gives the root an array [z]
    of [total] rows and one column per component, returned squeezed, in
    which [z[id, k]] is the value that the compiled module of the process
    holding the probe [id] reports for it in component [k]. *)
Theorem snapshot_values_reach_the_row_of_their_id (a : aggregation)
    (filename : option string) (root : nat) (ps : list Group.process)
    (cs : list compiled) (total : nat) (n : Z) :
  distributed a root ps cs total → snapshot_of a = Some n →
  ∃ (c : compiled) (z : ndarray) (w : world),
    cs !! root = Some c
    ∧ Group.run (array a filename root) root ps !! root
      = Some (Ok (Some (squeeze z)), w)
    ∧ shape z = [total; comp_of a c]
    ∧ ∀ r cr l g k vals v,
        cs !! r = Some cr → get_probe_ids cr !! l = Some g →
        k < comp_of a c →
        get_probes_component_and_snapshot cr k n = inr vals →
        vals !! l = Some v →
        getitem2 z g k = inr v.
Proof.
  intros Hd Hn. pose proof Hd as (Hps & Hans & (c & Hroot & Htot & Hsh) & Hperm).
  destruct (array_on_root a filename root ps cs total c Hd Hroot) as [h Hrun].
  exists c, (root_buffer a root cs c). eexists. split; [done|].
  split; [exact Hrun|].
  assert (Hshape : shape (root_buffer a root cs c) = [total; comp_of a c]).
  { simpl. unfold row_shape. by rewrite Hn, Htot. }
  split; [done|]. intros r cr l g k vals v Hcr Hl Hk Hvals Hv.
  apply (getitem2_lookup _ total (comp_of a c)); [done| |done|].
  - by apply (id_in_range a root ps cs total r cr l g).
  - apply (root_buffer_snapshot_lookup a root ps cs total c n r cr l g k v);
      try done.
    unfold column. by rewrite Hvals.
Qed.

Lemma local_stores_history_member (a : aggregation) (b : bool) (c : compiled)
    (l g k e : nat) (v : float64) :
  snapshot_of a = None → rows_of b c !! l = Some g → k < value_size c →
  e < number_of_evaluations c → history c l k !! e = Some v →
  ((g * comp_of a c + k) * number_of_evaluations c + e, v) ∈ local_stores a b c.
Proof.
  intros Hn Hl Hk He Hv. unfold local_stores. rewrite Hn.
  apply list_elem_of_In, in_flat_map. exists (l, g). split.
  - apply list_elem_of_In, (list_elem_of_lookup_2 _ l).
    unfold enumerate. by rewrite enumerate_from_lookup, Hl.
  - apply in_flat_map. exists k. split.
    + apply list_elem_of_In, elem_of_seq. lia.
    + apply list_elem_of_In, (list_elem_of_lookup_2 _ e).
      apply lookup_zip_with_Some. eexists _, v.
      split; [done|]. split; [|done]. by apply lookup_seq.
Qed.

Lemma row_size_history (a : aggregation) (c : compiled) :
  snapshot_of a = None →
  row_size a c = comp_of a c * number_of_evaluations c.
Proof.
  intros Hn. unfold row_size, row_shape. rewrite Hn. simpl. lia.
Qed.

Lemma answers_all_components (a : aggregation) (c : compiled) :
  answers a c → snapshot_of a = None → comp_of a c = value_size c.
Proof.
  intros [_ Ha] Hn. destruct a as [fuel [n|] component|N component]; try done.
  destruct Ha as (_ & [->| Hv] & _); [done|].
  unfold comp_of. simpl. by destruct component.
Qed.

Lemma answers_history_length (a : aggregation) (c : compiled) (l k : nat) :
  answers a c → snapshot_of a = None → l < local_size c → k < value_size c →
  length (history c l k) = number_of_evaluations c.
Proof.
  intros [_ Ha] Hn Hl Hk.
  destruct a as [fuel [n|] component|N component]; try done.
  destruct Ha as (_ & _ & Hall & _).
  destruct (Hall l Hl) as (_ & p & Hp & Hsub). destruct (Hsub k Hk) as (v & Hv & Hlen).
  unfold history, sub_history. by rewrite Hp, Hv.
Qed.

Lemma cell_in_range (l k e n c ne : nat) :
  l < n → k < c → e < ne → (l * c + k) * ne + e < n * (c * ne).
Proof.
  intros Hl Hk He.
  assert (H1 : (l * c + k + 1) * ne ≤ (l + 1) * c * ne)
    by (apply Nat.mul_le_mono_r; lia).
  assert (H2 : (l + 1) * (c * ne) ≤ n * (c * ne))
    by (apply Nat.mul_le_mono_r; lia).
  lia.
Qed.

(** The array of a process other than the root holds, at row [l], the
    histories of the components of its probe of index [l]. *)
Lemma local_buffer_history_lookup (a : aggregation) (c : compiled)
    (l k e : nat) (v : float64) :
  answers a c → snapshot_of a = None → l < local_size c → k < value_size c →
  history c l k !! e = Some v →
  data (local_buffer a false c)
    !! ((l * comp_of a c + k) * number_of_evaluations c + e) = Some v.
Proof.
  intros Hans Hn Hl Hk Hv. unfold local_buffer. simpl.
  pose proof (local_stores_positions a false c Hans) as Hpos.
  simpl in Hpos. rewrite flat_map_rows_seq in Hpos.
  assert (He : e < number_of_evaluations c).
  { rewrite <- (answers_history_length a c l k) by done.
    by apply lookup_lt_Some in Hv. }
  apply store_cells_lookup.
  - rewrite Hpos. apply NoDup_seq.
  - apply (local_stores_history_member a false c l l k e v); try done.
    simpl. apply lookup_seq. lia.
  - rewrite length_replicate.
    change (prod_list (row_shape a c)) with (row_size a c).
    rewrite (row_size_history a c Hn), (answers_all_components a c Hans Hn).
    by apply cell_in_range.
Qed.

(** In a group in which the probes are distributed, the array of the root
    holds, at the row of an id, the histories of the components of the
    probe with this id, whichever process has it. *)
Lemma root_buffer_history_lookup (a : aggregation) (root : nat)
    (ps : list Group.process) (cs : list compiled) (total : nat) (c : compiled)
    (r : nat) (cr : compiled) (l g k e : nat) (v : float64) :
  distributed a root ps cs total → cs !! root = Some c →
  snapshot_of a = None → cs !! r = Some cr →
  get_probe_ids cr !! l = Some g → k < comp_of a c →
  history cr l k !! e = Some v →
  data (root_buffer a root cs c)
    !! ((g * comp_of a c + k) * number_of_evaluations c + e) = Some v.
Proof.
  intros Hd Hroot Hn Hcr Hl Hk Hv.
  pose proof Hd as (Hps & Hans & (c0 & Hc0 & Htot & Hsh) & Hperm).
  rewrite Hroot in Hc0. injection Hc0 as <-.
  pose proof (proj1 (Forall_lookup _ _) Hans r cr Hcr) as Hansr.
  assert (Hcomp : comp_of a cr = comp_of a c
                  ∧ number_of_evaluations cr = number_of_evaluations c).
  { pose proof (proj1 (Forall_lookup _ _) Hsh r cr Hcr) as Hs.
    unfold row_shape in Hs. rewrite Hn in Hs. by injection Hs. }
  destruct Hcomp as [Hcomp Hne].
  assert (Hlr : l < local_size cr).
  { apply lookup_lt_Some in Hl. by destruct Hansr as [<- _]. }
  assert (Hkr : k < value_size cr).
  { rewrite <- (answers_all_components a cr Hansr Hn). lia. }
  assert (He : e < number_of_evaluations cr).
  { rewrite <- (answers_history_length a cr l k) by done.
    by apply lookup_lt_Some in Hv. }
  destruct (decide (r = root)) as [->|Hr].
  - rewrite Hroot in Hcr. injection Hcr as <-.
    apply (root_buffer_lookup a root ps cs total Hd c Hroot).
    unfold root_stores. apply elem_of_app. left.
    by apply (local_stores_history_member a true c l g k e v).
  - pose proof (root_buffer_row a root ps cs total Hd c Hroot r cr l g Hr Hcr Hl)
      as Hrow.
    pose proof (f_equal (λ d, d !! (k * number_of_evaluations c + e)) Hrow) as Hk'.
    cbv beta in Hk'.
    rewrite !row_lookup, (row_size_history a c Hn) in Hk'.
    rewrite !decide_True in Hk' by nia.
    replace ((g * comp_of a c + k) * number_of_evaluations c + e)
      with (g * (comp_of a c * number_of_evaluations c)
            + (k * number_of_evaluations c + e)) by lia.
    rewrite Hk', <- Hcomp, <- Hne.
    replace (l * (comp_of a cr * number_of_evaluations cr)
             + (k * number_of_evaluations cr + e))
      with ((l * comp_of a cr + k) * number_of_evaluations cr + e) by lia.
    by apply (local_buffer_history_lookup a cr l k e v).
Qed.

(** X12. In a group in which the probes are distributed, a call for all
    snapshots gives the root an array [z] of [total] rows, one column per
    component and one entry per evaluation, returned squeezed, in which
    [z[id, k, e]] is entry [e] of the history that the probe [id] reports
    for its component [k] on the process that holds it. *)
Theorem histories_reach_the_row_of_their_id (fuel : nat) (component : option Z)
    (filename : option string) (root : nat) (ps : list Group.process)
    (cs : list compiled) (total : nat) :
  distributed (ProbesArray fuel None component) root ps cs total →
  ∃ (c : compiled) (z : ndarray) (w : world),
    cs !! root = Some c
    ∧ Group.run (array (ProbesArray fuel None component) filename root) root ps
        !! root
      = Some (Ok (Some (squeeze z)), w)
    ∧ shape z = [total; value_size c; number_of_evaluations c]
    ∧ ∀ r cr l g p k h e v,
        cs !! r = Some cr → get_probe_ids cr !! l = Some g →
        get_probe cr (Z.of_nat l) = inr p →
        k < value_size c → get_probe_sub p k = inr h → h !! e = Some v →
        getitem3 z g k e = inr v.
Proof.
  set (a := ProbesArray fuel None component).
  intros Hd. pose proof Hd as (Hps & Hans & (c & Hroot & Htot & Hsh) & Hperm).
  destruct (array_on_root a filename root ps cs total c Hd Hroot) as [h Hrun].
  pose proof (proj1 (Forall_lookup _ _) Hans root c Hroot) as Hansc.
  pose proof (answers_all_components a c Hansc eq_refl) as Hcomp.
  exists c, (root_buffer a root cs c). eexists. split; [done|].
  split; [exact Hrun|].
  assert (Hshape : shape (root_buffer a root cs c)
                   = [total; value_size c; number_of_evaluations c]).
  { simpl. unfold row_shape. simpl. by rewrite Htot, <- Hcomp. }
  split; [done|]. intros r cr l g p k hist e v Hcr Hl Hp Hk Hsub Hv.
  assert (Hhist : history cr l k = hist).
  { unfold history, sub_history. by rewrite Hp, Hsub. }
  pose proof (proj1 (Forall_lookup _ _) Hans r cr Hcr) as Hansr.
  assert (Hne : number_of_evaluations cr = number_of_evaluations c
                ∧ value_size cr = value_size c).
  { pose proof (proj1 (Forall_lookup _ _) Hsh r cr Hcr) as Hs.
    unfold row_shape in Hs. simpl in Hs. injection Hs as Hc' He'.
    rewrite <- (answers_all_components a cr Hansr eq_refl),
            <- (answers_all_components a c Hansc eq_refl). done. }
  destruct Hne as [Hne Hvs].
  assert (He : e < number_of_evaluations c).
  { rewrite <- Hne, <- (answers_history_length a cr l k), Hhist; try done.
    - by apply lookup_lt_Some in Hv.
    - apply lookup_lt_Some in Hl. by destruct Hansr as [<- _].
    - lia. }
  apply (getitem3_lookup _ total (value_size c) (number_of_evaluations c));
    try done.
  - by apply (id_in_range a root ps cs total r cr l g).
  - rewrite <- Hcomp.
    apply (root_buffer_history_lookup a root ps cs total c r cr l g k e v);
      try done; [lia|by rewrite Hhist].
Qed.

Lemma snapshot_values_reach_the_row_of_their_id_witness :
  let a := ProbesArray 0 (Some 1%Z) None in
  distributed a 2 Sample.group Sample.collections 4
  ∧ ∃ (c : compiled) (z : ndarray) (w : world),
      Sample.collections !! 2 = Some c
      ∧ Group.run (array a None 2) 2 Sample.group !! 2
        = Some (Ok (Some (squeeze z)), w)
      ∧ shape z = [4; comp_of a c]
      ∧ ∀ r cr l g k vals v,
          Sample.collections !! r = Some cr → get_probe_ids cr !! l = Some g →
          k < comp_of a c →
          get_probes_component_and_snapshot cr k 1 = inr vals →
          vals !! l = Some v →
          getitem2 z g k = inr v.
Proof.
  intros a.
  assert (Hd : distributed a 2 Sample.group Sample.collections 4)
    by (apply sample_distributed; [lia|apply sample_answers_snapshot_1]).
  split; [exact Hd|].
  exact (snapshot_values_reach_the_row_of_their_id a None 2 Sample.group
           Sample.collections 4 1%Z Hd eq_refl).
Defined.

Lemma histories_reach_the_row_of_their_id_witness :
  distributed (ProbesArray 3 None None) 0 Sample.group Sample.collections 4
  ∧ ∃ (c : compiled) (z : ndarray) (w : world),
      Sample.collections !! 0 = Some c
      ∧ Group.run (array (ProbesArray 3 None None) (Some "testarray") 0) 0
          Sample.group !! 0
        = Some (Ok (Some (squeeze z)), w)
      ∧ shape z = [4; value_size c; number_of_evaluations c]
      ∧ ∀ r cr l g p k h e v,
          Sample.collections !! r = Some cr → get_probe_ids cr !! l = Some g →
          get_probe cr (Z.of_nat l) = inr p →
          k < value_size c → get_probe_sub p k = inr h → h !! e = Some v →
          getitem3 z g k e = inr v.
Proof.
  assert (Hd : distributed (ProbesArray 3 None None) 0 Sample.group
                 Sample.collections 4)
    by (apply sample_distributed; [lia|apply sample_answers_all_snapshots]).
  split; [exact Hd|].
  exact (histories_reach_the_row_of_their_id 3 None (Some "testarray") 0
           Sample.group Sample.collections 4 Hd).
Defined.

(** ** A wrong slot of the statistics *)

(** X13. [StatisticsProbes.array] with a slot other than 0 and 1 raises
    [AssertionError] on every process of the group, the root included:
    no process blocks, none communicates or writes a file, and the
    collections are left as they were. *)
Theorem wrong_slot_raises_on_every_process (N : Z) (component : option Z)
    (filename : option string) (root : nat) (ps : list Group.process)
    (r : nat) (p : Group.process) :
  N ≠ 0%Z → N ≠ 1%Z → ps !! r = Some p →
  ∃ w, Group.run (array (StatisticsArray N component) filename root) root ps !! r
       = Some (Raise AssertionError, w)
       ∧ trace (ep w) = [] ∧ heap w = Group.p_heap p.
Proof.
  intros H0 H1 Hp. rewrite run_lookup, Hp. simpl.
  rewrite StatisticsProbes_array_slot_checked_first by done.
  by eexists.
Qed.

Lemma wrong_slot_raises_on_every_process_witness :
  (-1 ≠ 0)%Z ∧ (-1 ≠ 1)%Z ∧ Sample.group !! 1 = Some Sample.p1
  ∧ ∃ w, Group.run (array (StatisticsArray (-1) None) (Some "stats") 0) 0
           Sample.group !! 1
         = Some (Raise AssertionError, w)
         ∧ trace (ep w) = [] ∧ heap w = Group.p_heap Sample.p1.
Proof.
  split; [lia|]. split; [lia|]. split; [reflexivity|].
  apply (wrong_slot_raises_on_every_process (-1) None (Some "stats") 0
           Sample.group 1 Sample.p1); [lia|lia|reflexivity].
Defined.

(** ** Dofs without a component, and arrays that lost an axis *)

Lemma dof_component_map_absent (V : space) (d : nat) :
  (∀ L, L ∈ leaves V → d ∉ L) → dof_component_map V !! d = None.
Proof.
  intros H. unfold dof_component_map. rewrite extract_as_leaves.
  by rewrite leaf_steps_untouched.
Qed.

(** X14. The map from dofs to components has an entry for a dof exactly
    when the dof is one of a space without sub-spaces that the traversal
    reaches: nothing else is ever entered in the dictionary. *)
Theorem dof_component_map_holds_exactly_the_dofs_of_the_leaves (V : space)
    (d : nat) :
  is_Some (dof_component_map V !! d) ↔ ∃ L, L ∈ leaves V ∧ d ∈ L.
Proof.
  split.
  - intros Hd.
    destruct (decide (Exists (λ L, d ∈ L) (leaves V))) as [He|He].
    + apply Exists_exists in He. exact He.
    + rewrite dof_component_map_absent in Hd; [by destruct Hd|].
      intros L HL HdL. apply He, Exists_exists. by exists L.
  - intros H. destruct (last_leaf_of (leaves V) d H) as (t & L & Ht & HdL & Hlast).
    rewrite (dof_component_map_lookup V t L d Ht HdL Hlast). by eexists.
Qed.

Lemma remap_rows_app (dcm : gmap nat Z) (o : nat) (a : ndarray)
    (js1 js2 : list nat) (dd : list float64) :
  remap_rows dcm o a (js1 ++ js2) dd
  = match remap_rows dcm o a js1 dd with
    | inl e => inl e
    | inr dd' => remap_rows dcm o a js2 dd'
    end.
Proof.
  revert dd. induction js1 as [|j js1 IH]; intros dd; simpl; [done|].
  destruct (dcm !! (j + o)); [|done].
  destruct (getitem2 a j (Z.to_nat z)); [done|].
  destruct (setitem1 dd j f); [done|]. apply IH.
Qed.

(** X15. Onto a space with sub-spaces: when a local dof is in no space
    without sub-spaces that the traversal reaches, while the dofs before it
    have a component that is a column of the data, the process that keeps
    the data raises [KeyError] at that dof and the local values of the
    result are not set. *)
Theorem keep_data_raises_KeyError_at_dof_of_no_leaf (V : space)
    (owner_range0 : nat) (a : ndarray) (n c j0 : nat)
    (st : list float64 * list float64) :
  1 ≤ num_sub_spaces V →
  shape a = [n; c] → length (data a) = n * c → j0 < n → j0 ≤ length st.1 →
  (∀ j, j < j0 → ∃ cj, dof_component_map V !! (j + owner_range0) = Some cj
                       ∧ Z.to_nat cj < c) →
  (∀ L, L ∈ leaves V → j0 + owner_range0 ∉ L) →
  keep_data V (dof_component_map V) owner_range0 (Some a) st = inl KeyError.
Proof.
  intros HV Ha Hlen Hj0 Hdd Hbefore Hnone. unfold keep_data.
  destruct (Nat.ltb_spec (num_sub_spaces V) 1); [lia|].
  unfold shape0. rewrite Ha.
  replace (seq 0 n) with (seq 0 j0 ++ j0 :: seq (S j0) (n - S j0)).
  2:{ transitivity (seq 0 (j0 + S (n - S j0))); [by rewrite seq_app|f_equal; lia]. }
  rewrite remap_rows_app.
  destruct (remap_rows_spec (dof_component_map V) owner_range0 a n c Ha Hlen
              (seq 0 j0) st.1) as (dd' & -> & _).
  { apply NoDup_seq. }
  { intros j Hj. apply elem_of_seq in Hj.
    split; [lia|]. split; [lia|]. apply Hbefore. lia. }
  simpl. by rewrite (dof_component_map_absent V _ Hnone).
Qed.

Lemma keep_data_raises_KeyError_at_dof_of_no_leaf_witness :
  let st : list float64 * list float64 := ([0; 0; 0]%Z, [0; 0; 0]%Z) in
  (∀ j, j < 2 → ∃ cj, dof_component_map Sample.mixed !! (j + 6) = Some cj
                      ∧ Z.to_nat cj < 3)
  ∧ (∀ L, L ∈ leaves Sample.mixed → 2 + 6 ∉ L)
  ∧ keep_data Sample.mixed (dof_component_map Sample.mixed) 6
      (Some Sample.returned) st = inl KeyError.
Proof.
  intros st.
  assert (Hbefore : ∀ j, j < 2 →
            ∃ cj, dof_component_map Sample.mixed !! (j + 6) = Some cj
                  ∧ Z.to_nat cj < 3).
  { intros j Hj. destruct j as [|[|j]]; [| |lia].
    - exists 0%Z. split; [vm_compute; reflexivity|simpl; lia].
    - exists 1%Z. split; [vm_compute; reflexivity|simpl; lia]. }
  assert (Hnone : ∀ L, L ∈ leaves Sample.mixed → 2 + 6 ∉ L).
  { apply Forall_forall.
    apply (bool_decide_unpack (Forall (λ L, 2 + 6 ∉ L) (leaves Sample.mixed))).
    vm_compute. exact I. }
  split; [exact Hbefore|]. split; [exact Hnone|].
  apply (keep_data_raises_KeyError_at_dof_of_no_leaf Sample.mixed 6
           Sample.returned 3 3 2 st);
    [vm_compute; lia|reflexivity|reflexivity|lia|simpl; lia
    |exact Hbefore|exact Hnone].
Defined.

(** X16. Onto a space with sub-spaces, on the process that keeps the data
    of a round: when the array [z] of the round has a single row, that
    is, when one point was probed, the data returned is [z] without its
    row axis and the loop over its rows raises [IndexError]: the local
    values are not set. *)
Theorem interpolate_round_raises_IndexError_on_single_row
    (probe_round : nat → M (option ndarray)) (V : space) (owner_range0 : nat)
    (dcm : gmap nat Z) (i : nat) (st : list float64 * list float64)
    (w w' : world) (z : ndarray) (c : nat) :
  probe_round i w = (Ok (Some (squeeze z)), w') →
  rank (ep w') = i → 1 ≤ num_sub_spaces V →
  shape z = [1; c] → 1 ≤ c → is_Some (dcm !! owner_range0) →
  interpolate_round probe_round V owner_range0 dcm i st w
  = (Raise IndexError, w').
Proof.
  intros Hround Hrank HV Hz Hc [cj Hcj]. unfold interpolate_round.
  rewrite (run_bind_ok _ _ _ _ _ Hround).
  destruct w' as [h e]. cbn [ep] in Hrank.
  rewrite (run_bind_ok _ _ _ (rank e) (World h e)) by reflexivity.
  rewrite bool_decide_true by done.
  assert (Hkeep : keep_data V dcm owner_range0 (Some (squeeze z)) st
                  = inl IndexError); [|by rewrite Hkeep].
  unfold keep_data. destruct (Nat.ltb_spec (num_sub_spaces V) 1); [lia|].
  unfold shape0, squeeze. cbn [shape]. rewrite Hz.
  destruct (decide (c = 1)) as [->|Hc1]; [done|].
  assert (Hf : filter (λ d, d ≠ 1) [1; c] = [c]).
  { rewrite filter_cons_False by (intros H'; by apply H').
    by rewrite filter_cons_True. }
  rewrite Hf. destruct c as [|c]; [lia|]. cbn [seq remap_rows].
  by rewrite Nat.add_0_l, Hcj.
Qed.

Lemma interpolate_round_raises_IndexError_on_single_row_witness :
  let z := NDArray [1; 3] [100; 101; 102]%Z in
  let probe_round : nat → M (option ndarray) := λ i, mret (Some (squeeze z)) in
  let st : list float64 * list float64 := ([0%Z], [0%Z]) in
  probe_round 1 Sample.rank1 = (Ok (Some (squeeze z)), Sample.rank1)
  ∧ is_Some (dof_component_map Sample.mixed !! 2)
  ∧ interpolate_round probe_round Sample.mixed 2
      (dof_component_map Sample.mixed) 1 st Sample.rank1
    = (Raise IndexError, Sample.rank1).
Proof.
  intros z probe_round st.
  assert (Hdof : is_Some (dof_component_map Sample.mixed !! 2))
    by (exists 2%Z; vm_compute; reflexivity).
  split; [reflexivity|]. split; [exact Hdof|].
  apply (interpolate_round_raises_IndexError_on_single_row probe_round
           Sample.mixed 2 (dof_component_map Sample.mixed) 1 st
           Sample.rank1 Sample.rank1 z 3);
    [reflexivity|reflexivity|vm_compute; lia|reflexivity|lia|exact Hdof].
Defined.

(** ** The rounds of the interpolation *)

Lemma for_each_appM {X A} (l1 l2 : list X) (body : X → A → M A) :
  ∀ (acc : A) (w : world),
    for_each (l1 ++ l2) acc body w
    = ((for_each l1 acc body : M A) ≫= λ acc', for_each l2 acc' body) w.
Proof.
  induction l1 as [|x l1 IH]; intros acc w; [reflexivity|].
  cbn [app]. rewrite (for_each_consM x (l1 ++ l2)), run_bind.
  rewrite (run_bind (for_each (x :: l1) acc body)), for_each_consM, run_bind.
  destruct (body x acc w) as [[acc'| | |] w1]; try done.
Qed.

Section Rounds.
Context (probe_round : nat → M (option ndarray)).
Context (V : space) (owner_range0 : nat).
Context (Hround : ∀ i w, ∃ d w', probe_round i w = (Ok d, w')
                                 ∧ rank (ep w') = rank (ep w)).

Lemma rounds_of_other_ranks (dcm : gmap nat Z) (l : list nat)
    (st : list float64 * list float64) :
  ∀ w, (∀ i, i ∈ l → i ≠ rank (ep w)) →
    ∃ w', for_each l st (interpolate_round probe_round V owner_range0 dcm) w
          = (Ok st, w')
          ∧ rank (ep w') = rank (ep w).
Proof.
  induction l as [|i l IH]; intros w Hl; [by exists w|].
  destruct (Hround i w) as (d & w1 & Hd & Hr).
  rewrite for_each_consM, run_bind. unfold interpolate_round at 1.
  rewrite (run_bind_ok _ _ _ _ _ Hd).
  destruct w1 as [h e]. cbn [ep] in Hr.
  rewrite (run_bind_ok _ _ _ (rank e) (World h e)) by reflexivity.
  rewrite bool_decide_false by (rewrite Hr; apply Hl; left).
  change ((mret st : M _) (World h e)) with (Ok st, World h e). cbv beta iota.
  destruct (IH (World h e)) as (w' & Hw' & Hr').
  { intros j Hj. cbn [ep]. rewrite Hr. apply Hl. by right. }
  exists w'. split; [done|]. cbn [ep] in Hr'. by rewrite Hr', Hr.
Qed.

(** X17. When the probing of every round comes back on this process and
    leaves its rank alone, the local values that the interpolation returns
    are those that the round of the rank of the process computes from
    arrays of zeros: the rounds of the other ranks contribute nothing, and
    an exception of the round of its rank ends the interpolation on this
    process with that exception.  *)
Theorem interpolation_keeps_the_round_of_its_rank (local_size num_processes : nat)
    (w : world) :
  rank (ep w) < num_processes →
  ∃ (w1 w2 : world) (returned : option ndarray),
    probe_round (rank (ep w)) w1 = (Ok returned, w2)
    ∧ (interpolate_nonmatching_mesh_python probe_round V owner_range0
         local_size num_processes w).1
      = match keep_data V (dof_component_map V) owner_range0 returned
                (replicate local_size 0%Z, replicate local_size 0%Z) with
        | inl e => Raise e
        | inr st => Ok st.2
        end.
Proof.
  intros Hr. set (r := rank (ep w)) in *.
  set (st0 := (replicate local_size 0%Z, replicate local_size 0%Z)).
  set (dcm := dof_component_map V).
  destruct (rounds_of_other_ranks dcm (seq 0 r) st0 w) as (w1 & H1 & Hr1).
  { intros i Hi. apply elem_of_seq in Hi. fold r. lia. }
  destruct (Hround r w1) as (d & w2 & Hd & Hr2).
  exists w1, w2, d. split; [done|].
  unfold interpolate_nonmatching_mesh_python. fold dcm st0.
  replace (seq 0 num_processes)
    with (seq 0 r ++ r :: seq (S r) (num_processes - S r)).
  2:{ transitivity (seq 0 (r + S (num_processes - S r)));
        [by rewrite seq_app|f_equal; lia]. }
  rewrite run_bind, for_each_appM, run_bind.
  match goal with |- context [for_each (seq 0 r) ?s ?b w] =>
    replace (for_each (seq 0 r) s b w) with (Ok st0, w1)
      by (symmetry; exact H1) end.
  cbv beta iota.
  rewrite for_each_consM, run_bind. unfold interpolate_round at 1.
  rewrite (run_bind_ok _ _ _ _ _ Hd).
  destruct w2 as [h e]. cbn [ep] in Hr2.
  rewrite (run_bind_ok _ _ _ (rank e) (World h e)) by reflexivity.
  rewrite bool_decide_true by (rewrite Hr2, Hr1; done).
  destruct (keep_data V dcm owner_range0 d st0) as [ex|st]; [done|].
  change (call (inr st) (World h e)) with (Ok st, World h e). cbv beta iota.
  destruct (rounds_of_other_ranks dcm (seq (S r) (num_processes - S r)) st
              (World h e)) as (w3 & H3 & _).
  { intros i Hi. apply elem_of_seq in Hi. cbn [ep]. rewrite Hr2, Hr1. fold r. lia. }
  match goal with |- context [for_each (seq (S r) ?n) ?s ?b ?w0] =>
    replace (for_each (seq (S r) n) s b w0) with (Ok st, w3)
      by (symmetry; exact H3) end.
  done.
Qed.
End Rounds.

Lemma interpolation_keeps_the_round_of_its_rank_witness :
  let probe_round : nat → M (option ndarray) :=
    λ i, mret (if i =? 1 then Some Sample.returned else None) in
  (∀ i w, ∃ d w', probe_round i w = (Ok d, w') ∧ rank (ep w') = rank (ep w))
  ∧ (interpolate_nonmatching_mesh_python probe_round Sample.mixed 2 3 4
       Sample.rank1).1
    = Ok [102; 110; 121]%Z
  ∧ ∃ (w1 w2 : world) (returned : option ndarray),
      probe_round (rank (ep Sample.rank1)) w1 = (Ok returned, w2)
      ∧ (interpolate_nonmatching_mesh_python probe_round Sample.mixed 2 3 4
           Sample.rank1).1
        = match keep_data Sample.mixed (dof_component_map Sample.mixed) 2
                  returned (replicate 3 0%Z, replicate 3 0%Z) with
          | inl e => Raise e
          | inr st => Ok st.2
          end.
Proof.
  intros probe_round.
  assert (Hround : ∀ i w, ∃ d w', probe_round i w = (Ok d, w')
                                  ∧ rank (ep w') = rank (ep w))
    by (intros i w; by eexists _, w).
  split; [exact Hround|]. split; [vm_compute; reflexivity|].
  apply (interpolation_keeps_the_round_of_its_rank probe_round Sample.mixed 2
           Hround 3 4 Sample.rank1).
  simpl. lia.
Defined.

(** ** All snapshots of a collection that fails part of the way *)

Lemma items_S (c : compiled) (i0 m : nat) :
  items c i0 (S m)
  = match item c i0 with
    | Some x => x :: items c (S i0) m
    | None => items c (S i0) m
    end.
Proof. unfold items. simpl. by destruct (item c i0). Qed.

Lemma length_items (c : compiled) (i0 m : nat) : length (items c i0 m) ≤ m.
Proof.
  revert i0. induction m as [|m IH]; intros i0; [done|].
  rewrite items_S. specialize (IH (S i0)).
  destruct (item c i0); simpl; lia.
Qed.

Lemma retrieve_until_failure (self : loc) (c : compiled) (is_root : bool)
    (size comp ne n0 : nat) :
  value_size c ≤ comp → item c n0 = None →
  ∀ (m i0 fuel : nat) (z : ndarray) (w : world),
    i0 + m = n0 → m < fuel →
    heap w !! self = Some (PyObj c (Some (Z.of_nat i0))) →
    shape z = [size; comp; ne] →
    length (items c i0 m) = m →
    Forall (fits is_root size (value_size c) ne)
           (enumerate_from i0 (items c i0 m)) →
    for_enumerate fuel (Probes.next self) i0 z (λ i ip z,
      for_each (seq 0 (value_size c)) z (λ k z,
        vec ← call (get_probe_sub ip.2 k);
        lift (assign z (setitem_cell z (if is_root then ip.1 else i) k vec)))) w
    = (Ok (NDArray (shape z)
             (store_cells (history_stores is_root comp (value_size c) ne
                             (enumerate_from i0 (items c i0 m))) (data z))),
       World (<[self := PyObj c (Some (Z.of_nat n0))]> (heap w))
             (with_stores (ep w)
                (history_stores is_root comp (value_size c) ne
                   (enumerate_from i0 (items c i0 m))))).
Proof.
  intros Hvs Hend. induction m as [|m IH];
    intros i0 fuel z w Hi0 Hfuel Ho Hs Hlen Hfits;
    (destruct fuel as [|fuel]; [lia|]).
  - assert (i0 = n0) as -> by lia.
    rewrite (for_enumerate_stop _ _ _ _ _ w w)
      by by rewrite (next_at _ c n0), Hend.
    unfold items, history_stores. simpl.
    rewrite with_stores_nil, insert_id by done. by destruct z, w.
  - rewrite items_S in Hlen, Hfits |- *.
    pose proof (length_items c (S i0) m) as Hle.
    destruct (item c i0) as [x|] eqn:Hx; [|lia].
    cbn [length] in Hlen. cbn [enumerate_from] in Hfits |- *.
    apply Forall_cons in Hfits as [[Hrow Hsub] Hfits].
    rewrite (for_enumerate_step _ _ _ _ _ w
               (World (<[self := PyObj c (Some (Z.of_nat (S i0)))]> (heap w))
                      (ep w)) x)
      by by rewrite (next_at _ c i0), Hx.
    rewrite run_bind. cbv beta zeta.
    change (if is_root then x.1 else i0) with (row_of_element is_root (i0, x)).
    rewrite (retrieve_histories_run x.2 size comp ne _ (seq 0 (value_size c))
               z _ Hs Hrow).
    2:{ intros k Hk%elem_of_seq. split; [lia|]. apply Hsub. lia. }
    cbv beta iota.
    rewrite IH; [|lia|lia|by simpl; rewrite lookup_insert_eq|done|lia|done].
    unfold history_stores. cbn [flat_map].
    rewrite store_cells_app. cbn [heap ep shape data fst snd].
    by rewrite insert_insert_eq, with_stores_app.
Qed.

(** X18. [Probes.array] for all snapshots on a collection whose compiled
    module gives no id or no probe from some index on, below the number
    of probes: the values of the probes before that index are stored, the
    rows of the others stay as [zeros] made them, and no exception is
    raised. *)
Theorem all_snapshots_stop_silently_at_first_failure (fuel : nat) (self : loc)
    (o : pyobj) (is_root : bool) (component : option Z) (n0 : nat) (w : world) :
  heap w !! self = Some o → 0 < local_size (cpp o) → n0 < fuel →
  value_size (cpp o) ≤ comp_of (ProbesArray fuel None component) (cpp o) →
  (∀ i, i < n0 → is_Some (item (cpp o) i)) → item (cpp o) n0 = None →
  Forall (fits is_root (size_of is_root (cpp o)) (value_size (cpp o))
            (number_of_evaluations (cpp o)))
         (enumerate (items (cpp o) 0 n0)) →
  let c := cpp o in
  let sh := [size_of is_root c; comp_of (ProbesArray fuel None component) c;
             number_of_evaluations c] in
  let ws := history_stores is_root (comp_of (ProbesArray fuel None component) c)
              (value_size c) (number_of_evaluations c)
              (enumerate (items c 0 n0)) in
  Probes.local_values fuel self c is_root None component w
  = (Ok (NDArray sh (store_cells ws (data (zeros sh)))),
     World (<[self := PyObj c (Some (Z.of_nat n0))]> (heap w))
           (with_stores (ep w) ws))
  ∧ ∀ i, i ∉ map fst ws →
      store_cells ws (data (zeros sh)) !! i = data (zeros sh) !! i.
Proof.
  intros Hw Hls Hfuel Hvs Hall Hend Hfits c sh ws. split.
  - unfold Probes.local_values.
    destruct (Nat.ltb_spec 0 (local_size c)); [|unfold c in *; lia].
    unfold Probes.retrieve_all_snapshots. rewrite iter_then, run_bind.
    unfold setattr_i. rewrite Hw. cbv beta iota.
    rewrite (retrieve_until_failure self c is_root (size_of is_root c)
               (comp_of (ProbesArray fuel None component) c)
               (number_of_evaluations c) n0 Hvs Hend n0 0 fuel); try done.
    + cbn [heap ep shape]. by rewrite insert_insert_eq.
    + simpl. by rewrite lookup_insert_eq.
    + assert (H' : ∀ i0 m, i0 + m ≤ n0 → length (items c i0 m) = m); [|by apply H'].
      intros i0 m. revert i0.
      induction m as [|m IH]; intros i0 Hle; [done|].
      rewrite items_S. unfold c. destruct (Hall i0) as [x ->]; [lia|]. simpl.
      fold c. rewrite IH; [done|lia].
  - intros i Hi. by apply store_cells_other.
Qed.

Lemma all_snapshots_stop_silently_at_first_failure_witness :
  let w := Cases.at_7 Cases.truncated in
  let ws := [(0, 5%Z)] in
  local_size Cases.truncated = 2
  ∧ item Cases.truncated 1 = None
  ∧ Probes.local_values 5 7 Cases.truncated true None None w
    = (Ok (NDArray [2; 1; 1] [5; 0]%Z),
       World (<[7 := PyObj Cases.truncated (Some 1%Z)]> (heap w))
             (with_stores (ep w) ws))
  ∧ ∀ i, i ∉ map fst ws →
      store_cells ws (data (zeros [2; 1; 1])) !! i = data (zeros [2; 1; 1]) !! i.
Proof.
  intros w ws. split; [reflexivity|]. split; [reflexivity|].
  apply (all_snapshots_stop_silently_at_first_failure 5 7
           (PyObj Cases.truncated None) true None 1 w).
  - reflexivity.
  - vm_compute. lia.
  - lia.
  - vm_compute. lia.
  - intros i Hi. assert (i = 0) as -> by lia. vm_compute. eauto.
  - reflexivity.
  - change (enumerate (items Cases.truncated 0 1))
      with [(0, (0, Sample.a_probe [[5%Z]]))].
    apply Forall_cons. split; [|by apply Forall_nil].
    split; [vm_compute; lia|].
    intros k Hk. assert (k = 0) as -> by (vm_compute in Hk; lia).
    exists [5%Z]. by split.
Defined.
